(** * recipe-app-api: the recipe, tag and ingredient views

    A shallow embedding of [app/recipe/views.py] together with the parts of
    Django and Django REST framework the views rest on: tables with integer
    primary keys, query sets, the generic view-set mixins and the router.

    The model classes ([core/models.py]), the serializers
    ([recipe/serializers.py]) and the URL configuration ([recipe/urls.py])
    are not among the sources at hand; what the views need of them is
    modelled from the specification and marked as such. *)

From stdpp Require Import base option list list_numbers sorting strings gmap sets.

(** ** Ordinal comparison of strings

    [order_by("-name")] compares names code point by code point; upper and
    lower case letters are different characters. *)

Definition name_le (s1 s2 : string) : Prop := String.leb s1 s2 = true.

Global Instance name_le_dec s1 s2 : Decision (name_le s1 s2).
Proof. unfold name_le. apply _. Defined.

(** ** Data model

    Modelled from the spec: [core/models.py] is not among the sources.  The
    rows carry the fields of section 3 of the specification under the names
    the tests use ([title], [time_minutes], [price], [description], [link],
    [user], [name]).  A price is a decimal with two places, kept in
    hundredths.  The image reference of a recipe is the stored upload. *)

Record Recipe := mkRecipe {
  recipe_user : nat;
  title : string;
  time_minutes : nat;
  price : Z;
  description : string;
  link : string;
  image : option string
}.

Record Attr := mkAttr {
  attr_user : nat;
  name : string
}.

Global Instance Recipe_eq_dec : EqDecision Recipe.
Proof. solve_decision. Defined.

Global Instance Attr_eq_dec : EqDecision Attr.
Proof. solve_decision. Defined.

(** [Tag] and [Ingredient] have the same shape and share their view code. *)
Inductive AttrKind := Tag | Ingredient.

Global Instance AttrKind_eq_dec : EqDecision AttrKind.
Proof. solve_decision. Defined.

(** The five tables: three for the rows and the two join tables of the
    many-to-many relations, kept per recipe as the set of related keys. *)
Record DB := mkDB {
  core_recipe : gmap nat Recipe;
  core_tag : gmap nat Attr;
  core_ingredient : gmap nat Attr;
  core_recipe_tags : gmap nat (gset nat);
  core_recipe_ingredients : gmap nat (gset nat)
}.

Global Instance DB_eq_dec : EqDecision DB.
Proof. solve_decision. Defined.

Definition attr_table (k : AttrKind) (db : DB) : gmap nat Attr :=
  match k with
  | Tag => core_tag db
  | Ingredient => core_ingredient db
  end.

Definition attr_links (k : AttrKind) (db : DB) : gmap nat (gset nat) :=
  match k with
  | Tag => core_recipe_tags db
  | Ingredient => core_recipe_ingredients db
  end.

Definition set_core_recipe (t : gmap nat Recipe) (db : DB) : DB :=
  mkDB t (core_tag db) (core_ingredient db)
       (core_recipe_tags db) (core_recipe_ingredients db).

Definition set_attr_table (k : AttrKind) (t : gmap nat Attr) (db : DB) : DB :=
  match k with
  | Tag =>
      mkDB (core_recipe db) t (core_ingredient db)
           (core_recipe_tags db) (core_recipe_ingredients db)
  | Ingredient =>
      mkDB (core_recipe db) (core_tag db) t
           (core_recipe_tags db) (core_recipe_ingredients db)
  end.

Definition set_attr_links (k : AttrKind) (l : gmap nat (gset nat)) (db : DB)
    : DB :=
  match k with
  | Tag =>
      mkDB (core_recipe db) (core_tag db) (core_ingredient db)
           l (core_recipe_ingredients db)
  | Ingredient =>
      mkDB (core_recipe db) (core_tag db) (core_ingredient db)
           (core_recipe_tags db) l
  end.

(** [recipe.tags.all()] and [recipe.ingredients.all()], as sets of keys. *)
Definition related (k : AttrKind) (db : DB) (rid : nat) : gset nat :=
  default ∅ (attr_links k db !! rid).

(** ** Object-relational layer *)

(** The key the storage engine gives to the next row of a table: one more
    than the largest key in use. *)
Definition next_id {A} (t : gmap nat A) : nat :=
  S (max_list (elements (dom t))).

(** A query set is the list of its rows, each with its key. *)
Definition objects_all {A} (t : gmap nat A) : list (nat * A) := map_to_list t.

(** [.filter(user=u)] *)
Definition filter_user {A} (owner : A → nat) (u : nat)
    (qs : list (nat * A)) : list (nat * A) :=
  filter (λ ir, owner ir.2 = u) qs.

(** [.order_by("-id")] *)
Definition neg_id_le {A} (a b : nat * A) : Prop := b.1 ≤ a.1.

Global Instance neg_id_le_dec {A} (a b : nat * A) : Decision (neg_id_le a b).
Proof. unfold neg_id_le. apply _. Defined.

Definition order_by_neg_id {A} (qs : list (nat * A)) : list (nat * A) :=
  merge_sort neg_id_le qs.

(** [.order_by("-name")] *)
Definition neg_name_le (a b : nat * Attr) : Prop := name_le (name b.2) (name a.2).

Global Instance neg_name_le_dec a b : Decision (neg_name_le a b).
Proof. unfold neg_name_le. apply _. Defined.

Definition order_by_neg_name (qs : list (nat * Attr)) : list (nat * Attr) :=
  merge_sort neg_name_le qs.

(** [.get(pk=pk)] on a query set, [None] standing for [DoesNotExist]. *)
Definition queryset_get {A} (pk : nat) (qs : list (nat * A)) : option A :=
  (λ x, x.2.2) <$> list_find (λ ir, ir.1 = pk) qs.

(** [instance.delete()] on a recipe: the row goes, and with it its rows in
    the two join tables. *)
Definition recipe_delete (rid : nat) (db : DB) : DB :=
  mkDB (delete rid (core_recipe db)) (core_tag db) (core_ingredient db)
       (delete rid (core_recipe_tags db))
       (delete rid (core_recipe_ingredients db)).

(** [instance.delete()] on a tag or an ingredient: the row goes, and it
    leaves every recipe it was related to. *)
Definition attr_delete (k : AttrKind) (aid : nat) (db : DB) : DB :=
  set_attr_links k ((λ s : gset nat, s ∖ {[aid]}) <$> attr_links k db)
    (set_attr_table k (delete aid (attr_table k db)) db).

(** ** Nested-entity reconciler

    Modelled from the spec: the reconciler lives in [recipe/serializers.py],
    which is not among the sources.  Section 4.2 of the specification: each
    named item is found or created under [(owner, name)]; the rows found
    are collected into a set; the set replaces the recipe's relation; an
    absent key leaves the relation alone. *)

(** The keys of the rows of [owner] called [n]. *)
Definition matching (t : gmap nat Attr) (owner : nat) (n : string) : list nat :=
  (filter (λ ia, ia.2 = mkAttr owner n) (map_to_list t)).*1.

(** The existing row for [(owner, n)]; the oldest one, should the table
    hold several. *)
Definition find_attr (t : gmap nat Attr) (owner : nat) (n : string)
    : option nat :=
  match matching t owner n with
  | [] => None
  | i :: l => Some (foldr Nat.min i l)
  end.

Definition get_or_create (k : AttrKind) (owner : nat) (n : string) (db : DB)
    : DB * nat :=
  match find_attr (attr_table k db) owner n with
  | Some i => (db, i)
  | None =>
      let i := next_id (attr_table k db) in
      (set_attr_table k (<[i := mkAttr owner n]> (attr_table k db)) db, i)
  end.

Fixpoint resolve_all (k : AttrKind) (owner : nat) (names : list string)
    (db : DB) : DB * gset nat :=
  match names with
  | [] => (db, ∅)
  | n :: names' =>
      let '(db1, i) := get_or_create k owner n db in
      let '(db2, s) := resolve_all k owner names' db1 in
      (db2, {[i]} ∪ s)
  end.

Definition reconcile (k : AttrKind) (owner rid : nat)
    (items : option (list string)) (db : DB) : DB :=
  match items with
  | None => db
  | Some names =>
      let '(db1, s) := resolve_all k owner names db in
      set_attr_links k (<[rid := s]> (attr_links k db1)) db1
  end.

(** ** Requests and responses *)

(** The body of a request: every key a client may send, each optional.
    Nested tags and ingredients are lists of [{"name": ...}] items. *)
Record Payload := mkPayload {
  p_user : option nat;
  p_title : option string;
  p_time_minutes : option nat;
  p_price : option Z;
  p_description : option string;
  p_link : option string;
  p_tags : option (list string);
  p_ingredients : option (list string);
  p_image : option string;
  p_name : option string
}.

Definition empty_payload : Payload :=
  mkPayload None None None None None None None None None None.

(** What a recipe serializer renders: the key of the row and, of its
    fields and relations, those the serializer class lists.  A field the
    class does not list is absent from the rendering; the owner is listed
    by no class.  A relation is rendered as the keys of the related rows. *)
Record RecipeData := mkRecipeData {
  rd_id : nat;
  rd_title : option string;
  rd_time_minutes : option nat;
  rd_price : option Z;
  rd_description : option string;
  rd_link : option string;
  rd_image : option (option string);
  rd_tags : option (gset nat);
  rd_ingredients : option (gset nat)
}.

Inductive Body :=
  | body_empty
  | body_detail (msg : string)
  | body_errors
  | body_recipe (d : RecipeData)
  | body_recipes (l : list RecipeData)
  | body_attr (k : AttrKind) (aid : nat) (a : Attr)
  | body_attrs (k : AttrKind) (l : list (nat * Attr)).

Record Response := mkResponse {
  status_code : nat;
  data : Body
}.

Definition HTTP_200_OK := 200.
Definition HTTP_201_CREATED := 201.
Definition HTTP_204_NO_CONTENT := 204.
Definition HTTP_400_BAD_REQUEST := 400.
Definition HTTP_401_UNAUTHORIZED := 401.
Definition HTTP_404_NOT_FOUND := 404.
Definition HTTP_405_METHOD_NOT_ALLOWED := 405.
Definition HTTP_500_INTERNAL_SERVER_ERROR := 500.

(** What [Http404] turns into, whatever made the lookup fail. *)
Definition not_found : Response :=
  mkResponse HTTP_404_NOT_FOUND (body_detail "Not found.").

Definition method_not_allowed : Response :=
  mkResponse HTTP_405_METHOD_NOT_ALLOWED (body_detail "Method not allowed.").

Definition not_authenticated : Response :=
  mkResponse HTTP_401_UNAUTHORIZED
    (body_detail "Authentication credentials were not provided.").

Definition bad_request : Response :=
  mkResponse HTTP_400_BAD_REQUEST body_errors.

(** Modelled from the spec: a write that the uniqueness of names refuses
    is surfaced as a generic validation error (section 7). *)
Definition conflict : Response :=
  mkResponse HTTP_400_BAD_REQUEST body_errors.

Definition server_error : Response :=
  mkResponse HTTP_500_INTERNAL_SERVER_ERROR body_empty.

(** ** Serializers

    Modelled from the spec: [recipe/serializers.py] is not among the
    sources.  A serializer class is the list of fields it accepts and
    shows; no class lists [user], so an owner sent by a client never
    reaches the validated data (section 4.1); the image serializer lists
    the image and nothing else (section 4.3). *)

Inductive SerializerClass :=
  | RecipeSerializer
  | RecipeDetailSerializer
  | RecipeImageSerializer
  | TagSerializer
  | IngredientSerializer.

Inductive Field :=
  | f_title | f_time_minutes | f_price | f_description | f_link
  | f_tags | f_ingredients | f_image | f_name.

Global Instance Field_eq_dec : EqDecision Field.
Proof. solve_decision. Defined.

Definition all_fields : list Field :=
  [f_title; f_time_minutes; f_price; f_description; f_link;
   f_tags; f_ingredients; f_image; f_name].

Definition present (f : Field) (p : Payload) : bool :=
  match f with
  | f_title => bool_decide (is_Some (p_title p))
  | f_time_minutes => bool_decide (is_Some (p_time_minutes p))
  | f_price => bool_decide (is_Some (p_price p))
  | f_description => bool_decide (is_Some (p_description p))
  | f_link => bool_decide (is_Some (p_link p))
  | f_tags => bool_decide (is_Some (p_tags p))
  | f_ingredients => bool_decide (is_Some (p_ingredients p))
  | f_image => bool_decide (is_Some (p_image p))
  | f_name => bool_decide (is_Some (p_name p))
  end.

Definition mask {A} (b : bool) (o : option A) : option A :=
  if b then o else None.

(** [setattr(instance, attr, value)] for every validated recipe field. *)
Definition set_fields (vd : Payload) (r : Recipe) : Recipe :=
  mkRecipe (default (recipe_user r) (p_user vd))
           (default (title r) (p_title vd))
           (default (time_minutes r) (p_time_minutes vd))
           (default (price r) (p_price vd))
           (default (description r) (p_description vd))
           (default (link r) (p_link vd))
           (match p_image vd with Some i => Some i | None => image r end).

Definition set_attr_fields (vd : Payload) (a : Attr) : Attr :=
  mkAttr (default (attr_user a) (p_user vd)) (default (name a) (p_name vd)).

(** [serializer.save] lays its keyword arguments over the validated
    data. *)
Definition with_user (u : nat) (vd : Payload) : Payload :=
  mkPayload (Some u) (p_title vd) (p_time_minutes vd) (p_price vd)
            (p_description vd) (p_link vd) (p_tags vd) (p_ingredients vd)
            (p_image vd) (p_name vd).

(** ** View sets, actions and routes *)

Inductive Action :=
  | action_list
  | action_retrieve
  | action_create
  | action_update
  | action_partial_update
  | action_destroy
  | action_upload_image.

Global Instance Action_eq_dec : EqDecision Action.
Proof. solve_decision. Defined.

(** The mixins of [rest_framework.mixins] and the actions each one adds. *)
Inductive Mixin :=
  | CreateModelMixin
  | RetrieveModelMixin
  | UpdateModelMixin
  | DestroyModelMixin
  | ListModelMixin.

Definition mixin_actions (m : Mixin) : list Action :=
  match m with
  | CreateModelMixin => [action_create]
  | RetrieveModelMixin => [action_retrieve]
  | UpdateModelMixin => [action_update; action_partial_update]
  | DestroyModelMixin => [action_destroy]
  | ListModelMixin => [action_list]
  end.

(** [viewsets.ModelViewSet] *)
Definition ModelViewSet : list Mixin :=
  [CreateModelMixin; RetrieveModelMixin; UpdateModelMixin;
   DestroyModelMixin; ListModelMixin].

(** [class BaseRecipeAttributeViewSet(mixins.ListModelMixin,
    mixins.UpdateModelMixin, mixins.DestroyModelMixin,
    viewsets.GenericViewSet)] *)
Definition BaseRecipeAttributeViewSet : list Mixin :=
  [ListModelMixin; UpdateModelMixin; DestroyModelMixin].

Inductive ViewSet := RecipeViewSet | TagViewSet | IngredientViewSet.

Global Instance ViewSet_eq_dec : EqDecision ViewSet.
Proof. solve_decision. Defined.

Definition bases (v : ViewSet) : list Mixin :=
  match v with
  | RecipeViewSet => ModelViewSet
  | TagViewSet => BaseRecipeAttributeViewSet
  | IngredientViewSet => BaseRecipeAttributeViewSet
  end.

(** Methods decorated with [@action]. *)
Definition extra_actions (v : ViewSet) : list Action :=
  match v with
  | RecipeViewSet => [action_upload_image]
  | _ => []
  end.

Definition actions (v : ViewSet) : list Action :=
  concat (mixin_actions <$> bases v) ++ extra_actions v.

Definition has_action (v : ViewSet) (a : Action) : bool :=
  bool_decide (a ∈ actions v).

Inductive Method := GET | POST | PUT | PATCH | DELETE.

Global Instance Method_eq_dec : EqDecision Method.
Proof. solve_decision. Defined.

(** The addresses of section 6 of the specification: the collection of a
    view set, one of its rows, and the image upload of a recipe. *)
Inductive Url :=
  | url_list (v : ViewSet)
  | url_detail (v : ViewSet) (pk : nat)
  | url_upload_image (pk : nat).

Definition url_viewset (url : Url) : ViewSet :=
  match url with
  | url_list v => v
  | url_detail v _ => v
  | url_upload_image _ => RecipeViewSet
  end.

Definition url_pk (url : Url) : nat :=
  match url with
  | url_list _ => 0
  | url_detail _ pk => pk
  | url_upload_image pk => pk
  end.

(** The method table of the REST framework router
    ([routers.SimpleRouter.routes]).  [recipe/urls.py], which registers the
    three view sets, is not among the sources; the tests reverse the names
    [recipe-list], [recipe-detail], [recipe-upload-image], [tag-list],
    [tag-detail], [ingredient-list] and [ingredient-detail], which are the
    names that router gives its routes. *)
Definition route (url : Url) (m : Method) : option Action :=
  match url, m with
  | url_list _, GET => Some action_list
  | url_list _, POST => Some action_create
  | url_detail _ _, GET => Some action_retrieve
  | url_detail _ _, PUT => Some action_update
  | url_detail _ _, PATCH => Some action_partial_update
  | url_detail _ _, DELETE => Some action_destroy
  | url_upload_image _, POST => Some action_upload_image
  | _, _ => None
  end.

(** A request: the user the token stands for, if any, the method, the
    address and the body. *)
Record Request := mkRequest {
  req_user : option nat;
  req_method : Method;
  req_url : Url;
  req_data : Payload
}.

(** The nested list a body carries for a relation. *)
Definition p_items (k : AttrKind) (p : Payload) : option (list string) :=
  match k with
  | Tag => p_tags p
  | Ingredient => p_ingredients p
  end.

Definition attr_viewset (k : AttrKind) : ViewSet :=
  match k with
  | Tag => TagViewSet
  | Ingredient => IngredientViewSet
  end.

(** [generics.get_object]: look the key up in the view's own query set. *)
Definition get_object {A} (queryset : list (nat * A)) (pk : nat) : option A :=
  queryset_get pk queryset.

Definition render_attr (k : AttrKind) (db : DB) (aid : nat) : Body :=
  match attr_table k db !! aid with
  | Some a => body_attr k aid a
  | None => body_empty
  end.

(** ** What the sources leave open

    Three things neither the sources nor the specification settle, and on
    which no result below depends: which uploads decode as images, which
    fields a full write of a recipe, a tag or an ingredient must carry,
    and whether the detail serializer lists the image next to the other
    recipe fields. *)
Record Settings := mkSettings {
  is_image : string → bool;
  required : Field → bool;
  detail_image : bool
}.

(** Modelled from the spec: the field lists of [recipe/serializers.py],
    which is not among the sources.  The detail serializer accepts what
    the tests write through it; [RecipeSerializer] only renders lists. *)
Definition declared (cfg : Settings) (s : SerializerClass) (f : Field) : bool :=
  match s, f with
  | RecipeSerializer,
    (f_title | f_time_minutes | f_price | f_link | f_tags | f_ingredients) =>
      true
  | RecipeDetailSerializer,
    (f_title | f_time_minutes | f_price | f_link | f_tags | f_ingredients
     | f_description) => true
  | RecipeDetailSerializer, f_image => detail_image cfg
  | RecipeImageSerializer, f_image => true
  | TagSerializer, f_name => true
  | IngredientSerializer, f_name => true
  | _, _ => false
  end.

(** [serializer.data] for a recipe: the fields of the class, read from the
    row and its relations. *)
Definition recipe_data (cfg : Settings) (s : SerializerClass) (db : DB)
    (rid : nat) (r : Recipe) : RecipeData :=
  mkRecipeData rid
    (mask (declared cfg s f_title) (Some (title r)))
    (mask (declared cfg s f_time_minutes) (Some (time_minutes r)))
    (mask (declared cfg s f_price) (Some (price r)))
    (mask (declared cfg s f_description) (Some (description r)))
    (mask (declared cfg s f_link) (Some (link r)))
    (mask (declared cfg s f_image) (Some (image r)))
    (mask (declared cfg s f_tags) (Some (related Tag db rid)))
    (mask (declared cfg s f_ingredients) (Some (related Ingredient db rid))).

(** [serializer.data] of a recipe after a write. *)
Definition render_recipe (cfg : Settings) (s : SerializerClass) (db : DB)
    (rid : nat) : Body :=
  match core_recipe db !! rid with
  | Some r => body_recipe (recipe_data cfg s db rid r)
  | None => body_empty
  end.

(** The validated data: the declared fields of the body and nothing else. *)
Definition to_internal_value (cfg : Settings) (s : SerializerClass)
    (p : Payload) : Payload :=
  mkPayload None
    (mask (declared cfg s f_title) (p_title p))
    (mask (declared cfg s f_time_minutes) (p_time_minutes p))
    (mask (declared cfg s f_price) (p_price p))
    (mask (declared cfg s f_description) (p_description p))
    (mask (declared cfg s f_link) (p_link p))
    (mask (declared cfg s f_tags) (p_tags p))
    (mask (declared cfg s f_ingredients) (p_ingredients p))
    (mask (declared cfg s f_image) (p_image p))
    (mask (declared cfg s f_name) (p_name p)).

(** Modelled from the spec: the image serializer is there to take an
    upload, and a body without one is not a decodable image (sections 4.3
    and 7); its one field is required whatever the settings say. *)
Definition required_in (cfg : Settings) (s : SerializerClass) (f : Field)
    : bool :=
  match s, f with
  | RecipeImageSerializer, f_image => true
  | _, _ => required cfg f
  end.

(** [serializer.is_valid()]: a full write carries every required field of
    the class, and an image, where the class takes one, decodes. *)
Definition is_valid (cfg : Settings) (s : SerializerClass) (partial : bool)
    (p : Payload) : bool :=
  forallb (λ f, implb (declared cfg s f && required_in cfg s f && negb partial)
                      (present f p)) all_fields
  && match mask (declared cfg s f_image) (p_image p) with
     | Some img => is_image cfg img
     | None => true
     end.

(** Modelled from the spec: [RecipeSerializer.create].  The row is made
    from the validated data and the two nested lists are reconciled
    under the user of the request. *)
Definition RecipeSerializer_create (auth_user : nat) (vd : Payload)
    (db : DB) : option (DB * nat) :=
  match p_user vd with
  | None => None
  | Some owner =>
      let rid := next_id (core_recipe db) in
      let r := set_fields vd (mkRecipe owner "" 0 0 "" "" None) in
      let db1 := set_core_recipe (<[rid := r]> (core_recipe db)) db in
      let db2 := reconcile Tag auth_user rid (p_tags vd) db1 in
      let db3 := reconcile Ingredient auth_user rid (p_ingredients vd) db2 in
      Some (db3, rid)
  end.

(** Modelled from the spec: [RecipeSerializer.update]. *)
Definition RecipeSerializer_update (auth_user rid : nat) (instance : Recipe)
    (vd : Payload) (db : DB) : DB :=
  let db1 := reconcile Tag auth_user rid (p_tags vd) db in
  let db2 := reconcile Ingredient auth_user rid (p_ingredients vd) db1 in
  set_core_recipe (<[rid := set_fields vd instance]> (core_recipe db2)) db2.

(** [ModelSerializer.update]: set the validated fields, save the row. *)
Definition ModelSerializer_update (rid : nat) (instance : Recipe)
    (vd : Payload) (db : DB) : DB :=
  set_core_recipe (<[rid := set_fields vd instance]> (core_recipe db)) db.

(** Modelled from the spec: a name is unique per owner (section 3), and
    the storage engine enforces it (section 5).  [name_taken t aid a]:
    a row other than [aid] holds the owner and the name of [a]. *)
Definition name_taken (t : gmap nat Attr) (aid : nat) (a : Attr) : bool :=
  bool_decide (Exists (λ j, j ≠ aid) (matching t (attr_user a) (name a))).

(** [ModelSerializer.update] for a tag or an ingredient: set the validated
    fields, save the row; the save is refused, [None], where it would give
    the owner a second row of one name. *)
Definition ModelSerializer_update_attr (k : AttrKind) (aid : nat)
    (instance : Attr) (vd : Payload) (db : DB) : option DB :=
  let a := set_attr_fields vd instance in
  if name_taken (attr_table k db) aid a then None
  else Some (set_attr_table k (<[aid := a]> (attr_table k db)) db).

(** [serializer.save()] on an existing recipe, by serializer class. *)
Definition serializer_update (s : SerializerClass) (auth_user rid : nat)
    (instance : Recipe) (vd : Payload) (db : DB) : DB :=
  match s with
  | RecipeSerializer | RecipeDetailSerializer =>
      RecipeSerializer_update auth_user rid instance vd db
  | _ => ModelSerializer_update rid instance vd db
  end.

(** *** [RecipeViewSet] *)

Definition RecipeViewSet_get_queryset (db : DB) (request_user : nat)
    : list (nat * Recipe) :=
  order_by_neg_id
    (filter_user recipe_user request_user (objects_all (core_recipe db))).

Definition RecipeViewSet_get_serializer_class (action : Action)
    : SerializerClass :=
  if decide (action = action_list) then RecipeSerializer
  else if decide (action = action_upload_image) then RecipeImageSerializer
  else RecipeDetailSerializer.

Definition RecipeViewSet_perform_create (request_user : nat)
    (vd : Payload) (db : DB) : option (DB * nat) :=
  RecipeSerializer_create request_user (with_user request_user vd) db.

Definition RecipeViewSet_upload_image (cfg : Settings) (db : DB)
    (request_user pk : nat) (request_data : Payload) : DB * Response :=
  match get_object (RecipeViewSet_get_queryset db request_user) pk with
  | None => (db, not_found)
  | Some recipe =>
      let s := RecipeViewSet_get_serializer_class action_upload_image in
      if is_valid cfg s false request_data then
        let db' := serializer_update s request_user pk recipe
                     (to_internal_value cfg s request_data) db in
        (db', mkResponse HTTP_200_OK (render_recipe cfg s db' pk))
      else (db, bad_request)
  end.

(** The actions [ModelViewSet] inherits from the mixins. *)

Definition RecipeViewSet_list (cfg : Settings) (db : DB)
    (request_user : nat) : DB * Response :=
  let queryset := RecipeViewSet_get_queryset db request_user in
  let s := RecipeViewSet_get_serializer_class action_list in
  (db, mkResponse HTTP_200_OK
         (body_recipes ((λ ir, recipe_data cfg s db ir.1 ir.2) <$> queryset))).

Definition RecipeViewSet_retrieve (cfg : Settings) (db : DB)
    (request_user pk : nat) : DB * Response :=
  match get_object (RecipeViewSet_get_queryset db request_user) pk with
  | None => (db, not_found)
  | Some instance =>
      let s := RecipeViewSet_get_serializer_class action_retrieve in
      (db, mkResponse HTTP_200_OK
             (body_recipe (recipe_data cfg s db pk instance)))
  end.

Definition RecipeViewSet_create (cfg : Settings) (db : DB)
    (request_user : nat) (request_data : Payload) : DB * Response :=
  let s := RecipeViewSet_get_serializer_class action_create in
  if is_valid cfg s false request_data then
    match RecipeViewSet_perform_create request_user
            (to_internal_value cfg s request_data) db with
    | Some (db', rid) =>
        (db', mkResponse HTTP_201_CREATED (render_recipe cfg s db' rid))
    | None => (db, server_error)
    end
  else (db, bad_request).

Definition RecipeViewSet_update (cfg : Settings) (partial : bool) (db : DB)
    (request_user pk : nat) (request_data : Payload) : DB * Response :=
  match get_object (RecipeViewSet_get_queryset db request_user) pk with
  | None => (db, not_found)
  | Some instance =>
      let s := RecipeViewSet_get_serializer_class
                 (if partial then action_partial_update else action_update) in
      if is_valid cfg s partial request_data then
        let db' := serializer_update s request_user pk instance
                     (to_internal_value cfg s request_data) db in
        (db', mkResponse HTTP_200_OK (render_recipe cfg s db' pk))
      else (db, bad_request)
  end.

Definition RecipeViewSet_destroy (db : DB) (request_user pk : nat)
    : DB * Response :=
  match get_object (RecipeViewSet_get_queryset db request_user) pk with
  | None => (db, not_found)
  | Some _ => (recipe_delete pk db, mkResponse HTTP_204_NO_CONTENT body_empty)
  end.

(** *** [BaseRecipeAttributeViewSet], [TagViewSet], [IngredientViewSet] *)

Definition serializer_class (k : AttrKind) : SerializerClass :=
  match k with
  | Tag => TagSerializer
  | Ingredient => IngredientSerializer
  end.

Definition BaseRecipeAttributeViewSet_get_queryset (k : AttrKind) (db : DB)
    (request_user : nat) : list (nat * Attr) :=
  order_by_neg_name
    (filter_user attr_user request_user (objects_all (attr_table k db))).

Definition BaseRecipeAttributeViewSet_list (k : AttrKind) (db : DB)
    (request_user : nat) : DB * Response :=
  (db, mkResponse HTTP_200_OK
         (body_attrs k (BaseRecipeAttributeViewSet_get_queryset k db
                          request_user))).

Definition BaseRecipeAttributeViewSet_update (cfg : Settings) (k : AttrKind)
    (partial : bool) (db : DB) (request_user pk : nat)
    (request_data : Payload) : DB * Response :=
  match get_object (BaseRecipeAttributeViewSet_get_queryset k db request_user)
          pk with
  | None => (db, not_found)
  | Some instance =>
      let s := serializer_class k in
      if is_valid cfg s partial request_data then
        match ModelSerializer_update_attr k pk instance
                (to_internal_value cfg s request_data) db with
        | Some db' => (db', mkResponse HTTP_200_OK (render_attr k db' pk))
        | None => (db, conflict)
        end
      else (db, bad_request)
  end.

Definition BaseRecipeAttributeViewSet_destroy (k : AttrKind) (db : DB)
    (request_user pk : nat) : DB * Response :=
  match get_object (BaseRecipeAttributeViewSet_get_queryset k db request_user)
          pk with
  | None => (db, not_found)
  | Some _ => (attr_delete k pk db, mkResponse HTTP_204_NO_CONTENT body_empty)
  end.

(** *** Dispatch *)

Definition attr_handler (cfg : Settings) (k : AttrKind) (a : Action) (db : DB)
    (request_user pk : nat) (request_data : Payload) : DB * Response :=
  match a with
  | action_list => BaseRecipeAttributeViewSet_list k db request_user
  | action_update =>
      BaseRecipeAttributeViewSet_update cfg k false db request_user pk
        request_data
  | action_partial_update =>
      BaseRecipeAttributeViewSet_update cfg k true db request_user pk
        request_data
  | action_destroy => BaseRecipeAttributeViewSet_destroy k db request_user pk
  | _ => (db, method_not_allowed)
  end.

Definition handler (cfg : Settings) (v : ViewSet) (a : Action) (db : DB)
    (request_user pk : nat) (request_data : Payload) : DB * Response :=
  match v with
  | RecipeViewSet =>
      match a with
      | action_list => RecipeViewSet_list cfg db request_user
      | action_retrieve => RecipeViewSet_retrieve cfg db request_user pk
      | action_create => RecipeViewSet_create cfg db request_user request_data
      | action_update =>
          RecipeViewSet_update cfg false db request_user pk request_data
      | action_partial_update =>
          RecipeViewSet_update cfg true db request_user pk request_data
      | action_destroy => RecipeViewSet_destroy db request_user pk
      | action_upload_image =>
          RecipeViewSet_upload_image cfg db request_user pk request_data
      end
  | TagViewSet => attr_handler cfg Tag a db request_user pk request_data
  | IngredientViewSet =>
      attr_handler cfg Ingredient a db request_user pk request_data
  end.

(** A request is authenticated ([TokenAuthentication], [IsAuthenticated]),
    then routed to the action its method stands for, if the view set has
    it, and answered by that action. *)
Definition dispatch (cfg : Settings) (db : DB) (req : Request)
    : DB * Response :=
  match req_user req with
  | None => (db, not_authenticated)
  | Some request_user =>
      let v := url_viewset (req_url req) in
      match route (req_url req) (req_method req) with
      | Some a =>
          if has_action v a then
            handler cfg v a db request_user (url_pk (req_url req))
              (req_data req)
          else (db, method_not_allowed)
      | None => (db, method_not_allowed)
      end
  end.

(** ** Notions the results are stated with *)

(** [table_grows u N t t']: the table [t'] is [t] with rows added, each
    for owner [u], under a name in [N], and only where the pair had no row;
    and what a pair resolved to in [t] it resolves to in [t']. *)
Definition table_grows (u : nat) (N : string → Prop) (t t' : gmap nat Attr)
    : Prop :=
  t ⊆ t' ∧
  (∀ u' n' j, find_attr t u' n' = Some j → find_attr t' u' n' = Some j) ∧
  (∀ j a, t' !! j = Some a → t !! j = None →
          attr_user a = u ∧ N (name a) ∧
          find_attr t u (name a) = None ∧
          find_attr t' u (name a) = Some j).

(** The relation of kind [k] after a reconciliation: untouched without a
    list, replaced at the recipe with one. *)
Definition links_after (k : AttrKind) (u rid : nat)
    (items : option (list string)) (db db' : DB) : Prop :=
  match items with
  | None => attr_links k db' = attr_links k db
  | Some names =>
      ∃ s, attr_links k db' = <[rid := s]> (attr_links k db) ∧
           (∀ t, t ∈ s ↔
                 ∃ n, n ∈ names ∧ find_attr (attr_table k db') u n = Some t) ∧
           (∀ n, n ∈ names → is_Some (find_attr (attr_table k db') u n))
  end.

(** The names a body lists for a relation. *)
Definition listed (k : AttrKind) (p : Payload) (n : string) : Prop :=
  ∃ names, p_items k p = Some names ∧ n ∈ names.

(** [recipe_written u rid r vd db db']: what saving a recipe through a
    serializer comes to.  The row at [rid] is [r]; both attribute tables
    have grown by the rows the validated lists called for; each relation
    of the recipe is replaced where a list was given and kept where not. *)
Definition recipe_written (u rid : nat) (r : Recipe) (vd : Payload)
    (db db' : DB) : Prop :=
  core_recipe db' = <[rid := r]> (core_recipe db) ∧
  ∀ k, table_grows u (listed k vd) (attr_table k db) (attr_table k db') ∧
       links_after k u rid (p_items k vd) db db'.

(** Whether a method is served at an address: the router binds it to an
    action and the view set has that action. *)
Definition served (url : Url) (m : Method) : bool :=
  match route url m with
  | Some a => has_action (url_viewset url) a
  | None => false
  end.

(** The row a view set keeps under a key, and its owner. *)
Definition row_of (v : ViewSet) (db : DB) (pk : nat) : option (Recipe + Attr) :=
  match v with
  | RecipeViewSet => inl <$> core_recipe db !! pk
  | TagViewSet => inr <$> core_tag db !! pk
  | IngredientViewSet => inr <$> core_ingredient db !! pk
  end.

Definition row_owner (x : Recipe + Attr) : nat :=
  match x with
  | inl r => recipe_user r
  | inr a => attr_user a
  end.

Definition owner_of (v : ViewSet) (db : DB) (pk : nat) : option nat :=
  row_owner <$> row_of v db pk.

(** Addresses of one row, as opposed to a collection, and the same address
    with another key. *)
Definition is_detail (url : Url) : bool :=
  match url with
  | url_list _ => false
  | _ => true
  end.

Definition set_url_pk (pk : nat) (url : Url) : Url :=
  match url with
  | url_list v => url_list v
  | url_detail v _ => url_detail v pk
  | url_upload_image _ => url_upload_image pk
  end.

(** The empty database. *)
Definition empty_db : DB := mkDB ∅ ∅ ∅ ∅ ∅.

(** The keys of the rows of a view set that a response body shows, those
    nested in a recipe included. *)
Definition data_keys (v : ViewSet) (d : RecipeData) : gset nat :=
  match v with
  | RecipeViewSet => {[rd_id d]}
  | TagViewSet => default ∅ (rd_tags d)
  | IngredientViewSet => default ∅ (rd_ingredients d)
  end.

Definition body_keys (v : ViewSet) (b : Body) : gset nat :=
  match b with
  | body_recipe d => data_keys v d
  | body_recipes l => ⋃ (data_keys v <$> l)
  | body_attr k aid _ => if decide (v = attr_viewset k) then {[aid]} else ∅
  | body_attrs k l =>
      if decide (v = attr_viewset k) then list_to_set l.*1 else ∅
  | _ => ∅
  end.

(** Referential integrity of the join tables, as the storage engine keeps
    it, together with what the reconciler maintains: a recipe is related
    only to rows of its own owner. *)
Definition link_ok (k : AttrKind) (db : DB) (rid t : nat) : Prop :=
  match core_recipe db !! rid, attr_table k db !! t with
  | Some r, Some a => attr_user a = recipe_user r
  | _, _ => False
  end.

Global Instance link_ok_dec k db rid t : Decision (link_ok k db rid t).
Proof. unfold link_ok. repeat case_match; apply _. Defined.

Definition links_owned (db : DB) : Prop :=
  ∀ k, map_Forall (λ rid s, set_Forall (link_ok k db rid) s) (attr_links k db).

Global Instance links_owned_dec db : Decision (links_owned db).
Proof.
  refine (cast_if (decide (
    map_Forall (λ rid s, set_Forall (link_ok Tag db rid) s)
      (attr_links Tag db) ∧
    map_Forall (λ rid s, set_Forall (link_ok Ingredient db rid) s)
      (attr_links Ingredient db))));
    unfold links_owned.
  - intros []; tauto.
  - intros H. apply n. split; apply H.
Defined.

(** The uniqueness of names of section 3 of the specification: no two
    rows of a table hold the same owner and name. *)
Definition names_unique (db : DB) : Prop :=
  ∀ k i j a, attr_table k db !! i = Some a → attr_table k db !! j = Some a →
             i = j.

(** What one request of user [u] with method [m] and body [data] can do to
    the tables. *)
Inductive effect (u : nat) (m : Method) (data : Payload) (db db' : DB)
    : Prop :=
  | effect_none :
      db' = db → effect u m data db db'
  | effect_recipe_write rid r vd :
      recipe_written u rid r vd db db' →
      recipe_user r = u →
      (∀ r0, core_recipe db !! rid = Some r0 → recipe_user r0 = u) →
      (∀ k, p_items k vd = None ∨ p_items k vd = p_items k data) →
      m ≠ DELETE →
      effect u m data db db'
  | effect_recipe_delete rid r :
      core_recipe db !! rid = Some r → recipe_user r = u →
      db' = recipe_delete rid db → m = DELETE →
      effect u m data db db'
  | effect_attr_write k aid a a' :
      attr_table k db !! aid = Some a → attr_user a = u → attr_user a' = u →
      (∀ j, j ≠ aid → attr_table k db !! j ≠ Some a') →
      db' = set_attr_table k (<[aid := a']> (attr_table k db)) db →
      m ≠ DELETE →
      effect u m data db db'
  | effect_attr_delete k aid a :
      attr_table k db !! aid = Some a → attr_user a = u →
      db' = attr_delete k aid db → m = DELETE →
      effect u m data db db'.

(** A request body with its [user] key set, or removed. *)
Definition set_p_user (x : option nat) (p : Payload) : Payload :=
  mkPayload x (p_title p) (p_time_minutes p) (p_price p) (p_description p)
            (p_link p) (p_tags p) (p_ingredients p) (p_image p) (p_name p).

(** A recipe row with another image reference. *)
Definition with_image (i : option string) (r : Recipe) : Recipe :=
  mkRecipe (recipe_user r) (title r) (time_minutes r) (price r)
           (description r) (link r) i.

(** [writes_recipe db u m url rid]: the request creates the recipe that
    will get key [rid], or fully or partially updates the recipe [rid] of
    user [u]. *)
Definition writes_recipe (db : DB) (u : nat) (m : Method) (url : Url)
    (rid : nat) : Prop :=
  (m = POST ∧ url = url_list RecipeViewSet ∧
   rid = next_id (core_recipe db)) ∨
  ((m = PUT ∨ m = PATCH) ∧ url = url_detail RecipeViewSet rid ∧
   ∃ r, core_recipe db !! rid = Some r ∧ recipe_user r = u).

(** A list of names without its repetitions, first occurrences kept. *)
Fixpoint dedup (l : list string) : list string :=
  match l with
  | [] => []
  | x :: l' => x :: filter (λ y, y ≠ x) (dedup l')
  end.

Definition dedup_payload (p : Payload) : Payload :=
  mkPayload (p_user p) (p_title p) (p_time_minutes p) (p_price p)
            (p_description p) (p_link p) (dedup <$> p_tags p)
            (dedup <$> p_ingredients p) (p_image p) (p_name p).

Global Instance Url_eq_dec : EqDecision Url.
Proof. solve_decision. Defined.

(** The serializer a write is validated with, and whether the body passes:
    the class of the view set for the action, partial for [PATCH]. *)
Definition write_serializer (url : Url) : SerializerClass :=
  match url with
  | url_upload_image _ => RecipeImageSerializer
  | url_list RecipeViewSet | url_detail RecipeViewSet _ =>
      RecipeDetailSerializer
  | url_list TagViewSet | url_detail TagViewSet _ => TagSerializer
  | url_list IngredientViewSet | url_detail IngredientViewSet _ =>
      IngredientSerializer
  end.

Definition body_valid (cfg : Settings) (m : Method) (url : Url) (p : Payload)
    : bool :=
  is_valid cfg (write_serializer url) (bool_decide (m = PATCH)) p.

(** Whether the storage engine takes the write: at the address of a tag
    or an ingredient, the row the body would leave carries a name of which
    its owner has no other row.  Writes to recipes are always taken. *)
Definition attr_name_free (cfg : Settings) (k : AttrKind) (db : DB)
    (pk : nat) (p : Payload) : bool :=
  match attr_table k db !! pk with
  | Some a =>
      negb (name_taken (attr_table k db) pk
              (set_attr_fields (to_internal_value cfg (serializer_class k) p)
                 a))
  | None => true
  end.

Definition name_free (cfg : Settings) (db : DB) (url : Url) (p : Payload)
    : bool :=
  match url with
  | url_detail TagViewSet pk => attr_name_free cfg Tag db pk p
  | url_detail IngredientViewSet pk => attr_name_free cfg Ingredient db pk p
  | _ => true
  end.

(** The databases that requests lead to, starting from the empty one. *)
Inductive reachable (cfg : Settings) : DB → Prop :=
  | reachable_empty : reachable cfg empty_db
  | reachable_step db req :
      reachable cfg db → reachable cfg (dispatch cfg db req).1.

(** ** Sample data

    Two users, 1 and 2.  User 1 has a recipe related to the tags "Thai" and
    "Dinner" and to the ingredient "Prawn"; user 2 has a recipe with a tag
    "Thai" of their own.  This is the database that two creates leave,
    starting from the empty one. *)

Definition sample_settings : Settings :=
  mkSettings (String.prefix "JPEG")
             (λ f, bool_decide (f ∈ [f_title; f_time_minutes; f_price]))
             true.

Definition curry : Recipe :=
  mkRecipe 1 "Thai Prawn Curry" 10 250 "" "https://example.com/curry.pdf" None.

Definition soup : Recipe :=
  mkRecipe 2 "Tom Yum" 25 400 "" "https://example.com/soup.pdf" None.

Definition sample_db : DB :=
  mkDB (<[1 := curry]> (<[2 := soup]> ∅))
       (<[1 := mkAttr 1 "Thai"]>
          (<[2 := mkAttr 1 "Dinner"]> (<[3 := mkAttr 2 "Thai"]> ∅)))
       (<[1 := mkAttr 1 "Prawn"]> ∅)
       (<[1 := {[1; 2]}]> (<[2 := {[3]}]> ∅))
       (<[1 := {[1]}]> ∅).

Definition curry_payload : Payload :=
  mkPayload None (Some "Thai Prawn Curry") (Some 10) (Some 250%Z) None
            (Some "https://example.com/curry.pdf")
            (Some ["Thai"; "Dinner"]) (Some ["Prawn"]) None None.

Definition soup_payload : Payload :=
  mkPayload None (Some "Tom Yum") (Some 25) (Some 400%Z) None
            (Some "https://example.com/soup.pdf")
            (Some ["Thai"]) None None None.

(** Bodies of partial updates: a list of tags, here with a repetition; an
    owner and nothing else; a name; a title and nothing else; an upload
    that decodes and one that does not. *)
Definition tags_payload (names : list string) : Payload :=
  mkPayload None None None None None None (Some names) None None None.

Definition user_payload (u : nat) : Payload :=
  mkPayload (Some u) None None None None None None None None None.

Definition name_payload (n : string) : Payload :=
  mkPayload None None None None None None None None None (Some n).

Definition title_payload (t : string) : Payload :=
  mkPayload None (Some t) None None None None None None None None.

Definition image_payload (content : string) : Payload :=
  mkPayload None (Some "Another title") None None None None None None
            (Some content) None.

(** ** Facts about the ordinal comparison *)

Lemma ascii_compare_trans_lt a b c :
  Ascii.compare a b = Lt → Ascii.compare b c = Lt → Ascii.compare a c = Lt.
Proof.
  unfold Ascii.compare. rewrite !N.compare_lt_iff. lia.
Qed.

Lemma ascii_compare_refl a : Ascii.compare a a = Eq.
Proof. unfold Ascii.compare. apply N.compare_refl. Qed.

Lemma string_compare_refl s : String.compare s s = Eq.
Proof.
  induction s as [|a s IH]; simpl; [done|].
  by rewrite ascii_compare_refl.
Qed.

Lemma string_compare_trans_lt s1 s2 s3 :
  String.compare s1 s2 = Lt → String.compare s2 s3 = Lt →
  String.compare s1 s3 = Lt.
Proof.
  revert s2 s3. induction s1 as [|a s1 IH]; intros [|b s2] [|c s3]; simpl;
    try done.
  destruct (Ascii.compare a b) eqn:Hab; try done.
  - apply Ascii.compare_eq_iff in Hab as ->.
    destruct (Ascii.compare b c); try done. apply IH.
  - intros _. destruct (Ascii.compare b c) eqn:Hbc; try done.
    + apply Ascii.compare_eq_iff in Hbc as <-. by rewrite Hab.
    + by rewrite (ascii_compare_trans_lt a b c).
Qed.

Lemma name_le_alt s1 s2 : name_le s1 s2 ↔ s1 = s2 ∨ String.compare s1 s2 = Lt.
Proof.
  unfold name_le, String.leb. split.
  - destruct (String.compare s1 s2) eqn:H; try done; [|by right].
    left. by apply String.compare_eq_iff.
  - intros [->| ->]; [|done]. by rewrite string_compare_refl.
Qed.

Global Instance name_le_refl : Reflexive name_le.
Proof. intros s. apply name_le_alt. by left. Qed.

Global Instance name_le_trans : Transitive name_le.
Proof.
  intros s1 s2 s3. rewrite !name_le_alt.
  intros [->|H12] [->|H23]; eauto using string_compare_trans_lt.
Qed.

Global Instance name_le_total : Total name_le.
Proof. intros s1 s2. apply String.leb_total. Qed.

Global Instance name_le_antisym : AntiSymm (=) name_le.
Proof. intros s1 s2. apply String.leb_antisym. Qed.

(** ** Facts about query sets *)

Lemma queryset_get_Some {A} (qs : list (nat * A)) pk a :
  NoDup qs.*1 → queryset_get pk qs = Some a ↔ (pk, a) ∈ qs.
Proof.
  intros Hnd. unfold queryset_get. split.
  - intros H. apply fmap_Some in H as ([i [j b]] & Hf & ->).
    apply list_find_Some in Hf as (Hl & Hpk & _). simpl in *. subst j.
    eapply list_elem_of_lookup_2, Hl.
  - intros Hin. apply list_elem_of_lookup in Hin as [i Hi].
    destruct (list_find (λ ir : nat * A, ir.1 = pk) qs) as [[j [pk' b]]|] eqn:Hf.
    + apply list_find_Some in Hf as (Hl & Hpk & _). simpl in *. subst pk'.
      assert (i = j) as ->.
      { eapply NoDup_lookup; [exact Hnd| |]; rewrite list_lookup_fmap.
        - by rewrite Hi.
        - by rewrite Hl. }
      by simplify_eq.
    + apply list_find_None in Hf. rewrite Forall_forall in Hf.
      exfalso. eapply (Hf (pk, a)); [|done]. by eapply list_elem_of_lookup_2.
Qed.

Lemma elem_of_filter_user {A} (owner : A → nat) u (t : gmap nat A) i a :
  (i, a) ∈ filter_user owner u (objects_all t) ↔ t !! i = Some a ∧ owner a = u.
Proof.
  unfold filter_user, objects_all.
  rewrite list_elem_of_filter, elem_of_map_to_list. simpl. tauto.
Qed.

Lemma NoDup_filter_user {A} (owner : A → nat) u (t : gmap nat A) :
  NoDup (filter_user owner u (objects_all t)).*1.
Proof.
  unfold filter_user, objects_all.
  eapply sublist_NoDup; [apply (NoDup_fst_map_to_list t)|].
  apply fmap_sublist, sublist_filter.
Qed.

Lemma elem_of_recipe_queryset db u i r :
  (i, r) ∈ RecipeViewSet_get_queryset db u ↔
  core_recipe db !! i = Some r ∧ recipe_user r = u.
Proof.
  unfold RecipeViewSet_get_queryset, order_by_neg_id.
  rewrite merge_sort_Permutation. apply elem_of_filter_user.
Qed.

Lemma elem_of_attr_queryset k db u i a :
  (i, a) ∈ BaseRecipeAttributeViewSet_get_queryset k db u ↔
  attr_table k db !! i = Some a ∧ attr_user a = u.
Proof.
  unfold BaseRecipeAttributeViewSet_get_queryset, order_by_neg_name.
  rewrite merge_sort_Permutation. apply elem_of_filter_user.
Qed.

Lemma get_object_recipe db u pk r :
  get_object (RecipeViewSet_get_queryset db u) pk = Some r ↔
  core_recipe db !! pk = Some r ∧ recipe_user r = u.
Proof.
  unfold get_object. rewrite queryset_get_Some.
  - apply elem_of_recipe_queryset.
  - unfold RecipeViewSet_get_queryset, order_by_neg_id.
    rewrite merge_sort_Permutation. apply NoDup_filter_user.
Qed.

Lemma get_object_attr k db u pk a :
  get_object (BaseRecipeAttributeViewSet_get_queryset k db u) pk = Some a ↔
  attr_table k db !! pk = Some a ∧ attr_user a = u.
Proof.
  unfold get_object. rewrite queryset_get_Some.
  - apply elem_of_attr_queryset.
  - unfold BaseRecipeAttributeViewSet_get_queryset, order_by_neg_name.
    rewrite merge_sort_Permutation. apply NoDup_filter_user.
Qed.

(** A key that is absent, or whose row belongs to someone else, is not in
    the caller's query set: the two cases give the same [None]. *)
Lemma get_object_recipe_None db u pk :
  get_object (RecipeViewSet_get_queryset db u) pk = None ↔
  ∀ r, core_recipe db !! pk = Some r → recipe_user r ≠ u.
Proof.
  rewrite eq_None_not_Some. unfold is_Some. split.
  - intros Hn r Hr Hu. apply Hn. exists r. apply get_object_recipe. done.
  - intros Hn [r Hr]. apply get_object_recipe in Hr as [Hr Hu].
    by apply (Hn r).
Qed.

Lemma get_object_attr_None k db u pk :
  get_object (BaseRecipeAttributeViewSet_get_queryset k db u) pk = None ↔
  ∀ a, attr_table k db !! pk = Some a → attr_user a ≠ u.
Proof.
  rewrite eq_None_not_Some. unfold is_Some. split.
  - intros Hn a Ha Hu. apply Hn. exists a. apply get_object_attr. done.
  - intros Hn [a Ha]. apply get_object_attr in Ha as [Ha Hu].
    by apply (Hn a).
Qed.

(** ** Facts about keys and find-or-create *)

Lemma next_id_fresh {A} (t : gmap nat A) : t !! next_id t = None.
Proof.
  apply not_elem_of_dom. intros H.
  apply elem_of_elements, max_list_elem_of_le in H.
  unfold next_id in H. lia.
Qed.

Lemma elem_of_matching t u n i :
  i ∈ matching t u n ↔ t !! i = Some (mkAttr u n).
Proof.
  unfold matching. rewrite list_elem_of_fmap. split.
  - intros ([j a] & -> & H). apply list_elem_of_filter in H as [Ha H].
    simpl in *. subst a. by apply elem_of_map_to_list.
  - intros H. exists (i, mkAttr u n). split; [done|].
    apply list_elem_of_filter. split; [done|]. by apply elem_of_map_to_list.
Qed.

(** A name is taken when a row other than the one written holds it for
    the same owner. *)
Lemma name_taken_true t aid a :
  name_taken t aid a = true ↔ ∃ j, j ≠ aid ∧ t !! j = Some a.
Proof.
  unfold name_taken. rewrite bool_decide_eq_true, Exists_exists.
  destruct a as [u n]. simpl. split.
  - intros (j & Hj & Hne). exists j. split; [done|].
    by apply elem_of_matching.
  - intros (j & Hne & Hj). exists j. split; [|done].
    by apply elem_of_matching.
Qed.

Lemma name_taken_false t aid a :
  name_taken t aid a = false ↔ ∀ j, j ≠ aid → t !! j ≠ Some a.
Proof.
  rewrite <-not_true_iff_false, name_taken_true. split.
  - intros H j Hne Hj. apply H. by exists j.
  - intros H (j & Hne & Hj). by apply (H j).
Qed.

Lemma foldr_min_elem_of i l : foldr Nat.min i l ∈ i :: l.
Proof.
  induction l as [|x l IH]; simpl; [apply list_elem_of_here|].
  destruct (Nat.min_spec x (foldr Nat.min i l)) as [[_ ->]|[_ ->]].
  - apply list_elem_of_further, list_elem_of_here.
  - apply elem_of_cons in IH as [->|IH]; [apply list_elem_of_here|].
    by do 2 apply list_elem_of_further.
Qed.

Lemma foldr_min_le i l j : j ∈ i :: l → foldr Nat.min i l ≤ j.
Proof.
  induction l as [|x l IH]; simpl.
  - intros ->%list_elem_of_singleton. done.
  - rewrite !elem_of_cons. intros [->|[->|H]].
    + etrans; [apply Nat.le_min_r|]. apply IH. set_solver.
    + apply Nat.le_min_l.
    + etrans; [apply Nat.le_min_r|]. apply IH. set_solver.
Qed.

Lemma find_attr_Some t u n i :
  find_attr t u n = Some i ↔
  t !! i = Some (mkAttr u n) ∧ ∀ j, t !! j = Some (mkAttr u n) → i ≤ j.
Proof.
  unfold find_attr. destruct (matching t u n) as [|x l] eqn:Hm.
  - split; [done|]. intros [Hi _]. apply elem_of_matching in Hi.
    rewrite Hm in Hi. by apply elem_of_nil in Hi.
  - split.
    + intros [= <-]. split.
      * apply elem_of_matching. rewrite Hm. apply foldr_min_elem_of.
      * intros j Hj. apply foldr_min_le. rewrite <-Hm.
        by apply elem_of_matching.
    + intros [Hi Hle]. f_equal. apply Nat.le_antisymm.
      * apply foldr_min_le. rewrite <-Hm. by apply elem_of_matching.
      * apply Hle. apply elem_of_matching. rewrite Hm.
        apply foldr_min_elem_of.
Qed.

Lemma find_attr_None t u n :
  find_attr t u n = None ↔ ∀ j, t !! j ≠ Some (mkAttr u n).
Proof.
  unfold find_attr. destruct (matching t u n) as [|x l] eqn:Hm.
  - split; [|done]. intros _ j Hj. apply elem_of_matching in Hj.
    rewrite Hm in Hj. by apply elem_of_nil in Hj.
  - split; [done|]. intros H. exfalso. apply (H x).
    apply elem_of_matching. rewrite Hm. set_solver.
Qed.

(** A row that is there is found, whichever of its namesakes comes first. *)
Lemma find_attr_is_Some t u n j :
  t !! j = Some (mkAttr u n) → is_Some (find_attr t u n).
Proof.
  intros Hj. destruct (find_attr t u n) eqn:Hf; [by eexists|].
  rewrite find_attr_None in Hf. by destruct (Hf j).
Qed.

(** Rows added under other names, or for other owners, do not change what
    a pair resolves to. *)
Lemma find_attr_insert t u n i a :
  t !! i = None → a ≠ mkAttr u n →
  find_attr (<[i := a]> t) u n = find_attr t u n.
Proof.
  intros Hi Ha.
  assert (∀ j, <[i := a]> t !! j = Some (mkAttr u n) ↔
               t !! j = Some (mkAttr u n)) as Hiff.
  { intros j. destruct (decide (i = j)) as [->|Hne].
    - rewrite lookup_insert_eq, Hi. split; [congruence|done].
    - by rewrite lookup_insert_ne. }
  destruct (find_attr t u n) as [j|] eqn:Hf.
  - apply find_attr_Some in Hf as [Hj Hle]. apply find_attr_Some. split.
    + by apply Hiff.
    + intros j' Hj'. apply Hle. by apply Hiff.
  - rewrite find_attr_None in Hf. apply find_attr_None.
    intros j Hj. apply (Hf j). by apply Hiff.
Qed.

(** ** Facts about the tables *)

Lemma attr_table_set_attr_table k k' t db :
  attr_table k' (set_attr_table k t db) =
  if decide (k' = k) then t else attr_table k' db.
Proof. by destruct k, k'. Qed.

Lemma attr_links_set_attr_table k k' t db :
  attr_links k' (set_attr_table k t db) = attr_links k' db.
Proof. by destruct k, k'. Qed.

Lemma core_recipe_set_attr_table k t db :
  core_recipe (set_attr_table k t db) = core_recipe db.
Proof. by destruct k. Qed.

Lemma attr_table_set_attr_links k k' l db :
  attr_table k' (set_attr_links k l db) = attr_table k' db.
Proof. by destruct k, k'. Qed.

Lemma attr_links_set_attr_links k k' l db :
  attr_links k' (set_attr_links k l db) =
  if decide (k' = k) then l else attr_links k' db.
Proof. by destruct k, k'. Qed.

Lemma core_recipe_set_attr_links k l db :
  core_recipe (set_attr_links k l db) = core_recipe db.
Proof. by destruct k. Qed.

Lemma attr_table_set_core_recipe k t db :
  attr_table k (set_core_recipe t db) = attr_table k db.
Proof. by destruct k. Qed.

Lemma attr_links_set_core_recipe k t db :
  attr_links k (set_core_recipe t db) = attr_links k db.
Proof. by destruct k. Qed.

Lemma related_set_core_recipe k t db rid :
  related k (set_core_recipe t db) rid = related k db rid.
Proof. unfold related. by rewrite attr_links_set_core_recipe. Qed.

(** ** Facts about the reconciler *)

Lemma table_grows_refl u N t : table_grows u N t t.
Proof.
  do 2 (split; [done|]). intros j a Hj Hn. congruence.
Qed.

Lemma table_grows_trans u N t1 t2 t3 :
  table_grows u N t1 t2 → table_grows u N t2 t3 → table_grows u N t1 t3.
Proof.
  intros (Hs1 & Hf1 & Hn1) (Hs2 & Hf2 & Hn2).
  split; [by etrans|]. split; [by eauto|].
  intros j a Hj3 Hj1.
  destruct (t2 !! j) as [a'|] eqn:Hj2.
  - assert (a' = a) as ->.
    { eapply lookup_weaken in Hj2; [|exact Hs2]. congruence. }
    destruct (Hn1 j a Hj2 Hj1) as (? & ? & ? & ?). eauto.
  - destruct (Hn2 j a Hj3 Hj2) as (? & ? & Hnone & ?).
    repeat split; try done.
    destruct (find_attr t1 u (name a)) as [i|] eqn:Hf; [|done].
    apply Hf1 in Hf. congruence.
Qed.

Lemma table_grows_weaken u (N N' : string → Prop) t t' :
  (∀ n, N n → N' n) → table_grows u N t t' → table_grows u N' t t'.
Proof.
  intros HN (Hs & Hf & Hn).
  do 2 (split; [done|]). intros j a Hj Hnone.
  destruct (Hn j a Hj Hnone) as (? & ? & ? & ?). auto.
Qed.

Lemma get_or_create_frame k u n db db' i :
  get_or_create k u n db = (db', i) →
  core_recipe db' = core_recipe db ∧
  (∀ k', attr_links k' db' = attr_links k' db) ∧
  (∀ k', k' ≠ k → attr_table k' db' = attr_table k' db).
Proof.
  unfold get_or_create. destruct (find_attr _ _ _); intros [= <- <-]; [done|].
  split; [apply core_recipe_set_attr_table|].
  split; [intros k'; apply attr_links_set_attr_table|].
  intros k' Hk. rewrite attr_table_set_attr_table. by case_decide.
Qed.

Lemma get_or_create_grows k u n db db' i :
  get_or_create k u n db = (db', i) →
  table_grows u (λ n', n' = n) (attr_table k db) (attr_table k db') ∧
  find_attr (attr_table k db') u n = Some i.
Proof.
  unfold get_or_create.
  destruct (find_attr (attr_table k db) u n) as [j|] eqn:Hf.
  - intros [= <- <-]. split; [apply table_grows_refl|done].
  - intros [= <- <-]. set (t := attr_table k db) in *.
    pose proof (next_id_fresh t) as Hfresh.
    rewrite attr_table_set_attr_table. case_decide; [|done].
    assert (find_attr (<[next_id t := mkAttr u n]> t) u n = Some (next_id t))
      as Hnew.
    { apply find_attr_Some. split; [by rewrite lookup_insert_eq|].
      intros j Hj. destruct (decide (next_id t = j)) as [->|Hne]; [done|].
      rewrite lookup_insert_ne in Hj by done.
      rewrite find_attr_None in Hf. by destruct (Hf j). }
    split; [|done].
    split; [by apply insert_subseteq|]. split.
    + intros u' n' j Hj. rewrite find_attr_insert; [done..|].
      intros [= -> ->]. congruence.
    + intros j a Hj Hnone.
      destruct (decide (next_id t = j)) as [<-|Hne].
      * rewrite lookup_insert_eq in Hj. injection Hj as <-. done.
      * rewrite lookup_insert_ne in Hj by done. congruence.
Qed.

Lemma resolve_all_frame k u names db db' s :
  resolve_all k u names db = (db', s) →
  core_recipe db' = core_recipe db ∧
  (∀ k', attr_links k' db' = attr_links k' db) ∧
  (∀ k', k' ≠ k → attr_table k' db' = attr_table k' db).
Proof.
  revert db db' s. induction names as [|n names IH]; intros db db' s; simpl.
  - by intros [= <- <-].
  - destruct (get_or_create k u n db) as [db1 i] eqn:H1.
    destruct (resolve_all k u names db1) as [db2 s2] eqn:H2.
    intros [= <- <-].
    apply get_or_create_frame in H1 as (Hr1 & Hl1 & Ht1).
    apply IH in H2 as (Hr2 & Hl2 & Ht2).
    split; [congruence|]. split; [intros k'; by rewrite Hl2|].
    intros k' Hk. by rewrite Ht2, Ht1.
Qed.

(** What reconciling a list of names does to the table, and which rows it
    collects: exactly those the listed names resolve to afterwards. *)
Lemma resolve_all_spec k u names db db' s :
  resolve_all k u names db = (db', s) →
  table_grows u (λ n, n ∈ names) (attr_table k db) (attr_table k db') ∧
  (∀ t, t ∈ s ↔ ∃ n, n ∈ names ∧ find_attr (attr_table k db') u n = Some t) ∧
  (∀ n, n ∈ names → is_Some (find_attr (attr_table k db') u n)).
Proof.
  revert db db' s. induction names as [|n names IH]; intros db db' s; simpl.
  - intros [= <- <-]. split; [apply table_grows_refl|]. split.
    + intros t. split; [set_solver|]. intros (n & Hn & _).
      by apply elem_of_nil in Hn.
    + intros n Hn. by apply elem_of_nil in Hn.
  - destruct (get_or_create k u n db) as [db1 i] eqn:H1.
    destruct (resolve_all k u names db1) as [db2 s2] eqn:H2.
    intros [= <- <-].
    apply get_or_create_grows in H1 as [Hg1 Hi].
    apply IH in H2 as (Hg2 & Hs2 & Hall2).
    assert (find_attr (attr_table k db2) u n = Some i) as Hi2.
    { destruct Hg2 as (_ & Hstable & _). by apply Hstable. }
    split; [|split].
    + eapply table_grows_trans;
        (eapply table_grows_weaken; [|eassumption]); simpl.
      * intros n' ->. apply list_elem_of_here.
      * intros n'. apply list_elem_of_further.
    + intros t. rewrite elem_of_union, elem_of_singleton, Hs2. split.
      * intros [->|(n' & Hn' & Hf)].
        -- exists n. split; [apply list_elem_of_here|done].
        -- exists n'. split; [by apply list_elem_of_further|done].
      * intros (n' & Hn' & Hf). apply elem_of_cons in Hn' as [->|Hn'].
        -- left. congruence.
        -- right. eauto.
    + intros n' [->|Hn']%elem_of_cons; [by eexists|by apply Hall2].
Qed.

(** Reconciling an optional list grows the table by rows for its names. *)
Lemma reconcile_grows k u rid items db :
  table_grows u (λ n, ∃ names, items = Some names ∧ n ∈ names)
    (attr_table k db) (attr_table k (reconcile k u rid items db)).
Proof.
  destruct items as [names|]; simpl; [|apply table_grows_refl].
  destruct (resolve_all k u names db) as [db1 s] eqn:Hres.
  apply resolve_all_spec in Hres as (Hg & _ & _).
  rewrite attr_table_set_attr_links.
  eapply table_grows_weaken; [|exact Hg]. simpl. eauto.
Qed.

Lemma reconcile_frame k u rid items db :
  core_recipe (reconcile k u rid items db) = core_recipe db ∧
  (∀ k', k' ≠ k →
     attr_links k' (reconcile k u rid items db) = attr_links k' db) ∧
  (∀ k', k' ≠ k →
     attr_table k' (reconcile k u rid items db) = attr_table k' db).
Proof.
  destruct items as [names|]; simpl; [|done].
  destruct (resolve_all k u names db) as [db1 s] eqn:Hres.
  apply resolve_all_frame in Hres as (Hr & Hl & Ht).
  split; [by rewrite core_recipe_set_attr_links|]. split.
  - intros k' Hk. rewrite attr_links_set_attr_links. by case_decide.
  - intros k' Hk. rewrite attr_table_set_attr_links. by apply Ht.
Qed.

(** With a list, the relation of the recipe becomes the set of the rows
    the listed names resolve to; the relations of other recipes stay. *)
Lemma reconcile_links_Some k u rid names db :
  links_after k u rid (Some names) db (reconcile k u rid (Some names) db).
Proof.
  simpl. destruct (resolve_all k u names db) as [db1 s] eqn:Hres.
  pose proof Hres as (_ & Hl & _)%resolve_all_frame.
  apply resolve_all_spec in Hres as (_ & Hs & Hall).
  exists s. rewrite attr_links_set_attr_links, attr_table_set_attr_links.
  case_decide; [|done]. by rewrite Hl.
Qed.

Lemma reconcile_links k u rid items db :
  links_after k u rid items db (reconcile k u rid items db).
Proof.
  destruct items as [names|]; [|done]. apply reconcile_links_Some.
Qed.

Lemma links_after_eq k u rid items db db1 db2 :
  attr_links k db2 = attr_links k db1 → attr_table k db2 = attr_table k db1 →
  links_after k u rid items db db1 → links_after k u rid items db db2.
Proof.
  intros Hl Ht. unfold links_after. rewrite Hl, Ht. done.
Qed.

Lemma links_after_eq_l k u rid items db0 db db' :
  attr_links k db0 = attr_links k db →
  links_after k u rid items db db' → links_after k u rid items db0 db'.
Proof.
  intros Hl. unfold links_after. by rewrite Hl.
Qed.

Lemma reconcile_both_spec u rid vd db k :
  let db2 := reconcile Ingredient u rid (p_ingredients vd)
               (reconcile Tag u rid (p_tags vd) db) in
  core_recipe db2 = core_recipe db ∧
  table_grows u (listed k vd) (attr_table k db) (attr_table k db2) ∧
  links_after k u rid (p_items k vd) db db2.
Proof.
  set (db1 := reconcile Tag u rid (p_tags vd) db). intros db2.
  destruct (reconcile_frame Tag u rid (p_tags vd) db) as (Hr1 & Hl1 & Ht1).
  destruct (reconcile_frame Ingredient u rid (p_ingredients vd) db1)
    as (Hr2 & Hl2 & Ht2).
  fold db1 in Hr1, Hl1, Ht1. fold db2 in Hr2, Hl2, Ht2.
  split; [congruence|]. destruct k.
  - split.
    + rewrite (Ht2 Tag) by done. apply reconcile_grows.
    + eapply links_after_eq; [by apply Hl2|by apply Ht2|].
      apply reconcile_links.
  - split.
    + rewrite <-(Ht1 Ingredient) by done. apply reconcile_grows.
    + eapply links_after_eq_l; [symmetry; by apply Hl1|].
      apply reconcile_links.
Qed.

Lemma RecipeSerializer_update_written u rid instance vd db :
  recipe_written u rid (set_fields vd instance) vd db
    (RecipeSerializer_update u rid instance vd db).
Proof.
  unfold RecipeSerializer_update. split.
  - simpl. by destruct (reconcile_both_spec u rid vd db Tag) as (-> & _).
  - intros k. destruct (reconcile_both_spec u rid vd db k) as (_ & Hg & Hl).
    split.
    + by rewrite attr_table_set_core_recipe.
    + eapply links_after_eq; [| |exact Hl].
      * apply attr_links_set_core_recipe.
      * apply attr_table_set_core_recipe.
Qed.

Lemma ModelSerializer_update_written u rid instance vd db :
  (∀ k, p_items k vd = None) →
  recipe_written u rid (set_fields vd instance) vd db
    (ModelSerializer_update rid instance vd db).
Proof.
  intros Hnone. unfold ModelSerializer_update. split; [done|].
  intros k. rewrite attr_table_set_core_recipe. split.
  - apply table_grows_refl.
  - unfold links_after. rewrite Hnone. apply attr_links_set_core_recipe.
Qed.

Lemma RecipeSerializer_create_written u vd db db' rid :
  RecipeSerializer_create u vd db = Some (db', rid) →
  rid = next_id (core_recipe db) ∧
  ∃ owner, p_user vd = Some owner ∧
    recipe_written u rid (set_fields vd (mkRecipe owner "" 0 0 "" "" None))
      vd db db'.
Proof.
  unfold RecipeSerializer_create.
  destruct (p_user vd) as [owner|] eqn:Hu; [|done].
  intros [= <- <-]. split; [done|]. exists owner. split; [done|].
  set (rid := next_id (core_recipe db)).
  set (db1 := set_core_recipe _ db). split.
  - by destruct (reconcile_both_spec u rid vd db1 Tag) as (-> & _).
  - intros k. destruct (reconcile_both_spec u rid vd db1 k) as (_ & Hg & Hl).
    split.
    + unfold db1 in Hg. by rewrite attr_table_set_core_recipe in Hg.
    + eapply links_after_eq_l; [|exact Hl].
      unfold db1. by rewrite attr_links_set_core_recipe.
Qed.

(** ** Facts about the serializers *)

Lemma to_internal_value_user cfg s p : p_user (to_internal_value cfg s p) = None.
Proof. done. Qed.

Lemma to_internal_value_items cfg s k p :
  p_items k (to_internal_value cfg s p) =
  mask (declared cfg s (match k with Tag => f_tags | Ingredient => f_ingredients end))
       (p_items k p).
Proof. by destruct k. Qed.

Lemma to_internal_value_items_detail cfg k p :
  p_items k (to_internal_value cfg RecipeDetailSerializer p) = p_items k p.
Proof. by destruct k. Qed.

Lemma to_internal_value_items_image cfg k p :
  p_items k (to_internal_value cfg RecipeImageSerializer p) = None.
Proof. by destruct k. Qed.

Lemma serializer_update_written cfg s u rid instance data db :
  s = RecipeDetailSerializer ∨ s = RecipeImageSerializer →
  let vd := to_internal_value cfg s data in
  recipe_written u rid (set_fields vd instance) vd db
    (serializer_update s u rid instance vd db).
Proof.
  intros [-> | ->] vd; simpl.
  - apply RecipeSerializer_update_written.
  - apply ModelSerializer_update_written. intros k.
    apply to_internal_value_items_image.
Qed.

(** ** Facts about the views *)

Lemma get_object_recipe_eq db u pk :
  get_object (RecipeViewSet_get_queryset db u) pk =
  match core_recipe db !! pk with
  | Some r => if decide (recipe_user r = u) then Some r else None
  | None => None
  end.
Proof.
  destruct (core_recipe db !! pk) as [r|] eqn:Hr.
  - case_decide as Hu.
    + by apply get_object_recipe.
    + apply get_object_recipe_None. intros r'. congruence.
  - apply get_object_recipe_None. intros r'. congruence.
Qed.

Lemma get_object_attr_eq k db u pk :
  get_object (BaseRecipeAttributeViewSet_get_queryset k db u) pk =
  match attr_table k db !! pk with
  | Some a => if decide (attr_user a = u) then Some a else None
  | None => None
  end.
Proof.
  destruct (attr_table k db !! pk) as [a|] eqn:Ha.
  - case_decide as Hu.
    + by apply get_object_attr.
    + apply get_object_attr_None. intros a'. congruence.
  - apply get_object_attr_None. intros a'. congruence.
Qed.

(** The ways a write to a tag or an ingredient can end. *)
Lemma BaseRecipeAttributeViewSet_update_eq cfg k partial db u pk p :
  BaseRecipeAttributeViewSet_update cfg k partial db u pk p =
  match attr_table k db !! pk with
  | Some a =>
      if decide (attr_user a = u) then
        if is_valid cfg (serializer_class k) partial p then
          let a' := set_attr_fields
                      (to_internal_value cfg (serializer_class k) p) a in
          if name_taken (attr_table k db) pk a' then (db, conflict)
          else (set_attr_table k (<[pk := a']> (attr_table k db)) db,
                mkResponse HTTP_200_OK (body_attr k pk a'))
        else (db, bad_request)
      else (db, not_found)
  | None => (db, not_found)
  end.
Proof.
  unfold BaseRecipeAttributeViewSet_update. rewrite get_object_attr_eq.
  destruct (attr_table k db !! pk) as [a|]; [|done].
  case_decide; [|done]. destruct (is_valid _ _ _ _); [|done]. simpl.
  unfold ModelSerializer_update_attr.
  destruct (name_taken _ _ _); [done|].
  unfold render_attr.
  rewrite attr_table_set_attr_table. rewrite decide_True by done.
  by rewrite lookup_insert_eq.
Qed.

Lemma serializer_class_of_update (partial : bool) :
  RecipeViewSet_get_serializer_class
    (if partial then action_partial_update else action_update)
  = RecipeDetailSerializer.
Proof. by destruct partial. Qed.

(** The three ways a write to a recipe of the caller can end. *)
Lemma RecipeViewSet_update_outcome cfg partial db u pk data :
  let vd := to_internal_value cfg RecipeDetailSerializer data in
  match get_object (RecipeViewSet_get_queryset db u) pk with
  | None => RecipeViewSet_update cfg partial db u pk data = (db, not_found)
  | Some instance =>
      if is_valid cfg RecipeDetailSerializer partial data then
        ∃ db', RecipeViewSet_update cfg partial db u pk data
               = (db', mkResponse HTTP_200_OK
                         (render_recipe cfg RecipeDetailSerializer db' pk)) ∧
               recipe_written u pk (set_fields vd instance) vd db db'
      else RecipeViewSet_update cfg partial db u pk data = (db, bad_request)
  end.
Proof.
  intros vd. unfold RecipeViewSet_update.
  rewrite serializer_class_of_update.
  destruct (get_object _ pk) as [instance|]; [|done].
  destruct (is_valid _ _ _ _); [|done].
  eexists. split; [reflexivity|]. apply serializer_update_written. by left.
Qed.

Lemma RecipeViewSet_upload_image_outcome cfg db u pk data :
  let vd := to_internal_value cfg RecipeImageSerializer data in
  match get_object (RecipeViewSet_get_queryset db u) pk with
  | None => RecipeViewSet_upload_image cfg db u pk data = (db, not_found)
  | Some recipe =>
      if is_valid cfg RecipeImageSerializer false data then
        ∃ db', RecipeViewSet_upload_image cfg db u pk data
               = (db', mkResponse HTTP_200_OK
                         (render_recipe cfg RecipeImageSerializer db' pk)) ∧
               recipe_written u pk (set_fields vd recipe) vd db db'
      else RecipeViewSet_upload_image cfg db u pk data = (db, bad_request)
  end.
Proof.
  intros vd. unfold RecipeViewSet_upload_image.
  change (RecipeViewSet_get_serializer_class action_upload_image)
    with RecipeImageSerializer.
  destruct (get_object _ pk) as [recipe|]; [|done].
  destruct (is_valid _ _ _ _); [|done].
  eexists. split; [reflexivity|]. apply serializer_update_written. by right.
Qed.

Lemma RecipeViewSet_create_outcome cfg db u data :
  let vd := with_user u (to_internal_value cfg RecipeDetailSerializer data) in
  let rid := next_id (core_recipe db) in
  if is_valid cfg RecipeDetailSerializer false data then
    ∃ db', RecipeViewSet_create cfg db u data
           = (db', mkResponse HTTP_201_CREATED
                     (render_recipe cfg RecipeDetailSerializer db' rid)) ∧
           recipe_written u rid
             (set_fields vd (mkRecipe u "" 0 0 "" "" None)) vd db db'
  else RecipeViewSet_create cfg db u data = (db, bad_request).
Proof.
  intros vd rid. unfold RecipeViewSet_create.
  change (RecipeViewSet_get_serializer_class action_create)
    with RecipeDetailSerializer.
  destruct (is_valid _ _ _ _); [|done].
  unfold RecipeViewSet_perform_create. fold vd.
  destruct (RecipeSerializer_create u vd db) as [[db' rid']|] eqn:Hc.
  - apply RecipeSerializer_create_written in Hc as (-> & owner & Ho & Hw).
    simpl in Ho. injection Ho as <-. eauto.
  - unfold RecipeSerializer_create in Hc. done.
Qed.

(** ** Ordering of lists *)

Global Instance neg_id_le_trans {A} : Transitive (@neg_id_le A).
Proof. unfold neg_id_le. intros a b c. lia. Qed.

Global Instance neg_id_le_total {A} : Total (@neg_id_le A).
Proof. unfold neg_id_le. intros a b. lia. Qed.

Global Instance neg_name_le_trans : Transitive neg_name_le.
Proof. unfold neg_name_le. intros a b c H1 H2. by etrans. Qed.

Global Instance neg_name_le_total : Total neg_name_le.
Proof. unfold neg_name_le. intros a b. apply name_le_total. Qed.

(** Sorted by key with no key twice is strictly sorted by key. *)
Lemma StronglySorted_neg_id_strict {A} (l : list (nat * A)) :
  NoDup l.*1 → StronglySorted neg_id_le l →
  StronglySorted (λ a b, b.1 < a.1) l.
Proof.
  induction l as [|x l IH]; [constructor|].
  rewrite fmap_cons, NoDup_cons. intros [Hx Hnd] Hs.
  apply StronglySorted_inv in Hs as [Hs Hall].
  constructor; [by apply IH|].
  rewrite Forall_forall in Hall |- *. intros y Hy.
  specialize (Hall y Hy). unfold neg_id_le in Hall.
  assert (y.1 ≠ x.1); [|lia].
  intros Heq. apply Hx. rewrite <-Heq. by apply list_elem_of_fmap_2.
Qed.

Lemma recipe_queryset_sorted db u :
  StronglySorted (λ a b, b.1 < a.1) (RecipeViewSet_get_queryset db u).
Proof.
  apply StronglySorted_neg_id_strict.
  - unfold RecipeViewSet_get_queryset, order_by_neg_id.
    rewrite merge_sort_Permutation. apply NoDup_filter_user.
  - apply (StronglySorted_merge_sort _).
Qed.

Lemma attr_queryset_sorted k db u :
  StronglySorted neg_name_le (BaseRecipeAttributeViewSet_get_queryset k db u).
Proof. apply (StronglySorted_merge_sort _). Qed.

(** The comparison of names is by character code: every upper case letter
    comes before every lower case one. *)
Example name_le_case : name_le "Zucchini" "apple" ∧ ¬ name_le "apple" "Zucchini".
Proof. split; [reflexivity|]. intros H. discriminate H. Qed.

(** C9.  Every list answers with the caller's rows and no others, in a
    fixed order: recipes by strictly descending key; tags and ingredients
    by descending name, names compared character code by character code. *)
Theorem list_is_ordered cfg db u data :
  (∃ l, dispatch cfg db (mkRequest (Some u) GET (url_list RecipeViewSet) data)
        = (db, mkResponse HTTP_200_OK (body_recipes l)) ∧
        StronglySorted (λ d1 d2, rd_id d2 < rd_id d1) l ∧
        ∀ d, d ∈ l ↔ ∃ r, core_recipe db !! rd_id d = Some r ∧
                           recipe_user r = u ∧
                           d = recipe_data cfg RecipeSerializer db
                                 (rd_id d) r) ∧
  (∀ k, ∃ l,
        dispatch cfg db
          (mkRequest (Some u) GET (url_list (attr_viewset k)) data)
        = (db, mkResponse HTTP_200_OK (body_attrs k l)) ∧
        StronglySorted (λ a b, name_le (name b.2) (name a.2)) l ∧
        ∀ i a, (i, a) ∈ l ↔ attr_table k db !! i = Some a ∧ attr_user a = u).
Proof.
  split.
  - eexists. split; [reflexivity|]. split.
    + apply (StronglySorted_fmap
               (λ ir, recipe_data cfg RecipeSerializer db ir.1 ir.2)
               (λ a b : nat * Recipe, b.1 < a.1)
               (λ d1 d2, rd_id d2 < rd_id d1)); [done|].
      apply recipe_queryset_sorted.
    + intros d. rewrite list_elem_of_fmap. split.
      * intros ([i r] & -> & Hin). apply elem_of_recipe_queryset in Hin.
        simpl. exists r. tauto.
      * intros (r & Hr & Hu & Hd). exists (rd_id d, r). split; [done|].
        by apply elem_of_recipe_queryset.
  - intros k. exists (BaseRecipeAttributeViewSet_get_queryset k db u).
    split; [by destruct k|]. split.
    + apply attr_queryset_sorted.
    + intros i a. apply elem_of_attr_queryset.
Qed.

(** ** Dispatch *)

(** The routing table: what an authenticated request comes to. *)
Lemma dispatch_authenticated cfg db u m url data :
  dispatch cfg db (mkRequest (Some u) m url data) =
  match url, m with
  | url_list RecipeViewSet, GET => RecipeViewSet_list cfg db u
  | url_list RecipeViewSet, POST => RecipeViewSet_create cfg db u data
  | url_detail RecipeViewSet pk, GET => RecipeViewSet_retrieve cfg db u pk
  | url_detail RecipeViewSet pk, PUT =>
      RecipeViewSet_update cfg false db u pk data
  | url_detail RecipeViewSet pk, PATCH =>
      RecipeViewSet_update cfg true db u pk data
  | url_detail RecipeViewSet pk, DELETE => RecipeViewSet_destroy db u pk
  | url_upload_image pk, POST => RecipeViewSet_upload_image cfg db u pk data
  | url_list TagViewSet, GET => BaseRecipeAttributeViewSet_list Tag db u
  | url_detail TagViewSet pk, PUT =>
      BaseRecipeAttributeViewSet_update cfg Tag false db u pk data
  | url_detail TagViewSet pk, PATCH =>
      BaseRecipeAttributeViewSet_update cfg Tag true db u pk data
  | url_detail TagViewSet pk, DELETE =>
      BaseRecipeAttributeViewSet_destroy Tag db u pk
  | url_list IngredientViewSet, GET =>
      BaseRecipeAttributeViewSet_list Ingredient db u
  | url_detail IngredientViewSet pk, PUT =>
      BaseRecipeAttributeViewSet_update cfg Ingredient false db u pk data
  | url_detail IngredientViewSet pk, PATCH =>
      BaseRecipeAttributeViewSet_update cfg Ingredient true db u pk data
  | url_detail IngredientViewSet pk, DELETE =>
      BaseRecipeAttributeViewSet_destroy Ingredient db u pk
  | _, _ => (db, method_not_allowed)
  end.
Proof. destruct url as [[]|[] pk|pk], m; reflexivity. Qed.

Lemma dispatch_unserved cfg db u m url data :
  served url m = false →
  dispatch cfg db (mkRequest (Some u) m url data) = (db, method_not_allowed).
Proof.
  unfold dispatch, served. simpl. destruct (route url m); [|done].
  by intros ->.
Qed.

Lemma set_fields_user vd r :
  p_user vd = None → recipe_user (set_fields vd r) = recipe_user r.
Proof. unfold set_fields. simpl. by intros ->. Qed.

Lemma items_detail_or cfg s data k :
  p_items k (to_internal_value cfg s data) = None ∨
  p_items k (to_internal_value cfg s data) = p_items k data.
Proof.
  rewrite to_internal_value_items. destruct (declared _ _ _); simpl; auto.
Qed.

Lemma with_user_items u vd k : p_items k (with_user u vd) = p_items k vd.
Proof. by destruct k. Qed.

Lemma RecipeViewSet_update_effect cfg partial db u pk data m :
  m ≠ DELETE →
  effect u m data db (RecipeViewSet_update cfg partial db u pk data).1.
Proof.
  intros Hm.
  pose proof (RecipeViewSet_update_outcome cfg partial db u pk data) as H.
  simpl in H. rewrite get_object_recipe_eq in H.
  destruct (core_recipe db !! pk) as [inst|] eqn:Hpk;
    [|rewrite H; by apply effect_none].
  case_decide as Hu; [|rewrite H; by apply effect_none].
  destruct (is_valid _ _ _ _); [|rewrite H; by apply effect_none].
  destruct H as (db' & -> & Hw). simpl.
  eapply effect_recipe_write; [exact Hw| | | |done].
  - by rewrite set_fields_user.
  - intros r0. congruence.
  - intros k. apply items_detail_or.
Qed.

Lemma RecipeViewSet_upload_image_effect cfg db u pk data m :
  m ≠ DELETE →
  effect u m data db (RecipeViewSet_upload_image cfg db u pk data).1.
Proof.
  intros Hm.
  pose proof (RecipeViewSet_upload_image_outcome cfg db u pk data) as H.
  simpl in H. rewrite get_object_recipe_eq in H.
  destruct (core_recipe db !! pk) as [inst|] eqn:Hpk;
    [|rewrite H; by apply effect_none].
  case_decide as Hu; [|rewrite H; by apply effect_none].
  destruct (is_valid _ _ _ _); [|rewrite H; by apply effect_none].
  destruct H as (db' & -> & Hw). simpl.
  eapply effect_recipe_write; [exact Hw| | | |done].
  - by rewrite set_fields_user.
  - intros r0. congruence.
  - intros k. apply items_detail_or.
Qed.

Lemma RecipeViewSet_create_effect cfg db u data m :
  m ≠ DELETE → effect u m data db (RecipeViewSet_create cfg db u data).1.
Proof.
  intros Hm.
  pose proof (RecipeViewSet_create_outcome cfg db u data) as H.
  simpl in H.
  destruct (is_valid _ _ _ _); [|rewrite H; by apply effect_none].
  destruct H as (db' & -> & Hw). simpl.
  eapply effect_recipe_write; [exact Hw| | | |done].
  - done.
  - intros r0. by rewrite next_id_fresh.
  - intros k. rewrite with_user_items. apply items_detail_or.
Qed.

Lemma RecipeViewSet_destroy_effect db u pk data :
  effect u DELETE data db (RecipeViewSet_destroy db u pk).1.
Proof.
  unfold RecipeViewSet_destroy. rewrite get_object_recipe_eq.
  destruct (core_recipe db !! pk) as [inst|] eqn:Hpk; [|by apply effect_none].
  case_decide as Hu; [|by apply effect_none].
  by eapply effect_recipe_delete.
Qed.

Lemma BaseRecipeAttributeViewSet_update_effect cfg k partial db u pk data m :
  m ≠ DELETE →
  effect u m data db
    (BaseRecipeAttributeViewSet_update cfg k partial db u pk data).1.
Proof.
  intros Hm. unfold BaseRecipeAttributeViewSet_update.
  rewrite get_object_attr_eq.
  destruct (attr_table k db !! pk) as [a|] eqn:Hpk; [|by apply effect_none].
  case_decide as Hu; [|by apply effect_none].
  destruct (is_valid _ _ _ _); [|by apply effect_none].
  unfold ModelSerializer_update_attr.
  destruct (name_taken _ _ _) eqn:Hfree; [by apply effect_none|].
  eapply (effect_attr_write _ _ _ _ _ k pk a); [done..| | |reflexivity|done].
  - done.
  - by apply name_taken_false.
Qed.

Lemma BaseRecipeAttributeViewSet_destroy_effect k db u pk data :
  effect u DELETE data db (BaseRecipeAttributeViewSet_destroy k db u pk).1.
Proof.
  unfold BaseRecipeAttributeViewSet_destroy. rewrite get_object_attr_eq.
  destruct (attr_table k db !! pk) as [a|] eqn:Hpk; [|by apply effect_none].
  case_decide as Hu; [|by apply effect_none].
  by eapply effect_attr_delete.
Qed.

Lemma RecipeViewSet_retrieve_db cfg db u pk :
  (RecipeViewSet_retrieve cfg db u pk).1 = db.
Proof. unfold RecipeViewSet_retrieve. by destruct (get_object _ _). Qed.

(** Every request of an authenticated user has one of the five effects. *)
Lemma dispatch_effect cfg db u m url data :
  effect u m data db (dispatch cfg db (mkRequest (Some u) m url data)).1.
Proof.
  rewrite dispatch_authenticated.
  destruct url as [[]|[] pk|pk], m;
    first [ by apply effect_none
          | apply effect_none, RecipeViewSet_retrieve_db
          | by apply RecipeViewSet_create_effect
          | by apply RecipeViewSet_update_effect
          | by apply RecipeViewSet_upload_image_effect
          | apply RecipeViewSet_destroy_effect
          | by apply BaseRecipeAttributeViewSet_update_effect
          | apply BaseRecipeAttributeViewSet_destroy_effect ].
Qed.

Lemma dispatch_anonymous cfg db m url data :
  dispatch cfg db (mkRequest None m url data) = (db, not_authenticated).
Proof. done. Qed.

(** ** What the effects leave alone *)

Lemma attr_table_recipe_delete k rid db :
  attr_table k (recipe_delete rid db) = attr_table k db.
Proof. by destruct k. Qed.

Lemma attr_links_recipe_delete k rid db :
  attr_links k (recipe_delete rid db) = delete rid (attr_links k db).
Proof. by destruct k. Qed.

Lemma core_recipe_attr_delete k aid db :
  core_recipe (attr_delete k aid db) = core_recipe db.
Proof.
  unfold attr_delete.
  by rewrite core_recipe_set_attr_links, core_recipe_set_attr_table.
Qed.

Lemma attr_table_attr_delete k k' aid db :
  attr_table k' (attr_delete k aid db) =
  if decide (k' = k) then delete aid (attr_table k db) else attr_table k' db.
Proof.
  unfold attr_delete.
  by rewrite attr_table_set_attr_links, attr_table_set_attr_table.
Qed.

Lemma attr_links_attr_delete k k' aid db :
  attr_links k' (attr_delete k aid db) =
  if decide (k' = k)
  then (λ s : gset nat, s ∖ {[aid]}) <$> attr_links k db
  else attr_links k' db.
Proof.
  unfold attr_delete. rewrite attr_links_set_attr_links.
  case_decide; [done|]. apply attr_links_set_attr_table.
Qed.

(** Recipes of other users are out of reach of a request. *)
Lemma effect_foreign_recipe u m data db db' pk r :
  effect u m data db db' →
  core_recipe db !! pk = Some r → recipe_user r ≠ u →
  core_recipe db' !! pk = Some r.
Proof.
  intros [->|rid r1 vd [Hr _] _ Hown _ _|rid r1 Hrid Hu -> _
         |k aid a a' _ _ _ _ -> _|k aid a _ _ -> _] Hpk Hne.
  - done.
  - rewrite Hr, lookup_insert_ne; [done|].
    intros ->. by apply Hne, Hown.
  - simpl. rewrite lookup_delete_ne; [done|]. intros ->. congruence.
  - by rewrite core_recipe_set_attr_table.
  - by rewrite core_recipe_attr_delete.
Qed.

(** So are their tags and ingredients. *)
Lemma effect_foreign_attr u m data db db' k pk a :
  effect u m data db db' →
  attr_table k db !! pk = Some a → attr_user a ≠ u →
  attr_table k db' !! pk = Some a.
Proof.
  intros [->|rid r1 vd [_ Hk] _ _ _ _|rid r1 _ _ -> _
         |k0 aid a0 a' Haid Hu _ _ -> _|k0 aid a0 Haid Hu -> _] Hpk Hne.
  - done.
  - destruct (Hk k) as [(Hsub & _) _]. by eapply lookup_weaken.
  - by rewrite attr_table_recipe_delete.
  - rewrite attr_table_set_attr_table. case_decide as Hkk; [|done].
    subst k0. rewrite lookup_insert_ne; [done|]. intros ->. congruence.
  - rewrite attr_table_attr_delete. case_decide as Hkk; [|done].
    subst k0. rewrite lookup_delete_ne; [done|]. intros ->. congruence.
Qed.

(** The owner of a recipe does not change for as long as the row lives. *)
Lemma effect_owner_stable u m data db db' pk r r' :
  effect u m data db db' →
  core_recipe db !! pk = Some r → core_recipe db' !! pk = Some r' →
  recipe_user r' = recipe_user r.
Proof.
  intros [->|rid r1 vd [Hr _] Hu1 Hown _ _|rid r1 Hrid Hu -> _
         |k aid a a' _ _ _ _ -> _|k aid a _ _ -> _] Hpk Hpk'.
  - congruence.
  - rewrite Hr in Hpk'. destruct (decide (rid = pk)) as [->|Hne].
    + rewrite lookup_insert_eq in Hpk'. injection Hpk' as <-.
      by rewrite (Hown r Hpk).
    + rewrite lookup_insert_ne in Hpk' by done. congruence.
  - simpl in Hpk'. apply lookup_delete_Some in Hpk' as [_ Hpk'].
    congruence.
  - rewrite core_recipe_set_attr_table in Hpk'. congruence.
  - rewrite core_recipe_attr_delete in Hpk'. congruence.
Qed.

(** A tag or ingredient row appears only when a recipe is written with
    its name listed, and then under the caller. *)
Lemma effect_new_attr u m data db db' k j a :
  effect u m data db db' →
  attr_table k db' !! j = Some a → attr_table k db !! j = None →
  attr_user a = u ∧ listed k data (name a) ∧ m ≠ DELETE.
Proof.
  intros [->|rid r1 vd [_ Hk] _ _ Hitems Hm|rid r1 _ _ -> _
         |k0 aid a0 a' Haid Hu _ _ -> _|k0 aid a0 Haid Hu -> _] Hj Hnone.
  - congruence.
  - destruct (Hk k) as [(_ & _ & Hnew) _].
    destruct (Hnew j a Hj Hnone) as (Hu & (names & Hn & Hin) & _).
    split; [done|]. split; [|done]. exists names. split; [|done].
    destruct (Hitems k) as [Hi|Hi]; congruence.
  - rewrite attr_table_recipe_delete in Hj. congruence.
  - rewrite attr_table_set_attr_table in Hj. case_decide as Hkk;
      [|congruence].
    subst k0. destruct (decide (aid = j)) as [->|Hne]; [congruence|].
    rewrite lookup_insert_ne in Hj by done. congruence.
  - rewrite attr_table_attr_delete in Hj. case_decide as Hkk; [|congruence].
    apply lookup_delete_Some in Hj as [_ Hj]. congruence.
Qed.

(** Without a list for a relation, and short of a delete, the relation of
    every recipe is what it was. *)
Lemma effect_links_kept u m data db db' k :
  effect u m data db db' → m ≠ DELETE → p_items k data = None →
  attr_links k db' = attr_links k db.
Proof.
  intros [->|rid r1 vd [_ Hk] _ _ Hitems _|rid r1 _ _ _ ->
         |k0 aid a0 a' _ _ _ _ -> _|k0 aid a0 _ _ _ ->] Hm Hnone;
    try done.
  - destruct (Hk k) as [_ Hl]. unfold links_after in Hl.
    destruct (Hitems k) as [Hi|Hi]; rewrite Hi in Hl; [done|].
    by rewrite Hnone in Hl.
  - apply attr_links_set_attr_table.
Qed.

(** ** Integrity of the join tables *)

Lemma links_owned_alt db :
  links_owned db ↔
  ∀ k rid s t, attr_links k db !! rid = Some s → t ∈ s →
    ∃ r a, core_recipe db !! rid = Some r ∧ attr_table k db !! t = Some a ∧
           attr_user a = recipe_user r.
Proof.
  unfold links_owned, set_Forall, link_ok. split.
  - intros H k rid s t Hs Ht. specialize (H k rid s Hs t Ht).
    destruct (core_recipe db !! rid), (attr_table k db !! t); try done.
    eauto.
  - intros H k rid s Hs t Ht.
    by destruct (H k rid s t Hs Ht) as (r & a & -> & -> & ?).
Qed.

Lemma effect_links_owned u m data db db' :
  effect u m data db db' → links_owned db → links_owned db'.
Proof.
  rewrite !links_owned_alt.
  intros [->|rid r1 vd [Hr Hk] Hu1 Hown _ _|rid r1 Hrid Hu -> _
         |k0 aid a0 a' Haid Hu Hu' _ -> _|k0 aid a0 Haid Hu -> _] Hwf;
    [done|..]; intros k rid0 s t Hs Ht.
  - destruct (Hk k) as [(Hsub & _ & _) Hl].
    assert (∀ s0, attr_links k db !! rid0 = Some s0 → t ∈ s0 →
              ∃ r a, core_recipe db' !! rid0 = Some r ∧
                     attr_table k db' !! t = Some a ∧
                     attr_user a = recipe_user r) as Hold.
    { intros s0 Hs0 Ht0.
      destruct (Hwf k rid0 s0 t Hs0 Ht0) as (r & a & Hr0 & Ha & Hra).
      exists (if decide (rid = rid0) then r1 else r), a.
      split; [|split].
      - rewrite Hr. case_decide as Heq.
        + subst. by rewrite lookup_insert_eq.
        + by rewrite lookup_insert_ne.
      - by eapply lookup_weaken.
      - case_decide as Heq; [|done]. subst rid0.
        rewrite Hra, Hu1. by apply Hown. }
    unfold links_after in Hl. destruct (p_items k vd) as [names|].
    + destruct Hl as (s' & Hl & Hs' & _).
      rewrite Hl in Hs. destruct (decide (rid = rid0)) as [<-|Hne].
      * rewrite lookup_insert_eq in Hs. injection Hs as <-.
        apply Hs' in Ht as (n & _ & Hf).
        apply find_attr_Some in Hf as [Hf _].
        exists r1, (mkAttr u n). rewrite Hr, lookup_insert_eq. done.
      * rewrite lookup_insert_ne in Hs by done. by eapply Hold.
    + rewrite Hl in Hs. by eapply Hold.
  - rewrite attr_links_recipe_delete in Hs.
    apply lookup_delete_Some in Hs as [Hne Hs].
    destruct (Hwf k rid0 s t Hs Ht) as (r & a & Hr0 & Ha & Hra).
    exists r, a. rewrite attr_table_recipe_delete. simpl.
    by rewrite lookup_delete_ne.
  - rewrite attr_links_set_attr_table in Hs.
    destruct (Hwf k rid0 s t Hs Ht) as (r & a & Hr0 & Ha & Hra).
    rewrite core_recipe_set_attr_table, attr_table_set_attr_table.
    case_decide as Hkk; [|by eauto]. subst k0.
    destruct (decide (aid = t)) as [->|Hne].
    + exists r, a'. rewrite lookup_insert_eq. split; [done|].
      split; [done|]. congruence.
    + exists r, a. by rewrite lookup_insert_ne.
  - rewrite attr_links_attr_delete in Hs.
    rewrite core_recipe_attr_delete, attr_table_attr_delete.
    case_decide as Hkk; [|by eauto]. subst k0.
    rewrite lookup_fmap in Hs.
    destruct (attr_links k db !! rid0) as [s0|] eqn:Hs0; [|done].
    simpl in Hs. injection Hs as <-.
    apply elem_of_difference in Ht as [Ht Hne].
    destruct (Hwf k rid0 s0 t Hs0 Ht) as (r & a & Hr0 & Ha & Hra).
    exists r, a. rewrite lookup_delete_ne; [done|]. set_solver.
Qed.

(** The empty database is in order, and every request keeps it so. *)
Lemma links_owned_empty : links_owned empty_db.
Proof. intros k. destruct k; apply map_Forall_empty. Qed.

Lemma dispatch_links_owned cfg db req :
  links_owned db → links_owned (dispatch cfg db req).1.
Proof.
  destruct req as [[u|] m url data]; [|done].
  apply effect_links_owned with u m data, dispatch_effect.
Qed.

(** ** Isolation between users *)

Lemma owner_of_recipe db pk :
  owner_of RecipeViewSet db pk = recipe_user <$> core_recipe db !! pk.
Proof. unfold owner_of. simpl. by destruct (core_recipe db !! pk). Qed.

Lemma owner_of_attr k db pk :
  owner_of (attr_viewset k) db pk = attr_user <$> attr_table k db !! pk.
Proof.
  unfold owner_of. destruct k; simpl; by destruct (_ !! pk).
Qed.

(** A key that is not the caller's own, be it absent or someone else's,
    gets the one answer [not_found] from every served method on its
    address, and nothing is written. *)
Lemma addressed_not_found cfg db u m url data :
  is_detail url = true → served url m = true →
  owner_of (url_viewset url) db (url_pk url) ≠ Some u →
  dispatch cfg db (mkRequest (Some u) m url data) = (db, not_found).
Proof.
  intros Hd Hs Ho. rewrite dispatch_authenticated.
  destruct url as [v|[] pk|pk], m; try done; simpl in Ho;
    try rewrite owner_of_recipe in Ho;
    try rewrite (owner_of_attr Tag) in Ho;
    try rewrite (owner_of_attr Ingredient) in Ho;
    unfold RecipeViewSet_retrieve, RecipeViewSet_update,
      RecipeViewSet_destroy, RecipeViewSet_upload_image,
      BaseRecipeAttributeViewSet_update, BaseRecipeAttributeViewSet_destroy;
    rewrite ?get_object_recipe_eq, ?get_object_attr_eq;
    destruct (_ !! pk) as [x|]; try done;
    simpl in Ho; case_decide; try done; congruence.
Qed.

Lemma related_elem_of k db rid t :
  t ∈ related k db rid ↔ ∃ s, attr_links k db !! rid = Some s ∧ t ∈ s.
Proof.
  unfold related. destruct (attr_links k db !! rid) as [s|]; simpl.
  - split; [by eauto|]. by intros (s' & [= <-] & ?).
  - split; [set_solver|]. by intros (s' & ? & _).
Qed.

(** What a rendered recipe shows belongs to the owner of the recipe. *)
Lemma elem_of_default_mask (b : bool) (s : gset nat) i :
  i ∈ default ∅ (mask b (Some s)) → i ∈ s.
Proof. destruct b; simpl; [done|]. intros H. by apply elem_of_empty in H. Qed.

Lemma recipe_data_owned cfg sc db v rid r i :
  links_owned db → core_recipe db !! rid = Some r →
  i ∈ data_keys v (recipe_data cfg sc db rid r) →
  owner_of v db i = Some (recipe_user r).
Proof.
  rewrite links_owned_alt. intros Hwf Hr Hi. destruct v; simpl in Hi.
  - apply elem_of_singleton in Hi as ->. by rewrite owner_of_recipe, Hr.
  - apply elem_of_default_mask in Hi.
    apply related_elem_of in Hi as (s & Hs & Hi).
    destruct (Hwf Tag rid s i Hs Hi) as (r' & a & Hr' & Ha & Hra).
    rewrite (owner_of_attr Tag), Ha. simpl. congruence.
  - apply elem_of_default_mask in Hi.
    apply related_elem_of in Hi as (s & Hs & Hi).
    destruct (Hwf Ingredient rid s i Hs Hi) as (r' & a & Hr' & Ha & Hra).
    rewrite (owner_of_attr Ingredient), Ha. simpl. congruence.
Qed.

Lemma render_recipe_owned cfg sc db v rid r i :
  links_owned db → core_recipe db !! rid = Some r →
  i ∈ body_keys v (render_recipe cfg sc db rid) →
  owner_of v db i = Some (recipe_user r).
Proof.
  intros Hwf Hr. unfold render_recipe. rewrite Hr. simpl.
  by apply recipe_data_owned.
Qed.

Lemma written_body_owned cfg sc u rid r vd db db' v i :
  links_owned db' → recipe_written u rid r vd db db' →
  i ∈ body_keys v (render_recipe cfg sc db' rid) →
  owner_of v db' i = Some (recipe_user r).
Proof.
  intros Hwf [Hr _]. apply render_recipe_owned; [done|].
  by rewrite Hr, lookup_insert_eq.
Qed.

Lemma RecipeViewSet_list_owned cfg db u v i :
  links_owned db →
  i ∈ body_keys v (data (RecipeViewSet_list cfg db u).2) →
  owner_of v db i = Some u.
Proof.
  intros Hwf. simpl. rewrite elem_of_union_list.
  intros (X & HX & Hi). apply list_elem_of_fmap in HX as (d & -> & Hd).
  apply list_elem_of_fmap in Hd as ([rid r] & -> & Hin).
  apply elem_of_recipe_queryset in Hin as [Hr <-].
  by eapply recipe_data_owned.
Qed.

Lemma RecipeViewSet_retrieve_owned cfg db u pk v i :
  links_owned db →
  i ∈ body_keys v (data (RecipeViewSet_retrieve cfg db u pk).2) →
  owner_of v db i = Some u.
Proof.
  intros Hwf. unfold RecipeViewSet_retrieve.
  destruct (get_object _ pk) as [r|] eqn:Hr; simpl; [|set_solver].
  apply get_object_recipe in Hr as [Hr <-]. by apply recipe_data_owned.
Qed.

Lemma RecipeViewSet_update_owned cfg partial db u pk p v i :
  links_owned db →
  let res := RecipeViewSet_update cfg partial db u pk p in
  i ∈ body_keys v (data res.2) → owner_of v res.1 i = Some u.
Proof.
  intros Hwf.
  pose proof (RecipeViewSet_update_effect cfg partial db u pk p PUT) as He.
  apply effect_links_owned in He; [|done..].
  pose proof (RecipeViewSet_update_outcome cfg partial db u pk p) as H.
  simpl in H. destruct (get_object _ pk) as [inst|] eqn:Hinst;
    [|rewrite H; simpl; set_solver].
  destruct (is_valid _ _ _ _); [|rewrite H; simpl; set_solver].
  destruct H as (db' & Heq & Hw). rewrite Heq in *. simpl in *.
  apply get_object_recipe in Hinst as [_ <-]. intros Hi.
  rewrite (written_body_owned _ _ _ _ _ _ _ _ _ _ He Hw Hi).
  by rewrite set_fields_user.
Qed.

Lemma RecipeViewSet_upload_image_owned cfg db u pk p v i :
  links_owned db →
  let res := RecipeViewSet_upload_image cfg db u pk p in
  i ∈ body_keys v (data res.2) → owner_of v res.1 i = Some u.
Proof.
  intros Hwf.
  pose proof (RecipeViewSet_upload_image_effect cfg db u pk p POST) as He.
  apply effect_links_owned in He; [|done..].
  pose proof (RecipeViewSet_upload_image_outcome cfg db u pk p) as H.
  simpl in H. destruct (get_object _ pk) as [inst|] eqn:Hinst;
    [|rewrite H; simpl; set_solver].
  destruct (is_valid _ _ _ _); [|rewrite H; simpl; set_solver].
  destruct H as (db' & Heq & Hw). rewrite Heq in *. simpl in *.
  apply get_object_recipe in Hinst as [_ <-]. intros Hi.
  rewrite (written_body_owned _ _ _ _ _ _ _ _ _ _ He Hw Hi).
  by rewrite set_fields_user.
Qed.

Lemma RecipeViewSet_create_owned cfg db u p v i :
  links_owned db →
  let res := RecipeViewSet_create cfg db u p in
  i ∈ body_keys v (data res.2) → owner_of v res.1 i = Some u.
Proof.
  intros Hwf.
  pose proof (RecipeViewSet_create_effect cfg db u p POST) as He.
  apply effect_links_owned in He; [|done..].
  pose proof (RecipeViewSet_create_outcome cfg db u p) as H.
  simpl in H. destruct (is_valid _ _ _ _); [|rewrite H; simpl; set_solver].
  destruct H as (db' & Heq & Hw). rewrite Heq in *. simpl in *.
  intros Hi. by rewrite (written_body_owned _ _ _ _ _ _ _ _ _ _ He Hw Hi).
Qed.

Lemma RecipeViewSet_destroy_owned db u pk v i :
  i ∈ body_keys v (data (RecipeViewSet_destroy db u pk).2) → False.
Proof.
  unfold RecipeViewSet_destroy. destruct (get_object _ pk); simpl; set_solver.
Qed.

Lemma BaseRecipeAttributeViewSet_list_owned k db u v i :
  i ∈ body_keys v (data (BaseRecipeAttributeViewSet_list k db u).2) →
  owner_of v db i = Some u.
Proof.
  simpl. case_decide as Hv; [|set_solver]. subst v.
  rewrite elem_of_list_to_set, list_elem_of_fmap.
  intros ([j a] & -> & Hin). apply elem_of_attr_queryset in Hin as [Ha <-].
  simpl. by rewrite owner_of_attr, Ha.
Qed.

Lemma BaseRecipeAttributeViewSet_update_owned cfg k partial db u pk p v i :
  let res := BaseRecipeAttributeViewSet_update cfg k partial db u pk p in
  i ∈ body_keys v (data res.2) → owner_of v res.1 i = Some u.
Proof.
  rewrite BaseRecipeAttributeViewSet_update_eq.
  destruct (attr_table k db !! pk) as [a|] eqn:Ha; simpl; [|set_solver].
  case_decide as Hu; simpl; [|set_solver].
  destruct (is_valid _ _ _ _); simpl; [|set_solver].
  destruct (name_taken _ _ _); simpl; [set_solver|].
  case_decide as Hv; [|set_solver].
  subst v. intros ->%elem_of_singleton.
  rewrite owner_of_attr, attr_table_set_attr_table. case_decide; [|done].
  rewrite lookup_insert_eq. simpl. by rewrite Hu.
Qed.

Lemma BaseRecipeAttributeViewSet_destroy_owned k db u pk v i :
  i ∈ body_keys v (data (BaseRecipeAttributeViewSet_destroy k db u pk).2) →
  False.
Proof.
  unfold BaseRecipeAttributeViewSet_destroy.
  destruct (get_object _ pk); simpl; set_solver.
Qed.

(** Every row a response shows to a user is a row of that user. *)
Lemma dispatch_body_owned cfg db u m url p v i :
  links_owned db →
  let res := dispatch cfg db (mkRequest (Some u) m url p) in
  i ∈ body_keys v (data res.2) → owner_of v res.1 i = Some u.
Proof.
  intros Hwf. rewrite dispatch_authenticated.
  destruct url as [[]|[] pk|pk], m; cbv zeta;
    first [ by apply RecipeViewSet_list_owned
          | by apply RecipeViewSet_create_owned
          | by apply RecipeViewSet_update_owned
          | by apply RecipeViewSet_upload_image_owned
          | rewrite RecipeViewSet_retrieve_db;
            by apply RecipeViewSet_retrieve_owned
          | intros []%RecipeViewSet_destroy_owned
          | apply BaseRecipeAttributeViewSet_list_owned
          | apply BaseRecipeAttributeViewSet_update_owned
          | intros []%BaseRecipeAttributeViewSet_destroy_owned
          | simpl; set_solver ].
Qed.

(** No request of a user touches a row of another user. *)
Lemma dispatch_foreign_row cfg db u m url p v pk x :
  row_of v db pk = Some x → row_owner x ≠ u →
  row_of v (dispatch cfg db (mkRequest (Some u) m url p)).1 pk = Some x.
Proof.
  pose proof (dispatch_effect cfg db u m url p) as He.
  destruct v; simpl; intros Hx Hne;
    apply fmap_Some in Hx as (y & Hy & ->); simpl in Hne.
  - by rewrite (effect_foreign_recipe _ _ _ _ _ _ _ He Hy Hne).
  - pose proof (effect_foreign_attr _ _ _ _ _ Tag _ _ He Hy Hne) as H.
    simpl in H. by rewrite H.
  - pose proof (effect_foreign_attr _ _ _ _ _ Ingredient _ _ He Hy Hne) as H.
    simpl in H. by rewrite H.
Qed.

Lemma set_url_pk_facts pk url :
  is_detail url = true →
  is_detail (set_url_pk pk url) = true ∧
  url_viewset (set_url_pk pk url) = url_viewset url ∧
  url_pk (set_url_pk pk url) = pk ∧
  ∀ m, served (set_url_pk pk url) m = served url m.
Proof. by destruct url. Qed.

(** C1 (amended).  Let a row of a view set (a recipe, a tag, an
    ingredient) belong to user [u1], and let [u2] be another user.  No
    response to any request of [u2] shows the row, nested rows included,
    and no request of [u2] changes or removes it.  A request of [u2] on
    the address of the row is answered [404] with nothing written, by
    every method served there, exactly as it is answered for a key that
    has no row; a method not served there ([GET] on a tag or an
    ingredient, for one) is answered [405] for every key alike. *)
Theorem cross_owner_isolation cfg db u1 u2 v pk m url p :
  links_owned db → u1 ≠ u2 → owner_of v db pk = Some u1 →
  let res := dispatch cfg db (mkRequest (Some u2) m url p) in
  (pk ∉ body_keys v (data res.2)) ∧
  row_of v res.1 pk = row_of v db pk ∧
  (is_detail url = true → url_viewset url = v → url_pk url = pk →
   if served url m
   then res = (db, not_found) ∧
        ∀ pk', owner_of v db pk' = None →
               dispatch cfg db (mkRequest (Some u2) m (set_url_pk pk' url) p)
               = (db, not_found)
   else res = (db, method_not_allowed)).
Proof.
  intros Hwf Hne Ho res.
  assert (row_of v res.1 pk = row_of v db pk) as Hrow.
  { unfold owner_of in Ho. apply fmap_Some in Ho as (x & Hx & Hu).
    rewrite Hx. apply dispatch_foreign_row; [done|congruence]. }
  split; [|split; [done|]].
  - intros Hin. apply (dispatch_body_owned cfg db u2 m url p v pk Hwf) in Hin.
    fold res in Hin. unfold owner_of in Hin, Ho. rewrite Hrow in Hin.
    congruence.
  - intros Hd Hv Hpk. destruct (served url m) eqn:Hs.
    + split.
      * apply addressed_not_found; [done..|]. rewrite Hv, Hpk. congruence.
      * intros pk' Hnone.
        destruct (set_url_pk_facts pk' url Hd) as (Hd' & Hv' & Hpk' & Hs').
        apply addressed_not_found; [done|by rewrite Hs'|].
        rewrite Hv', Hpk', Hv. congruence.
    + by apply dispatch_unserved.
Qed.

(** ** Ownership of recipes *)

Lemma to_internal_value_set_p_user cfg s x p :
  to_internal_value cfg s (set_p_user x p) = to_internal_value cfg s p.
Proof. done. Qed.

Lemma is_valid_set_p_user cfg s partial x p :
  is_valid cfg s partial (set_p_user x p) = is_valid cfg s partial p.
Proof.
  reflexivity.
Qed.

(** No view reads the [user] key of the body. *)
Lemma dispatch_set_p_user cfg db ou m url x p :
  dispatch cfg db (mkRequest ou m url (set_p_user x p))
  = dispatch cfg db (mkRequest ou m url p).
Proof.
  destruct ou as [u|]; [|done]. rewrite !dispatch_authenticated.
  destruct url as [[]|[] pk|pk], m; try done;
    unfold RecipeViewSet_create, RecipeViewSet_update,
      RecipeViewSet_upload_image, BaseRecipeAttributeViewSet_update;
    by rewrite ?is_valid_set_p_user, ?to_internal_value_set_p_user.
Qed.

(** A recipe row appears only under the user who asked for it. *)
Lemma effect_new_recipe u m p db db' pk r :
  effect u m p db db' →
  core_recipe db !! pk = None → core_recipe db' !! pk = Some r →
  recipe_user r = u.
Proof.
  intros [->|rid r1 vd [Hr _] Hu1 _ _ _|rid r1 _ _ -> _
         |k aid a a' _ _ _ _ -> _|k aid a _ _ -> _] Hpk Hpk'.
  - congruence.
  - rewrite Hr in Hpk'. destruct (decide (rid = pk)) as [->|Hne].
    + rewrite lookup_insert_eq in Hpk'. congruence.
    + rewrite lookup_insert_ne in Hpk' by done. congruence.
  - simpl in Hpk'. apply lookup_delete_Some in Hpk' as [_ Hpk'].
    congruence.
  - rewrite core_recipe_set_attr_table in Hpk'. congruence.
  - rewrite core_recipe_attr_delete in Hpk'. congruence.
Qed.

(** C3.  The owner of a recipe is the user who created it, and stays so.
    Whatever the request: its answer and its effect are the same with any
    [user] key in the body as without one, so an owner sent by the client
    is dropped and is no error; a valid create by [u] answers [201] and
    the new row belongs to [u]; a recipe row that was not there before
    belongs to the caller; and a row that was there has the owner it had. *)
Theorem recipe_owner_is_fixed cfg db ou m url p :
  let res := dispatch cfg db (mkRequest ou m url p) in
  (∀ x, dispatch cfg db (mkRequest ou m url (set_p_user x p)) = res) ∧
  (∀ u, ou = Some u → m = POST → url = url_list RecipeViewSet →
        is_valid cfg RecipeDetailSerializer false p = true →
        status_code res.2 = HTTP_201_CREATED ∧
        ∃ r, core_recipe res.1 !! next_id (core_recipe db) = Some r ∧
             recipe_user r = u) ∧
  (∀ pk r, core_recipe db !! pk = None → core_recipe res.1 !! pk = Some r →
           ou = Some (recipe_user r)) ∧
  (∀ pk r r', core_recipe db !! pk = Some r →
              core_recipe res.1 !! pk = Some r' →
              recipe_user r' = recipe_user r).
Proof.
  intros res. split; [|split; [|split]].
  - intros x. apply dispatch_set_p_user.
  - intros u -> -> -> Hv. unfold res. rewrite dispatch_authenticated.
    pose proof (RecipeViewSet_create_outcome cfg db u p) as H. simpl in H.
    rewrite Hv in H. destruct H as (db' & -> & [Hr _]). simpl.
    split; [done|]. eexists. rewrite Hr, lookup_insert_eq. done.
  - intros pk r Hnone Hsome. destruct ou as [u|]; [|simpl in *; congruence].
    f_equal. symmetry.
    eapply effect_new_recipe; [apply dispatch_effect|done..].
  - intros pk r r' Hpk Hpk'. destruct ou as [u|]; [|simpl in *; congruence].
    eapply effect_owner_stable; [apply dispatch_effect|done..].
Qed.

(** ** Omitted relations *)

(** C6.  A body without the [tags] key (or without the [ingredients] key)
    leaves that relation of every recipe as it was, whatever else the
    request creates or updates; only a delete removes relations. *)
Theorem omitted_relation_is_kept cfg db ou m url p k :
  m ≠ DELETE → p_items k p = None →
  ∀ rid, related k (dispatch cfg db (mkRequest ou m url p)).1 rid
         = related k db rid.
Proof.
  intros Hm Hnone rid. destruct ou as [u|]; [|done].
  unfold related. erewrite effect_links_kept; [done| |done..].
  apply dispatch_effect.
Qed.

(** ** Image upload *)

Lemma is_valid_image cfg p :
  is_valid cfg RecipeImageSerializer false p =
  match p_image p with
  | Some img => is_image cfg img
  | None => false
  end.
Proof. unfold is_valid. simpl. by destruct (p_image p). Qed.

Lemma set_fields_image cfg p r :
  set_fields (to_internal_value cfg RecipeImageSerializer p) r =
  match p_image p with
  | Some img => with_image (Some img) r
  | None => r
  end.
Proof. destruct r; simpl. unfold set_fields, with_image. simpl. by destruct (p_image p). Qed.

(** An upload to a recipe of the caller: the row gets the image and
    nothing else is written; the answer shows the key and the image, the
    two fields of the image serializer. *)
Lemma RecipeViewSet_upload_image_eq cfg db u pk r p :
  core_recipe db !! pk = Some r → recipe_user r = u →
  RecipeViewSet_upload_image cfg db u pk p =
  match p_image p with
  | Some img =>
      if is_image cfg img then
        (set_core_recipe
           (<[pk := with_image (Some img) r]> (core_recipe db)) db,
         mkResponse HTTP_200_OK
           (body_recipe
              (mkRecipeData pk None None None None None (Some (Some img))
                            None None)))
      else (db, bad_request)
  | None => (db, bad_request)
  end.
Proof.
  intros Hr Hu. unfold RecipeViewSet_upload_image.
  rewrite get_object_recipe_eq, Hr. rewrite decide_True by done.
  change (RecipeViewSet_get_serializer_class action_upload_image)
    with RecipeImageSerializer.
  rewrite is_valid_image.
  destruct (p_image p) as [img|] eqn:Himg; [|done].
  destruct (is_image cfg img); [|done]. simpl.
  unfold ModelSerializer_update. rewrite set_fields_image, Himg.
  unfold render_recipe. simpl. by rewrite lookup_insert_eq.
Qed.

(** C7.  An upload to a recipe of the caller is answered [200] with the
    updated recipe, as the image serializer shows it (its key and its new
    image), when the payload decodes as an image, the recipe now
    referring to it; it is answered [400] when the payload does not
    decode, or when the body carries no image at all, and then nothing is
    written: the recipe, its earlier image included, is what it was. *)
Theorem upload_image_validates cfg db u pk r p :
  core_recipe db !! pk = Some r → recipe_user r = u →
  let res := dispatch cfg db (mkRequest (Some u) POST (url_upload_image pk) p) in
  match p_image p with
  | Some img =>
      if is_image cfg img
      then status_code res.2 = HTTP_200_OK ∧
           core_recipe res.1 !! pk = Some (with_image (Some img) r) ∧
           data res.2 = body_recipe
                          (mkRecipeData pk None None None None None
                                        (Some (Some img)) None None)
      else res = (db, bad_request) ∧
           status_code res.2 = HTTP_400_BAD_REQUEST ∧
           core_recipe res.1 !! pk = Some r
  | None => res = (db, bad_request) ∧
            status_code res.2 = HTTP_400_BAD_REQUEST ∧
            core_recipe res.1 !! pk = Some r
  end.
Proof.
  intros Hr Hu res. unfold res. rewrite dispatch_authenticated.
  rewrite (RecipeViewSet_upload_image_eq cfg db u pk r p Hr Hu).
  destruct (p_image p) as [img|]; [|done].
  destruct (is_image cfg img); simpl.
  - by rewrite lookup_insert_eq.
  - done.
Qed.

(** C10.  An upload that is answered [200] writes the image reference of
    the recipe and nothing else: title, time, price, description, link and
    owner of the row are what they were, whatever the body carried under
    those keys; so are the relations of the recipe and all other rows. *)
Theorem upload_image_writes_image_only cfg db u pk r p :
  core_recipe db !! pk = Some r → recipe_user r = u →
  let res := dispatch cfg db (mkRequest (Some u) POST (url_upload_image pk) p) in
  status_code res.2 = HTTP_200_OK →
  ∃ r', core_recipe res.1 = <[pk := r']> (core_recipe db) ∧
        r' = with_image (image r') r ∧
        recipe_user r' = recipe_user r ∧ title r' = title r ∧
        time_minutes r' = time_minutes r ∧ price r' = price r ∧
        description r' = description r ∧ link r' = link r ∧
        ∀ k, attr_table k res.1 = attr_table k db ∧
             attr_links k res.1 = attr_links k db ∧
             ∀ rid, related k res.1 rid = related k db rid.
Proof.
  intros Hr Hu res. unfold res. rewrite dispatch_authenticated.
  rewrite (RecipeViewSet_upload_image_eq cfg db u pk r p Hr Hu).
  destruct (p_image p) as [img|]; [|done].
  destruct (is_image cfg img); [|done]. simpl. intros _.
  eexists. split; [done|].
  split; [by destruct r|].
  do 6 (split; [done|]).
  intros k. rewrite attr_table_set_core_recipe, attr_links_set_core_recipe.
  do 2 (split; [done|]). intros rid. apply related_set_core_recipe.
Qed.

(** ** Reconciliation through the recipe views *)

(** A valid create or update of a recipe comes to the row being written,
    with the lists of the body reconciled. *)
Lemma writes_recipe_outcome cfg db u m url rid p :
  writes_recipe db u m url rid →
  is_valid cfg RecipeDetailSerializer (bool_decide (m = PATCH)) p = true →
  ∃ db' r vd,
    dispatch cfg db (mkRequest (Some u) m url p) =
      (db', mkResponse (if decide (m = POST) then HTTP_201_CREATED
                        else HTTP_200_OK)
                       (render_recipe cfg RecipeDetailSerializer db' rid)) ∧
    recipe_written u rid r vd db db' ∧
    recipe_user r = u ∧
    ∀ k, p_items k vd = p_items k p.
Proof.
  intros [(-> & -> & ->)|(Hm & -> & r & Hr & Hu)] Hv;
    rewrite dispatch_authenticated.
  - pose proof (RecipeViewSet_create_outcome cfg db u p) as H. simpl in H.
    simpl in Hv. rewrite Hv in H. destruct H as (db' & -> & Hw).
    eexists _, _, _. split; [done|]. split; [exact Hw|]. split; [done|].
    intros k. rewrite with_user_items. apply to_internal_value_items_detail.
  - assert (∃ partial : bool,
              bool_decide (m = PATCH) = partial ∧
              (if decide (m = POST) then HTTP_201_CREATED else HTTP_200_OK)
              = HTTP_200_OK ∧
              match m with
              | GET => RecipeViewSet_retrieve cfg db u rid
              | POST => (db, method_not_allowed)
              | PUT => RecipeViewSet_update cfg false db u rid p
              | PATCH => RecipeViewSet_update cfg true db u rid p
              | DELETE => RecipeViewSet_destroy db u rid
              end = RecipeViewSet_update cfg partial db u rid p)
      as (partial & Hp & -> & ->).
    { destruct Hm as [-> | ->]; eauto. }
    rewrite Hp in Hv.
    pose proof (RecipeViewSet_update_outcome cfg partial db u rid p) as H.
    simpl in H. rewrite get_object_recipe_eq, Hr in H.
    rewrite decide_True in H by done. rewrite Hv in H.
    destruct H as (db' & -> & Hw).
    eexists _, _, _. split; [done|]. split; [exact Hw|].
    split; [by rewrite set_fields_user|].
    intros k. apply to_internal_value_items_detail.
Qed.

(** C2.  When the body of a valid create or update of a recipe carries a
    list for a relation, the relation of the recipe is afterwards exactly
    the set of the rows the listed names resolve to under the caller:
    every listed name has a row of the caller in the relation, and every
    row in the relation is a row of the caller under a listed name.  A
    row related before and not among them is no longer related.  No row
    of the table is removed or changed.  An empty list leaves the recipe
    with no related row. *)
Theorem nested_list_replaces_relation cfg db u m url rid p k names :
  writes_recipe db u m url rid →
  is_valid cfg RecipeDetailSerializer (bool_decide (m = PATCH)) p = true →
  p_items k p = Some names →
  let db' := (dispatch cfg db (mkRequest (Some u) m url p)).1 in
  (∀ t, t ∈ related k db' rid ↔
        ∃ n, n ∈ names ∧ find_attr (attr_table k db') u n = Some t) ∧
  (∀ t, t ∈ related k db rid →
        (∀ n, n ∈ names → find_attr (attr_table k db') u n ≠ Some t) →
        t ∉ related k db' rid) ∧
  (∀ k', attr_table k' db ⊆ attr_table k' db') ∧
  (names = [] → related k db' rid = ∅) ∧
  (∀ n, n ∈ names →
        ∃ t, t ∈ related k db' rid ∧
             attr_table k db' !! t = Some (mkAttr u n)) ∧
  (∀ t, t ∈ related k db' rid →
        ∃ n, n ∈ names ∧ attr_table k db' !! t = Some (mkAttr u n)).
Proof.
  intros Hw Hv Hitems db'.
  destruct (writes_recipe_outcome cfg db u m url rid p Hw Hv)
    as (db1 & r & vd & Heq & [_ Hk] & _ & Hvd).
  unfold db'. rewrite Heq. simpl. clear db' Heq.
  assert ((∀ t, t ∈ related k db1 rid ↔
                ∃ n, n ∈ names ∧ find_attr (attr_table k db1) u n = Some t) ∧
          ∀ n, n ∈ names → is_Some (find_attr (attr_table k db1) u n))
    as [Hrel Hall].
  { destruct (Hk k) as [_ Hl]. unfold links_after in Hl.
    rewrite Hvd, Hitems in Hl. destruct Hl as (s & Hl & Hs & Hall).
    split; [|done].
    intros t. unfold related. rewrite Hl, lookup_insert_eq. apply Hs. }
  split; [done|]. split; [|split; [|split; [|split]]].
  - intros t _ Hno Hin. apply Hrel in Hin as (n & Hn & Hf).
    by apply (Hno n).
  - intros k'. by destruct (Hk k') as [(Hsub & _) _].
  - intros ->. apply set_eq. intros t. rewrite Hrel. split.
    + intros (n & Hn & _). by apply elem_of_nil in Hn.
    + set_solver.
  - intros n Hn. destruct (Hall n Hn) as [t Ht]. exists t. split.
    + apply Hrel. by exists n.
    + by apply find_attr_Some in Ht as [? _].
  - intros t Ht. apply Hrel in Ht as (n & Hn & Hf). exists n.
    split; [done|]. by apply find_attr_Some in Hf as [? _].
Qed.

(** C4.  In the reconciliation of a listed name [n], under the caller [u]:
    the recipe ends up related to a row of [u] called [n]; if [u] had such
    a row, a row that was already there is the one related and no further
    row for [(u, n)] is made; if [u] had none, exactly one is made; and a
    row of another owner, of the same name or not, is neither related to
    the recipe nor touched. *)
Theorem find_or_create_is_scoped cfg db u m url rid p k names n :
  writes_recipe db u m url rid →
  is_valid cfg RecipeDetailSerializer (bool_decide (m = PATCH)) p = true →
  p_items k p = Some names → n ∈ names →
  let db' := (dispatch cfg db (mkRequest (Some u) m url p)).1 in
  (∃ t, t ∈ related k db' rid ∧
        attr_table k db' !! t = Some (mkAttr u n)) ∧
  (∀ j, attr_table k db !! j = Some (mkAttr u n) →
        (∃ t, t ∈ related k db' rid ∧
              attr_table k db !! t = Some (mkAttr u n)) ∧
        ∀ j', attr_table k db' !! j' = Some (mkAttr u n) →
              attr_table k db !! j' = Some (mkAttr u n)) ∧
  ((∀ j, attr_table k db !! j ≠ Some (mkAttr u n)) →
        ∃ t, t ∈ related k db' rid ∧
             ∀ j, attr_table k db' !! j = Some (mkAttr u n) ↔ j = t) ∧
  (∀ j a, attr_table k db !! j = Some a → attr_user a ≠ u →
          (j ∉ related k db' rid) ∧ attr_table k db' !! j = Some a).
Proof.
  intros Hw Hv Hitems Hn db'.
  destruct (writes_recipe_outcome cfg db u m url rid p Hw Hv)
    as (db1 & r & vd & Heq & [_ Hk] & _ & Hvd).
  unfold db'. rewrite Heq. simpl. clear db' Heq.
  destruct (Hk k) as [(Hsub & Hstab & Hnew) Hl]. unfold links_after in Hl.
  rewrite Hvd, Hitems in Hl. destruct Hl as (s & Hl & Hs & Hall).
  assert (related k db1 rid = s) as ->.
  { unfold related. by rewrite Hl, lookup_insert_eq. }
  destruct (Hall n Hn) as [t Ht].
  assert (t ∈ s) as Hts by (apply Hs; eauto).
  pose proof Ht as [Hrow Hleast]%find_attr_Some.
  split; [by eauto|]. split; [|split].
  - intros j Hj. destruct (find_attr_is_Some _ _ _ _ Hj) as [i Hi].
    pose proof (Hstab _ _ _ Hi) as Hi1.
    assert (i = t) as -> by congruence.
    apply find_attr_Some in Hi as [Hi _]. split; [by eauto|].
    intros j' Hj'. destruct (attr_table k db !! j') as [a'|] eqn:Hold.
    + eapply lookup_weaken in Hold; [|exact Hsub]. congruence.
    + destruct (Hnew j' _ Hj' Hold) as (_ & _ & Hnone & _).
      simpl in Hnone. rewrite find_attr_None in Hnone. by destruct (Hnone t).
  - intros Hnone. exists t. split; [done|]. intros j. split.
    + intros Hj. destruct (attr_table k db !! j) as [a'|] eqn:Hold.
      * exfalso. apply (Hnone j).
        eapply lookup_weaken in Hold as Hold'; [|exact Hsub]. congruence.
      * destruct (Hnew j _ Hj Hold) as (_ & _ & _ & Hf). simpl in Hf.
        congruence.
    + by intros ->.
  - intros j a Hj Hne. eapply lookup_weaken in Hj as Hj'; [|exact Hsub].
    split; [|done]. intros (n' & _ & Hf)%Hs.
    apply find_attr_Some in Hf as [Hf _]. rewrite Hj' in Hf.
    injection Hf as ->. by apply Hne.
Qed.

(** ** Repeated names *)

Lemma elem_of_dedup l n : n ∈ dedup l ↔ n ∈ l.
Proof.
  induction l as [|x l IH]; simpl; [done|].
  rewrite !elem_of_cons, list_elem_of_filter, IH.
  destruct (decide (n = x)); tauto.
Qed.

Lemma NoDup_dedup l : NoDup (dedup l).
Proof.
  induction l as [|x l IH]; simpl; [constructor|].
  apply NoDup_cons. split.
  - rewrite list_elem_of_filter. intros [Hx _]. by apply Hx.
  - by apply NoDup_filter.
Qed.

(** Once a name has its row, resolving it again changes nothing. *)
Lemma get_or_create_found k u n db i :
  find_attr (attr_table k db) u n = Some i → get_or_create k u n db = (db, i).
Proof. unfold get_or_create. by intros ->. Qed.

Lemma resolve_all_absorb k u x i l db db' s :
  find_attr (attr_table k db) u x = Some i →
  resolve_all k u l db = (db', s) →
  ∃ s', resolve_all k u (filter (λ y, y ≠ x) l) db = (db', s') ∧
        {[i]} ∪ s' = {[i]} ∪ s.
Proof.
  revert db db' s. induction l as [|y l IH]; intros db db' s Hx; simpl.
  - intros [= <- <-]. by exists ∅.
  - destruct (get_or_create k u y db) as [db1 j] eqn:H1.
    destruct (resolve_all k u l db1) as [db2 s2] eqn:H2.
    intros [= <- <-]. destruct (decide (y = x)) as [->|Hne].
    + rewrite get_or_create_found with (i := i) in H1 by done.
      injection H1 as <- <-.
      rewrite filter_cons_False by naive_solver.
      destruct (IH _ _ _ Hx H2) as (s' & Hs' & Heq).
      exists s'. split; [done|].
      by rewrite Heq, (assoc_L (∪)), (idemp_L (∪)).
    + rewrite filter_cons_True by done. simpl. rewrite H1.
      pose proof H1 as [(_ & Hstab & _) _]%get_or_create_grows.
      destruct (IH _ _ _ (Hstab _ _ _ Hx) H2) as (s' & Hs' & Heq).
      rewrite Hs'. exists ({[j]} ∪ s'). split; [done|].
      rewrite !(assoc_L (∪)), (comm_L (∪) {[i]} {[j]}), <-!(assoc_L (∪)).
      by rewrite Heq.
Qed.

Lemma resolve_all_dedup k u l db :
  resolve_all k u (dedup l) db = resolve_all k u l db.
Proof.
  revert db. induction l as [|x l IH]; intros db; simpl; [done|].
  destruct (get_or_create k u x db) as [db1 i] eqn:H1.
  destruct (resolve_all k u l db1) as [db2 s2] eqn:H2.
  pose proof H1 as [_ Hi]%get_or_create_grows.
  rewrite <-IH in H2.
  destruct (resolve_all_absorb _ _ _ _ _ _ _ _ Hi H2) as (s' & -> & Heq).
  by rewrite Heq.
Qed.

Lemma reconcile_dedup k u rid items db :
  reconcile k u rid (dedup <$> items) db = reconcile k u rid items db.
Proof.
  destruct items as [l|]; simpl; [|done]. by rewrite resolve_all_dedup.
Qed.

Lemma is_valid_dedup_payload cfg s partial p :
  is_valid cfg s partial (dedup_payload p) = is_valid cfg s partial p.
Proof.
  unfold is_valid. simpl. by destruct (p_tags p), (p_ingredients p).
Qed.

Lemma mask_fmap {A B} (f : A → B) b o : mask b (f <$> o) = f <$> mask b o.
Proof. by destruct b. Qed.

Lemma to_internal_value_dedup_payload cfg s p :
  to_internal_value cfg s (dedup_payload p)
  = dedup_payload (to_internal_value cfg s p).
Proof.
  unfold to_internal_value, dedup_payload. simpl. by rewrite !mask_fmap.
Qed.

Lemma serializer_update_dedup s u rid instance vd db :
  serializer_update s u rid instance (dedup_payload vd) db
  = serializer_update s u rid instance vd db.
Proof.
  destruct s; simpl; try done;
    unfold RecipeSerializer_update; simpl; by rewrite !reconcile_dedup.
Qed.

Lemma RecipeSerializer_create_dedup u vd db :
  RecipeSerializer_create u (dedup_payload vd) db
  = RecipeSerializer_create u vd db.
Proof.
  unfold RecipeSerializer_create. simpl. destruct (p_user vd); [|done].
  by rewrite !reconcile_dedup.
Qed.

(** A body and the same body with the repetitions struck from its lists
    are treated alike. *)
Lemma dispatch_dedup_payload cfg db ou m url p :
  dispatch cfg db (mkRequest ou m url (dedup_payload p))
  = dispatch cfg db (mkRequest ou m url p).
Proof.
  destruct ou as [u|]; [|done]. rewrite !dispatch_authenticated.
  destruct url as [[]|[] pk|pk], m; try done;
    unfold RecipeViewSet_create, RecipeViewSet_update,
      RecipeViewSet_upload_image, BaseRecipeAttributeViewSet_update,
      RecipeViewSet_perform_create;
    rewrite ?is_valid_dedup_payload, ?to_internal_value_dedup_payload;
    try done.
  - change (with_user u (dedup_payload ?vd))
      with (dedup_payload (with_user u vd)).
    by rewrite RecipeSerializer_create_dedup.
  - destruct (get_object _ pk); [|done].
    by rewrite serializer_update_dedup.
  - destruct (get_object _ pk); [|done].
    by rewrite serializer_update_dedup.
Qed.

(** The rows a list of names resolves to are as many as the names are
    different. *)
Lemma size_resolved (f : string → option nat) (l : list string) (s : gset nat) :
  (∀ n, n ∈ l → is_Some (f n)) →
  (∀ n1 n2 t, f n1 = Some t → f n2 = Some t → n1 = n2) →
  (∀ t, t ∈ s ↔ ∃ n, n ∈ l ∧ f n = Some t) →
  size s = length (dedup l).
Proof.
  intros Hall Hinj Hs.
  assert (s = list_to_set ((λ n, default 0 (f n)) <$> dedup l)) as ->.
  { apply set_eq. intros t.
    rewrite Hs, elem_of_list_to_set, list_elem_of_fmap. split.
    - intros (n & Hn & Hf). exists n. rewrite Hf.
      split; [done|by rewrite elem_of_dedup].
    - intros (n & -> & Hn). rewrite elem_of_dedup in Hn.
      exists n. split; [done|].
      by destruct (Hall n Hn) as [t ->]. }
  rewrite size_list_to_set, length_fmap; [done|].
  apply NoDup_fmap_2_strong; [|apply NoDup_dedup].
  intros n1 n2 Hn1 Hn2 Heq.
  rewrite elem_of_dedup in Hn1. rewrite elem_of_dedup in Hn2.
  destruct (Hall n1 Hn1) as [t1 H1], (Hall n2 Hn2) as [t2 H2].
  rewrite H1, H2 in Heq. simpl in Heq. subst t2. by eapply Hinj.
Qed.

(** C5.  Names repeated in a submitted list count once.  The request is
    treated exactly as the request whose lists have the repetitions
    struck; the recipe ends up related to as many rows as the list has
    different names, one row of the caller per name; and the list
    [n; n] leaves it related to exactly one row, a row of the caller
    called [n]. *)
Theorem duplicate_names_are_merged cfg db u m url rid p k names :
  writes_recipe db u m url rid →
  is_valid cfg RecipeDetailSerializer (bool_decide (m = PATCH)) p = true →
  p_items k p = Some names →
  let db' := (dispatch cfg db (mkRequest (Some u) m url p)).1 in
  dispatch cfg db (mkRequest (Some u) m url (dedup_payload p))
  = dispatch cfg db (mkRequest (Some u) m url p) ∧
  NoDup (dedup names) ∧ (∀ n, n ∈ dedup names ↔ n ∈ names) ∧
  size (related k db' rid) = length (dedup names) ∧
  (∀ n, n ∈ names ↔
        ∃ t, t ∈ related k db' rid ∧
             attr_table k db' !! t = Some (mkAttr u n)) ∧
  (∀ n, names = [n; n] →
        ∃ t, related k db' rid = {[t]} ∧
             attr_table k db' !! t = Some (mkAttr u n)).
Proof.
  intros Hw Hv Hitems db'.
  split; [apply dispatch_dedup_payload|].
  split; [apply NoDup_dedup|]. split; [apply elem_of_dedup|].
  destruct (writes_recipe_outcome cfg db u m url rid p Hw Hv)
    as (db1 & r & vd & Heq & [_ Hk] & _ & Hvd).
  unfold db'. rewrite Heq. simpl. clear db' Heq.
  destruct (Hk k) as [_ Hl]. unfold links_after in Hl.
  rewrite Hvd, Hitems in Hl. destruct Hl as (s & Hl & Hs & Hall).
  assert (related k db1 rid = s) as ->.
  { unfold related. by rewrite Hl, lookup_insert_eq. }
  assert (∀ n t, find_attr (attr_table k db1) u n = Some t →
                 attr_table k db1 !! t = Some (mkAttr u n)) as Hrow.
  { intros n t Hf. by apply find_attr_Some in Hf as [? _]. }
  split; [|split].
  - apply (size_resolved (find_attr (attr_table k db1) u)); [done| |done].
    intros n1 n2 t H1%Hrow H2%Hrow. congruence.
  - intros n. split.
    + intros Hn. destruct (Hall n Hn) as [t Ht]. exists t.
      split; [apply Hs; by eauto|by apply Hrow].
    + intros (t & (n' & Hn' & Hf)%Hs & Ht). apply Hrow in Hf. congruence.
  - intros n ->. destruct (Hall n) as [t Ht]; [apply list_elem_of_here|].
    exists t. split; [|by apply Hrow].
    apply set_eq. intros t'. rewrite Hs, elem_of_singleton. split.
    + intros (n' & Hn' & Hf).
      assert (n' = n) as ->; [|congruence].
      apply elem_of_cons in Hn' as [->|Hn']; [done|].
      by apply list_elem_of_singleton in Hn'.
    + intros ->. exists n. split; [apply list_elem_of_here|done].
Qed.

(** ** The tag and ingredient views *)

Lemma attr_update_no_new_row cfg k k' partial db u pk p j :
  attr_table k' db !! j = None →
  attr_table k'
    (BaseRecipeAttributeViewSet_update cfg k partial db u pk p).1 !! j = None.
Proof.
  intros Hj. rewrite BaseRecipeAttributeViewSet_update_eq.
  destruct (attr_table k db !! pk) as [a|] eqn:Hpk; [|done].
  case_decide; [|done]. destruct (is_valid _ _ _ _); [|done]. simpl.
  destruct (name_taken _ _ _); [done|]. simpl.
  rewrite attr_table_set_attr_table.
  case_decide as Hk; [|done]. subst k'.
  rewrite lookup_insert_ne; [done|]. intros ->. congruence.
Qed.

Lemma attr_destroy_no_new_row k k' db u pk j :
  attr_table k' db !! j = None →
  attr_table k' (BaseRecipeAttributeViewSet_destroy k db u pk).1 !! j = None.
Proof.
  intros Hj. unfold BaseRecipeAttributeViewSet_destroy.
  destruct (get_object _ pk); [|done]. simpl.
  rewrite attr_table_attr_delete. case_decide as Hk; [|done]. subst k'.
  apply lookup_delete_None. by right.
Qed.

(** No request to the tag or ingredient addresses makes a row. *)
Lemma attr_api_no_new_row cfg db ou m url p k j :
  url_viewset url ≠ RecipeViewSet →
  attr_table k db !! j = None →
  attr_table k (dispatch cfg db (mkRequest ou m url p)).1 !! j = None.
Proof.
  intros Hv Hj. destruct ou as [u|]; [|done].
  rewrite dispatch_authenticated.
  destruct url as [[]|[] pk|pk], m; try done;
    first [ by apply attr_update_no_new_row
          | by apply attr_destroy_no_new_row ].
Qed.

(** C8 (amended).  The tag and the ingredient view sets have the actions
    list, update, partial update and destroy, and no others.  [GET] is
    served on the collection address and there only; [PUT], [PATCH] and
    [DELETE] are served on the address of a row and there only; anything
    else, a [POST] to the collection and a [GET] of a single row
    included, is answered [405] with nothing written.  No request to
    these addresses makes a row: a row that appears in either table
    appears through a request to the recipe addresses, made by its owner,
    whose body lists its name; and a valid write of a recipe that lists a
    name does leave a row of the caller under that name. *)
Theorem attribute_api_surface cfg k db ou m url p :
  let db' := (dispatch cfg db (mkRequest ou m url p)).1 in
  actions (attr_viewset k)
  = [action_list; action_update; action_partial_update; action_destroy] ∧
  (∀ m', served (url_list (attr_viewset k)) m' = true ↔ m' = GET) ∧
  (∀ pk m', served (url_detail (attr_viewset k) pk) m' = true ↔
            m' = PUT ∨ m' = PATCH ∨ m' = DELETE) ∧
  (∀ u, ou = Some u → served url m = false →
        dispatch cfg db (mkRequest ou m url p) = (db, method_not_allowed)) ∧
  (∀ j a, attr_table k db' !! j = Some a → attr_table k db !! j = None →
          url_viewset url = RecipeViewSet ∧ ou = Some (attr_user a) ∧
          listed k p (name a)) ∧
  (∀ u rid names n,
     ou = Some u → writes_recipe db u m url rid →
     is_valid cfg RecipeDetailSerializer (bool_decide (m = PATCH)) p = true →
     p_items k p = Some names → n ∈ names →
     ∃ t, attr_table k db' !! t = Some (mkAttr u n)).
Proof.
  intros db'. split; [by destruct k|]. split; [|split; [|split; [|split]]].
  - intros m'. destruct k, m'; by vm_compute.
  - intros pk m'. destruct k, m'; vm_compute;
      (split; [try discriminate; tauto|intros [H|[H|H]]; by try discriminate H]).
  - intros u -> Hs. by apply dispatch_unserved.
  - intros j a Hj Hnone. split.
    + destruct (decide (url_viewset url = RecipeViewSet)) as [|Hv]; [done|].
      exfalso. unfold db' in Hj.
      by rewrite (attr_api_no_new_row cfg db ou m url p k j Hv Hnone) in Hj.
    + unfold db' in *. destruct ou as [u|]; [|simpl in *; congruence].
      destruct (effect_new_attr u m p db _ k j a
                  (dispatch_effect cfg db u m url p) Hj Hnone)
        as (<- & Hl & _).
      done.
  - intros u rid names n -> Hw Hv Hitems Hn.
    destruct (writes_recipe_outcome cfg db u m url rid p Hw Hv)
      as (db1 & r & vd & Heq & [_ Hk] & _ & Hvd).
    unfold db'. rewrite Heq. simpl.
    destruct (Hk k) as [_ Hl]. unfold links_after in Hl.
    rewrite Hvd, Hitems in Hl. destruct Hl as (s & _ & _ & Hall).
    destruct (Hall n Hn) as [t Ht]. exists t.
    by apply find_attr_Some in Ht as [? _].
Qed.

(** ** The tests of the repository, replayed *)

(** [test_auth_required] *)
Example test_auth_required :
  status_code
    (dispatch sample_settings sample_db
       (mkRequest None GET (url_list RecipeViewSet) empty_payload)).2
  = HTTP_401_UNAUTHORIZED.
Proof. reflexivity. Qed.

(** [test_retrieve_recipe] and [test_get_recipe_detail]: the list shows
    the rows through [RecipeSerializer], the read of one recipe through
    [RecipeDetailSerializer]. *)
Example test_retrieve_recipe :
  dispatch sample_settings sample_db
    (mkRequest (Some 1) GET (url_list RecipeViewSet) empty_payload)
  = (sample_db,
     mkResponse HTTP_200_OK
       (body_recipes
          [mkRecipeData 1 (Some "Thai Prawn Curry") (Some 10) (Some 250%Z)
             None (Some "https://example.com/curry.pdf") None
             (Some {[1; 2]}) (Some {[1]})])).
Proof. by vm_compute. Qed.

Example test_get_recipe_detail :
  dispatch sample_settings sample_db
    (mkRequest (Some 1) GET (url_detail RecipeViewSet 1) empty_payload)
  = (sample_db,
     mkResponse HTTP_200_OK
       (body_recipe
          (mkRecipeData 1 (Some "Thai Prawn Curry") (Some 10) (Some 250%Z)
             (Some "") (Some "https://example.com/curry.pdf") (Some None)
             (Some {[1; 2]}) (Some {[1]})))).
Proof. by vm_compute. Qed.

(** [test_recipe_other_users_recipe_error] *)
Example test_recipe_other_users_recipe_error :
  let res := dispatch sample_settings sample_db
               (mkRequest (Some 1) DELETE (url_detail RecipeViewSet 2)
                  empty_payload) in
  status_code res.2 = HTTP_404_NOT_FOUND ∧
  core_recipe res.1 !! 2 = Some soup.
Proof. by vm_compute. Qed.

(** [test_update_user_returns_error] *)
Example test_update_user_returns_error :
  let res := dispatch sample_settings sample_db
               (mkRequest (Some 1) PATCH (url_detail RecipeViewSet 1)
                  (user_payload 2)) in
  recipe_user <$> core_recipe res.1 !! 1 = Some 1.
Proof. by vm_compute. Qed.

(** [test_create_recipe_with_existing_tags] *)
Example test_create_recipe_with_existing_tags :
  let db := mkDB ∅ (<[1 := mkAttr 1 "Thai"]> ∅) ∅ ∅ ∅ in
  let res := dispatch sample_settings db
               (mkRequest (Some 1) POST (url_list RecipeViewSet)
                  curry_payload) in
  status_code res.2 = HTTP_201_CREATED ∧
  size (related Tag res.1 1) = 2 ∧ 1 ∈ related Tag res.1 1 ∧
  size (core_tag res.1) = 2.
Proof. by vm_compute. Qed.

(** [test_get_existing_tag_on_update] *)
Example test_get_existing_tag_on_update :
  let db := mkDB (<[1 := curry]> ∅)
                 (<[1 := mkAttr 1 "Vietnamese"]> (<[2 := mkAttr 1 "Thai"]> ∅))
                 ∅ (<[1 := {[1]}]> ∅) ∅ in
  let res := dispatch sample_settings db
               (mkRequest (Some 1) PATCH (url_detail RecipeViewSet 1)
                  (tags_payload ["Thai"])) in
  status_code res.2 = HTTP_200_OK ∧ related Tag res.1 1 = {[2]} ∧
  core_tag res.1 = core_tag db.
Proof. by vm_compute. Qed.

(** [test_clear_recipe_tags] *)
Example test_clear_recipe_tags :
  let res := dispatch sample_settings sample_db
               (mkRequest (Some 1) PATCH (url_detail RecipeViewSet 1)
                  (tags_payload [])) in
  status_code res.2 = HTTP_200_OK ∧ size (related Tag res.1 1) = 0 ∧
  core_tag res.1 = core_tag sample_db.
Proof. by vm_compute. Qed.

(** [test_retrieve_tags] *)
Example test_retrieve_tags :
  let db := mkDB ∅ (<[1 := mkAttr 1 "Vegan"]> (<[2 := mkAttr 1 "Desert"]> ∅))
                 ∅ ∅ ∅ in
  (dispatch sample_settings db
     (mkRequest (Some 1) GET (url_list TagViewSet) empty_payload)).2
  = mkResponse HTTP_200_OK
      (body_attrs Tag [(1, mkAttr 1 "Vegan"); (2, mkAttr 1 "Desert")]).
Proof. by vm_compute. Qed.

(** [test_tag_list_limited_to_user] *)
Example test_tag_list_limited_to_user :
  (dispatch sample_settings sample_db
     (mkRequest (Some 2) GET (url_list TagViewSet) empty_payload)).2
  = mkResponse HTTP_200_OK (body_attrs Tag [(3, mkAttr 2 "Thai")]).
Proof. by vm_compute. Qed.

(** [test_update_tag] and [test_delete_tag] *)
Example test_update_tag :
  let res := dispatch sample_settings sample_db
               (mkRequest (Some 1) PATCH (url_detail TagViewSet 1)
                  (name_payload "Vietnamese")) in
  status_code res.2 = HTTP_200_OK ∧
  core_tag res.1 !! 1 = Some (mkAttr 1 "Vietnamese").
Proof. by vm_compute. Qed.

Example test_delete_tag :
  let res := dispatch sample_settings sample_db
               (mkRequest (Some 1) DELETE (url_detail TagViewSet 1)
                  empty_payload) in
  status_code res.2 = HTTP_204_NO_CONTENT ∧ core_tag res.1 !! 1 = None ∧
  related Tag res.1 1 = {[2]} ∧ core_recipe res.1 = core_recipe sample_db.
Proof. by vm_compute. Qed.

(** [test_upload_image] and [test_upload_image_bad_request] *)
Example test_upload_image :
  let res := dispatch sample_settings sample_db
               (mkRequest (Some 1) POST (url_upload_image 1)
                  (image_payload "JPEG 10x10")) in
  res.2 = mkResponse HTTP_200_OK
            (body_recipe
               (mkRecipeData 1 None None None None None
                  (Some (Some "JPEG 10x10")) None None)) ∧
  core_recipe res.1 !! 1 = Some (with_image (Some "JPEG 10x10") curry).
Proof. by vm_compute. Qed.

Example test_upload_image_bad_request :
  status_code
    (dispatch sample_settings sample_db
       (mkRequest (Some 1) POST (url_upload_image 1)
          (image_payload "not an image"))).2
  = HTTP_400_BAD_REQUEST.
Proof. by vm_compute. Qed.

(** ** The results on the sample data *)

Example sample_db_reached :
  (dispatch sample_settings
     (dispatch sample_settings empty_db
        (mkRequest (Some 1) POST (url_list RecipeViewSet) curry_payload)).1
     (mkRequest (Some 2) POST (url_list RecipeViewSet) soup_payload)).1
  = sample_db.
Proof. by vm_compute. Qed.

(** User 2 renames, or tries to, the tag 1 of user 1. *)
Lemma cross_owner_isolation_witness :
  links_owned sample_db ∧ 1 ≠ 2 ∧ owner_of TagViewSet sample_db 1 = Some 1 ∧
  dispatch sample_settings sample_db
    (mkRequest (Some 2) PATCH (url_detail TagViewSet 1) (name_payload "Mine"))
  = (sample_db, not_found) ∧
  dispatch sample_settings sample_db
    (mkRequest (Some 2) PATCH (url_detail TagViewSet 7) (name_payload "Mine"))
  = (sample_db, not_found).
Proof.
  assert (links_owned sample_db) as Hwf.
  { apply (bool_decide_unpack _). by vm_compute. }
  assert (1 ≠ 2) as Hne by lia.
  assert (owner_of TagViewSet sample_db 1 = Some 1) as Ho by reflexivity.
  do 3 (split; [done|]).
  destruct (cross_owner_isolation sample_settings sample_db 1 2 TagViewSet 1
              PATCH (url_detail TagViewSet 1) (name_payload "Mine")
              Hwf Hne Ho) as (_ & _ & H).
  specialize (H eq_refl eq_refl eq_refl).
  change (served (url_detail TagViewSet 1) PATCH) with true in H.
  destruct H as [H1 H2]. split; [exact H1|]. by apply (H2 7).
Defined.

(** The claim C1 as it is worded fails for the read of a single tag: user
    2 asking for the tag 1 of user 1 is answered [405], not [404]. *)
Lemma tag_get_is_not_404 :
  owner_of TagViewSet sample_db 1 = Some 1 ∧
  dispatch sample_settings sample_db
    (mkRequest (Some 2) GET (url_detail TagViewSet 1) empty_payload)
  = (sample_db, method_not_allowed) ∧
  status_code method_not_allowed ≠ HTTP_404_NOT_FOUND.
Proof. split; [done|]. split; [done|]. by vm_compute. Qed.

(** User 1 creates a recipe and names user 2 as its owner. *)
Lemma recipe_owner_is_fixed_witness :
  is_valid sample_settings RecipeDetailSerializer false
    (set_p_user (Some 2) curry_payload) = true ∧
  ∃ r, core_recipe
         (dispatch sample_settings empty_db
            (mkRequest (Some 1) POST (url_list RecipeViewSet)
               (set_p_user (Some 2) curry_payload))).1 !! 1 = Some r ∧
       recipe_user r = 1.
Proof.
  split; [reflexivity|].
  destruct (recipe_owner_is_fixed sample_settings empty_db (Some 1) POST
              (url_list RecipeViewSet) (set_p_user (Some 2) curry_payload))
    as (_ & H & _).
  destruct (H 1 eq_refl eq_refl eq_refl eq_refl) as [_ Hr]. exact Hr.
Defined.

(** User 1 changes the title of the curry and sends no tags: the write
    is accepted and the curry keeps its two tags. *)
Lemma omitted_relation_is_kept_witness :
  PATCH ≠ DELETE ∧ p_items Tag (title_payload "Green Curry") = None ∧
  status_code
    (dispatch sample_settings sample_db
       (mkRequest (Some 1) PATCH (url_detail RecipeViewSet 1)
          (title_payload "Green Curry"))).2 = HTTP_200_OK ∧
  title <$> core_recipe
              (dispatch sample_settings sample_db
                 (mkRequest (Some 1) PATCH (url_detail RecipeViewSet 1)
                    (title_payload "Green Curry"))).1 !! 1
  = Some "Green Curry" ∧
  related Tag sample_db 1 = {[1; 2]} ∧
  related Tag
    (dispatch sample_settings sample_db
       (mkRequest (Some 1) PATCH (url_detail RecipeViewSet 1)
          (title_payload "Green Curry"))).1 1
  = related Tag sample_db 1.
Proof.
  assert (PATCH ≠ DELETE) as Hm by discriminate.
  split; [exact Hm|]. do 3 (split; [reflexivity|]).
  split; [by vm_compute|].
  exact (omitted_relation_is_kept sample_settings sample_db (Some 1) PATCH
           (url_detail RecipeViewSet 1) (title_payload "Green Curry") Tag
           Hm eq_refl 1).
Defined.

(** User 1 uploads to the curry an image, then something that is no
    image, then a body without an image. *)
Lemma upload_image_validates_witness :
  core_recipe sample_db !! 1 = Some curry ∧ recipe_user curry = 1 ∧
  (status_code
     (dispatch sample_settings sample_db
        (mkRequest (Some 1) POST (url_upload_image 1)
           (image_payload "JPEG 10x10"))).2 = HTTP_200_OK ∧
   core_recipe
     (dispatch sample_settings sample_db
        (mkRequest (Some 1) POST (url_upload_image 1)
           (image_payload "JPEG 10x10"))).1 !! 1
   = Some (with_image (Some "JPEG 10x10") curry) ∧
   data (dispatch sample_settings sample_db
           (mkRequest (Some 1) POST (url_upload_image 1)
              (image_payload "JPEG 10x10"))).2
   = body_recipe (mkRecipeData 1 None None None None None
                               (Some (Some "JPEG 10x10")) None None)) ∧
  dispatch sample_settings sample_db
    (mkRequest (Some 1) POST (url_upload_image 1)
       (image_payload "not an image"))
  = (sample_db, bad_request) ∧
  dispatch sample_settings sample_db
    (mkRequest (Some 1) POST (url_upload_image 1)
       (title_payload "Green Curry"))
  = (sample_db, bad_request).
Proof.
  do 2 (split; [reflexivity|]). split; [|split].
  - exact (upload_image_validates sample_settings sample_db 1 1 curry
             (image_payload "JPEG 10x10") eq_refl eq_refl).
  - exact (proj1 (upload_image_validates sample_settings sample_db 1 1 curry
                    (image_payload "not an image") eq_refl eq_refl)).
  - exact (proj1 (upload_image_validates sample_settings sample_db 1 1 curry
                    (title_payload "Green Curry") eq_refl eq_refl)).
Defined.

(** User 1 uploads an image to the curry, with a title in the same body. *)
Lemma upload_image_writes_image_only_witness :
  core_recipe sample_db !! 1 = Some curry ∧ recipe_user curry = 1 ∧
  status_code
    (dispatch sample_settings sample_db
       (mkRequest (Some 1) POST (url_upload_image 1)
          (image_payload "JPEG 10x10"))).2 = HTTP_200_OK ∧
  ∃ r', core_recipe
          (dispatch sample_settings sample_db
             (mkRequest (Some 1) POST (url_upload_image 1)
                (image_payload "JPEG 10x10"))).1
        = <[1 := r']> (core_recipe sample_db) ∧
        title r' = title curry.
Proof.
  do 3 (split; [reflexivity|]).
  destruct (upload_image_writes_image_only sample_settings sample_db 1 1
              curry (image_payload "JPEG 10x10") eq_refl eq_refl eq_refl)
    as (r' & Hr & _ & _ & Ht & _).
  exists r'. by split.
Defined.

Lemma sample_writes_curry :
  writes_recipe sample_db 1 PATCH (url_detail RecipeViewSet 1) 1.
Proof.
  right. split; [by right|]. split; [reflexivity|]. by exists curry.
Defined.

(** User 1 tags the curry "Thai" and "Lunch" and nothing else: the tag
    "Dinner" leaves the curry and stays in the table, the tag "Thai" of
    user 1 stays on it, and a tag "Lunch" of user 1 is made and put on
    it. *)
Lemma nested_list_replaces_relation_witness :
  writes_recipe sample_db 1 PATCH (url_detail RecipeViewSet 1) 1 ∧
  is_valid sample_settings RecipeDetailSerializer (bool_decide (PATCH = PATCH))
    (tags_payload ["Thai"; "Lunch"]) = true ∧
  p_items Tag (tags_payload ["Thai"; "Lunch"]) = Some ["Thai"; "Lunch"] ∧
  related Tag sample_db 1 = {[1; 2]} ∧
  (∀ j, core_tag sample_db !! j ≠ Some (mkAttr 1 "Lunch")) ∧
  (∃ t, t ∈ related Tag
              (dispatch sample_settings sample_db
                 (mkRequest (Some 1) PATCH (url_detail RecipeViewSet 1)
                    (tags_payload ["Thai"; "Lunch"]))).1 1 ∧
        core_tag
          (dispatch sample_settings sample_db
             (mkRequest (Some 1) PATCH (url_detail RecipeViewSet 1)
                (tags_payload ["Thai"; "Lunch"]))).1 !! t
        = Some (mkAttr 1 "Lunch")) ∧
  (2 ∉ related Tag
         (dispatch sample_settings sample_db
            (mkRequest (Some 1) PATCH (url_detail RecipeViewSet 1)
               (tags_payload ["Thai"; "Lunch"]))).1 1) ∧
  core_tag sample_db
  ⊆ core_tag
      (dispatch sample_settings sample_db
         (mkRequest (Some 1) PATCH (url_detail RecipeViewSet 1)
            (tags_payload ["Thai"; "Lunch"]))).1.
Proof.
  split; [exact sample_writes_curry|]. do 2 (split; [reflexivity|]).
  split; [by vm_compute|].
  split; [apply find_attr_None; by vm_compute|].
  destruct (nested_list_replaces_relation sample_settings sample_db 1 PATCH
              (url_detail RecipeViewSet 1) 1 (tags_payload ["Thai"; "Lunch"])
              Tag ["Thai"; "Lunch"] sample_writes_curry eq_refl eq_refl)
    as (_ & _ & Hsub & _ & Hall & Honly).
  split; [|split; [|exact (Hsub Tag)]].
  - apply (Hall "Lunch"). apply list_elem_of_further, list_elem_of_here.
  - intros Hin. destruct (Honly 2 Hin) as (n & Hn & Ht).
    assert (mkAttr 1 "Dinner" = mkAttr 1 n) as [= <-].
    { eapply lookup_weaken_inv; [|exact (Hsub Tag)|exact Ht]. reflexivity. }
    apply elem_of_cons in Hn as [Hn|Hn]; [discriminate|].
    apply elem_of_cons in Hn as [Hn|Hn]; [discriminate|].
    by apply elem_of_nil in Hn.
Defined.

(** User 1 tags the curry "Thai" and "Lunch": the tag "Thai" of user 1 is
    used, and the tag "Thai" of user 2 stays out of it. *)
Lemma find_or_create_is_scoped_witness :
  writes_recipe sample_db 1 PATCH (url_detail RecipeViewSet 1) 1 ∧
  is_valid sample_settings RecipeDetailSerializer (bool_decide (PATCH = PATCH))
    (tags_payload ["Thai"; "Lunch"]) = true ∧
  p_items Tag (tags_payload ["Thai"; "Lunch"]) = Some ["Thai"; "Lunch"] ∧
  "Thai" ∈ ["Thai"; "Lunch"] ∧
  (∀ j', core_tag
           (dispatch sample_settings sample_db
              (mkRequest (Some 1) PATCH (url_detail RecipeViewSet 1)
                 (tags_payload ["Thai"; "Lunch"]))).1 !! j'
         = Some (mkAttr 1 "Thai") →
         core_tag sample_db !! j' = Some (mkAttr 1 "Thai")) ∧
  3 ∉ related Tag
        (dispatch sample_settings sample_db
           (mkRequest (Some 1) PATCH (url_detail RecipeViewSet 1)
              (tags_payload ["Thai"; "Lunch"]))).1 1.
Proof.
  assert ("Thai" ∈ ["Thai"; "Lunch"]) as Hin by apply list_elem_of_here.
  split; [exact sample_writes_curry|]. do 2 (split; [reflexivity|]).
  split; [exact Hin|].
  destruct (find_or_create_is_scoped sample_settings sample_db 1 PATCH
              (url_detail RecipeViewSet 1) 1 (tags_payload ["Thai"; "Lunch"])
              Tag ["Thai"; "Lunch"] "Thai"
              sample_writes_curry eq_refl eq_refl Hin)
    as (_ & Hreuse & _ & Hother).
  split.
  - exact (proj2 (Hreuse 1 eq_refl)).
  - refine (proj1 (Hother 3 (mkAttr 2 "Thai") eq_refl _)). simpl. lia.
Defined.

(** User 1 tags the curry "Vegan" twice. *)
Lemma duplicate_names_are_merged_witness :
  writes_recipe sample_db 1 PATCH (url_detail RecipeViewSet 1) 1 ∧
  is_valid sample_settings RecipeDetailSerializer (bool_decide (PATCH = PATCH))
    (tags_payload ["Vegan"; "Vegan"]) = true ∧
  p_items Tag (tags_payload ["Vegan"; "Vegan"]) = Some ["Vegan"; "Vegan"] ∧
  ∃ t, related Tag
         (dispatch sample_settings sample_db
            (mkRequest (Some 1) PATCH (url_detail RecipeViewSet 1)
               (tags_payload ["Vegan"; "Vegan"]))).1 1 = {[t]} ∧
       core_tag
         (dispatch sample_settings sample_db
            (mkRequest (Some 1) PATCH (url_detail RecipeViewSet 1)
               (tags_payload ["Vegan"; "Vegan"]))).1 !! t
       = Some (mkAttr 1 "Vegan").
Proof.
  split; [exact sample_writes_curry|]. do 2 (split; [reflexivity|]).
  destruct (duplicate_names_are_merged sample_settings sample_db 1 PATCH
              (url_detail RecipeViewSet 1) 1 (tags_payload ["Vegan"; "Vegan"])
              Tag ["Vegan"; "Vegan"] sample_writes_curry eq_refl eq_refl)
    as (_ & _ & _ & _ & _ & Htwice).
  exact (Htwice "Vegan" eq_refl).
Defined.

Example thai_thai_on_create :
  let db' := (dispatch sample_settings empty_db
                (mkRequest (Some 1) POST (url_list RecipeViewSet)
                   (set_p_user None
                      (mkPayload None (Some "Curry") (Some 10) (Some 250%Z)
                         None None (Some ["Thai"; "Thai"]) None None None)))).1
  in related Tag db' 1 = {[1]} ∧ core_tag db' = {[1 := mkAttr 1 "Thai"]}.
Proof. by vm_compute. Qed.

(** User 1 posts a tag, which is not served, and tags the curry "Lunch",
    which makes the row. *)
Lemma attribute_api_surface_witness :
  served (url_list TagViewSet) POST = false ∧
  dispatch sample_settings sample_db
    (mkRequest (Some 1) POST (url_list TagViewSet) (name_payload "Lunch"))
  = (sample_db, method_not_allowed) ∧
  writes_recipe sample_db 1 PATCH (url_detail RecipeViewSet 1) 1 ∧
  ∃ t, core_tag
         (dispatch sample_settings sample_db
            (mkRequest (Some 1) PATCH (url_detail RecipeViewSet 1)
               (tags_payload ["Thai"; "Lunch"]))).1 !! t
       = Some (mkAttr 1 "Lunch").
Proof.
  split; [reflexivity|]. split.
  - destruct (attribute_api_surface sample_settings Tag sample_db (Some 1)
                POST (url_list TagViewSet) (name_payload "Lunch"))
      as (_ & _ & _ & H & _).
    exact (H 1 eq_refl eq_refl).
  - split; [exact sample_writes_curry|].
    destruct (attribute_api_surface sample_settings Tag sample_db (Some 1)
                PATCH (url_detail RecipeViewSet 1)
                (tags_payload ["Thai"; "Lunch"]))
      as (_ & _ & _ & _ & _ & H).
    refine (H 1 1 ["Thai"; "Lunch"] "Lunch" eq_refl sample_writes_curry
              eq_refl eq_refl _).
    apply list_elem_of_further, list_elem_of_here.
Defined.

(** The claim C8 as it is worded fails for [GET] on the address of a tag:
    the owner of tag 1 asking for it is answered [405], while the same
    address serves [PATCH]. *)
Lemma tag_detail_get_is_not_served :
  owner_of TagViewSet sample_db 1 = Some 1 ∧
  served (url_detail TagViewSet 1) GET = false ∧
  served (url_detail TagViewSet 1) PATCH = true ∧
  dispatch sample_settings sample_db
    (mkRequest (Some 1) GET (url_detail TagViewSet 1) empty_payload)
  = (sample_db, method_not_allowed) ∧
  status_code method_not_allowed = 405.
Proof. by vm_compute. Qed.

(** * Further properties of the views *)

(** ** Errors, reads and the order of the checks *)

Lemma RecipeViewSet_update_error cfg partial db u pk p :
  400 ≤ status_code (RecipeViewSet_update cfg partial db u pk p).2 →
  (RecipeViewSet_update cfg partial db u pk p).1 = db.
Proof.
  unfold RecipeViewSet_update. destruct (get_object _ pk); [|done].
  destruct (is_valid _ _ _ _); [|done]. simpl. unfold HTTP_200_OK. lia.
Qed.

Lemma RecipeViewSet_upload_image_error cfg db u pk p :
  400 ≤ status_code (RecipeViewSet_upload_image cfg db u pk p).2 →
  (RecipeViewSet_upload_image cfg db u pk p).1 = db.
Proof.
  unfold RecipeViewSet_upload_image. destruct (get_object _ pk); [|done].
  destruct (is_valid _ _ _ _); [|done]. simpl. unfold HTTP_200_OK. lia.
Qed.

Lemma RecipeViewSet_create_error cfg db u p :
  400 ≤ status_code (RecipeViewSet_create cfg db u p).2 →
  (RecipeViewSet_create cfg db u p).1 = db.
Proof.
  unfold RecipeViewSet_create. destruct (is_valid _ _ _ _); [|done].
  destruct (RecipeViewSet_perform_create _ _ _) as [[db' rid]|]; [|done].
  simpl. unfold HTTP_201_CREATED. lia.
Qed.

Lemma RecipeViewSet_destroy_error db u pk :
  400 ≤ status_code (RecipeViewSet_destroy db u pk).2 →
  (RecipeViewSet_destroy db u pk).1 = db.
Proof.
  unfold RecipeViewSet_destroy. destruct (get_object _ pk); [|done].
  simpl. unfold HTTP_204_NO_CONTENT. lia.
Qed.

Lemma BaseRecipeAttributeViewSet_update_error cfg k partial db u pk p :
  400 ≤ status_code
          (BaseRecipeAttributeViewSet_update cfg k partial db u pk p).2 →
  (BaseRecipeAttributeViewSet_update cfg k partial db u pk p).1 = db.
Proof.
  rewrite BaseRecipeAttributeViewSet_update_eq.
  destruct (attr_table k db !! pk); [|done]. case_decide; [|done].
  destruct (is_valid _ _ _ _); [|done]. simpl.
  destruct (name_taken _ _ _); [done|]. simpl. unfold HTTP_200_OK. lia.
Qed.

Lemma BaseRecipeAttributeViewSet_destroy_error k db u pk :
  400 ≤ status_code (BaseRecipeAttributeViewSet_destroy k db u pk).2 →
  (BaseRecipeAttributeViewSet_destroy k db u pk).1 = db.
Proof.
  unfold BaseRecipeAttributeViewSet_destroy.
  destruct (get_object _ pk); [|done].
  simpl. unfold HTTP_204_NO_CONTENT. lia.
Qed.

(** X1.  A request that is answered with an error, a status of 400 or
    more, has written nothing. *)
Theorem error_writes_nothing cfg db req :
  400 ≤ status_code (dispatch cfg db req).2 → (dispatch cfg db req).1 = db.
Proof.
  destruct req as [[u|] m url p]; [|done].
  rewrite dispatch_authenticated.
  destruct url as [[]|[] pk|pk], m; try done;
    first [ apply RecipeViewSet_create_error
          | apply RecipeViewSet_update_error
          | apply RecipeViewSet_upload_image_error
          | apply RecipeViewSet_destroy_error
          | apply BaseRecipeAttributeViewSet_update_error
          | apply BaseRecipeAttributeViewSet_destroy_error
          | intros _; apply RecipeViewSet_retrieve_db ].
Qed.

(** X2.  A [GET] writes nothing, whoever sends it, wherever, with whatever
    body. *)
Theorem get_writes_nothing cfg db ou url p :
  (dispatch cfg db (mkRequest ou GET url p)).1 = db.
Proof.
  destruct ou as [u|]; [|done]. rewrite dispatch_authenticated.
  destruct url as [[]|[] pk|pk]; try done. apply RecipeViewSet_retrieve_db.
Qed.

(** A write to a tag or an ingredient of the caller: the body is
    validated, then the storage engine is asked. *)
Lemma attr_update_checked cfg k partial db u pk p a :
  attr_table k db !! pk = Some a → attr_user a = u →
  if is_valid cfg (serializer_class k) partial p
     && attr_name_free cfg k db pk p
  then status_code
         (BaseRecipeAttributeViewSet_update cfg k partial db u pk p).2
       = HTTP_200_OK
  else BaseRecipeAttributeViewSet_update cfg k partial db u pk p
       = (db, bad_request).
Proof.
  intros Ha Hu. rewrite BaseRecipeAttributeViewSet_update_eq, Ha.
  rewrite decide_True by done. unfold attr_name_free. rewrite Ha.
  destruct (is_valid _ _ _ _); [|done]. simpl.
  by destruct (name_taken _ _ _).
Qed.

(** X3.  The checks of a request come in a fixed order.  Without a user the
    answer is [401], whatever the method and the address.  With a user, a
    method that is not served is [405], whatever the key.  A served method
    on the address of a row that is not the caller's is [404], whatever
    the body.  Only then is the body of a write looked at: on the caller's
    own row, or on the collection of recipes, a [POST], [PUT] or [PATCH]
    is answered [400] with nothing written when the body is not valid, or
    when it would give the owner of a tag or an ingredient a second row
    of one name, and [200] or [201] otherwise. *)
Theorem checks_in_order cfg db ou m url p :
  let res := dispatch cfg db (mkRequest ou m url p) in
  (ou = None → res = (db, not_authenticated)) ∧
  (∀ u, ou = Some u → served url m = false →
        res = (db, method_not_allowed)) ∧
  (∀ u, ou = Some u → served url m = true → is_detail url = true →
        owner_of (url_viewset url) db (url_pk url) ≠ Some u →
        res = (db, not_found)) ∧
  (∀ u, ou = Some u → served url m = true →
        m = POST ∨ m = PUT ∨ m = PATCH →
        (is_detail url = true →
         owner_of (url_viewset url) db (url_pk url) = Some u) →
        if body_valid cfg m url p && name_free cfg db url p
        then status_code res.2
             = (if decide (url = url_list RecipeViewSet)
                then HTTP_201_CREATED else HTTP_200_OK)
        else res = (db, bad_request)).
Proof.
  intros res. split; [by intros ->|]. split; [|split].
  - intros u -> Hs. by apply dispatch_unserved.
  - intros u -> Hs Hd Ho. by apply addressed_not_found.
  - intros u -> Hs Hm Hown. unfold res, body_valid.
    rewrite dispatch_authenticated.
    destruct url as [[]|[] pk|pk], m; try done;
      try (destruct Hm as [?|[?|?]]; discriminate); simpl in *;
      rewrite ?andb_true_r.
    + pose proof (RecipeViewSet_create_outcome cfg db u p) as H. simpl in H.
      destruct (is_valid _ _ _ _); [|done]. by destruct H as (db' & -> & _).
    + specialize (Hown eq_refl). rewrite owner_of_recipe in Hown.
      apply fmap_Some in Hown as (r & Hr & Hu).
      pose proof (RecipeViewSet_update_outcome cfg false db u pk p) as H.
      simpl in H. rewrite get_object_recipe_eq, Hr in H.
      rewrite decide_True in H by done.
      destruct (is_valid _ _ _ _); [|done]. by destruct H as (db' & -> & _).
    + specialize (Hown eq_refl). rewrite owner_of_recipe in Hown.
      apply fmap_Some in Hown as (r & Hr & Hu).
      pose proof (RecipeViewSet_update_outcome cfg true db u pk p) as H.
      simpl in H. rewrite get_object_recipe_eq, Hr in H.
      rewrite decide_True in H by done.
      destruct (is_valid _ _ _ _); [|done]. by destruct H as (db' & -> & _).
    + specialize (Hown eq_refl). rewrite (owner_of_attr Tag) in Hown.
      apply fmap_Some in Hown as (a & Ha & Hu).
      exact (attr_update_checked cfg Tag false db u pk p a Ha (eq_sym Hu)).
    + specialize (Hown eq_refl). rewrite (owner_of_attr Tag) in Hown.
      apply fmap_Some in Hown as (a & Ha & Hu).
      exact (attr_update_checked cfg Tag true db u pk p a Ha (eq_sym Hu)).
    + specialize (Hown eq_refl). rewrite (owner_of_attr Ingredient) in Hown.
      apply fmap_Some in Hown as (a & Ha & Hu).
      exact (attr_update_checked cfg Ingredient false db u pk p a Ha
               (eq_sym Hu)).
    + specialize (Hown eq_refl). rewrite (owner_of_attr Ingredient) in Hown.
      apply fmap_Some in Hown as (a & Ha & Hu).
      exact (attr_update_checked cfg Ingredient true db u pk p a Ha
               (eq_sym Hu)).
    + specialize (Hown eq_refl). rewrite owner_of_recipe in Hown.
      apply fmap_Some in Hown as (r & Hr & Hu).
      pose proof (RecipeViewSet_upload_image_outcome cfg db u pk p) as H.
      simpl in H. rewrite get_object_recipe_eq, Hr in H.
      rewrite decide_True in H by done.
      destruct (is_valid _ _ _ _); [|done]. by destruct H as (db' & -> & _).
Qed.

(** ** The recipe addresses *)

(** X4.  The recipe view set has the seven actions of a model view set
    and the image upload.  Its collection serves [GET] and [POST]; the
    address of a recipe serves [GET], [PUT], [PATCH] and [DELETE]; the
    upload address serves [POST] and nothing else. *)
Theorem recipe_api_surface :
  actions RecipeViewSet
  = [action_create; action_retrieve; action_update; action_partial_update;
     action_destroy; action_list; action_upload_image] ∧
  (∀ m, served (url_list RecipeViewSet) m = true ↔ m = GET ∨ m = POST) ∧
  (∀ pk m, served (url_detail RecipeViewSet pk) m = true ↔ m ≠ POST) ∧
  (∀ pk m, served (url_upload_image pk) m = true ↔ m = POST).
Proof.
  split; [reflexivity|]. split; [|split].
  - intros []; vm_compute; split; try discriminate; try tauto;
      intros [H|H]; by try discriminate H.
  - intros pk []; vm_compute; split; try discriminate; done.
  - intros pk []; vm_compute; split; try discriminate; done.
Qed.

(** ** Deleting *)

Lemma related_recipe_delete k rid rid' db :
  related k (recipe_delete rid db) rid' =
  if decide (rid' = rid) then ∅ else related k db rid'.
Proof.
  unfold related. rewrite attr_links_recipe_delete. case_decide as Heq.
  - subst. by rewrite lookup_delete_eq.
  - by rewrite lookup_delete_ne.
Qed.

(** X5.  The owner deletes a recipe: the answer is [204]; the row is gone
    and with it the relations of the recipe; every other recipe, with its
    relations, and every tag and ingredient row is what it was; and from
    then on every served method on the address answers [404]. *)
Theorem destroy_recipe cfg db u pk r p :
  core_recipe db !! pk = Some r → recipe_user r = u →
  let res := dispatch cfg db
               (mkRequest (Some u) DELETE (url_detail RecipeViewSet pk) p) in
  res.2 = mkResponse HTTP_204_NO_CONTENT body_empty ∧
  core_recipe res.1 = delete pk (core_recipe db) ∧
  (∀ k, attr_table k res.1 = attr_table k db ∧
        related k res.1 pk = ∅ ∧
        ∀ rid, rid ≠ pk → related k res.1 rid = related k db rid) ∧
  (∀ m' p', served (url_detail RecipeViewSet pk) m' = true →
            dispatch cfg res.1
              (mkRequest (Some u) m' (url_detail RecipeViewSet pk) p')
            = (res.1, not_found)).
Proof.
  intros Hr Hu res.
  assert (res = (recipe_delete pk db,
                 mkResponse HTTP_204_NO_CONTENT body_empty)) as ->.
  { unfold res. rewrite dispatch_authenticated. unfold RecipeViewSet_destroy.
    rewrite get_object_recipe_eq, Hr. by rewrite decide_True. }
  simpl. split; [done|]. split; [done|]. split.
  - intros k. rewrite attr_table_recipe_delete. split; [done|].
    split.
    + rewrite related_recipe_delete. by rewrite decide_True.
    + intros rid Hne. rewrite related_recipe_delete.
      by rewrite decide_False.
  - intros m' p' Hs. apply addressed_not_found; [done..|]. simpl.
    rewrite owner_of_recipe. simpl. by rewrite lookup_delete_eq.
Qed.

Lemma related_attr_delete k k' aid rid db :
  related k' (attr_delete k aid db) rid =
  if decide (k' = k) then related k db rid ∖ {[aid]} else related k' db rid.
Proof.
  unfold related. rewrite attr_links_attr_delete. case_decide as Hk; [|done].
  subst. rewrite lookup_fmap. destruct (attr_links k db !! rid); simpl.
  - done.
  - apply set_eq. intros t. rewrite elem_of_difference.
    split; [by intros ?%elem_of_empty|by intros [?%elem_of_empty _]].
Qed.

(** X6.  The owner deletes a tag (an ingredient): the answer is [204]; the
    row is gone and no recipe is related to it any more; no recipe is
    deleted or changed, the other relations of every recipe stay, and so
    does every other tag and ingredient row; and from then on every
    served method on the address answers [404]. *)
Theorem destroy_attr cfg k db u pk a p :
  attr_table k db !! pk = Some a → attr_user a = u →
  let res := dispatch cfg db
               (mkRequest (Some u) DELETE (url_detail (attr_viewset k) pk) p)
  in
  res.2 = mkResponse HTTP_204_NO_CONTENT body_empty ∧
  attr_table k res.1 = delete pk (attr_table k db) ∧
  core_recipe res.1 = core_recipe db ∧
  (∀ rid, related k res.1 rid = related k db rid ∖ {[pk]}) ∧
  (∀ k', k' ≠ k → attr_table k' res.1 = attr_table k' db ∧
                  ∀ rid, related k' res.1 rid = related k' db rid) ∧
  (∀ m' p', served (url_detail (attr_viewset k) pk) m' = true →
            dispatch cfg res.1
              (mkRequest (Some u) m' (url_detail (attr_viewset k) pk) p')
            = (res.1, not_found)).
Proof.
  intros Ha Hu res.
  assert (res = (attr_delete k pk db,
                 mkResponse HTTP_204_NO_CONTENT body_empty)) as ->.
  { unfold res. rewrite dispatch_authenticated.
    assert (BaseRecipeAttributeViewSet_destroy k db u pk
            = (attr_delete k pk db,
               mkResponse HTTP_204_NO_CONTENT body_empty)) as Hd.
    { unfold BaseRecipeAttributeViewSet_destroy.
      rewrite get_object_attr_eq, Ha. by rewrite decide_True. }
    by destruct k. }
  simpl. split; [done|]. split.
  { rewrite attr_table_attr_delete. by rewrite decide_True. }
  split; [apply core_recipe_attr_delete|]. split.
  { intros rid. rewrite related_attr_delete. by rewrite decide_True. }
  split.
  - intros k' Hk. rewrite attr_table_attr_delete.
    rewrite decide_False by done. split; [done|]. intros rid.
    rewrite related_attr_delete. by rewrite decide_False.
  - intros m' p' Hs. apply addressed_not_found; [done|done|].
    assert (url_viewset (url_detail (attr_viewset k) pk) = attr_viewset k)
      as -> by done.
    simpl. rewrite owner_of_attr, attr_table_attr_delete.
    rewrite decide_True by done. by rewrite lookup_delete_eq.
Qed.

(** ** Renaming *)

Lemma is_valid_attr cfg k partial p n :
  p_name p = Some n → is_valid cfg (serializer_class k) partial p = true.
Proof.
  intros Hn. unfold is_valid.
  destruct k; simpl; rewrite Hn; simpl;
    by destruct (required cfg f_name), partial.
Qed.

(** X7.  The owner renames a tag (an ingredient) with [PUT] or [PATCH].
    Where the owner has no other row of the new name, the answer is
    [200] with the row under its new name; the row keeps its key and its
    owner, whatever [user] the body names; and nothing else in the
    database changes, the relations of the recipes included.  Where the
    owner has another row of that name, the write is refused: the answer
    is [400] and nothing changes, so that no owner comes to two rows of
    one name. *)
Theorem update_attr cfg k db u pk a m p n :
  attr_table k db !! pk = Some a → attr_user a = u →
  m = PUT ∨ m = PATCH → p_name p = Some n →
  let res := dispatch cfg db
               (mkRequest (Some u) m (url_detail (attr_viewset k) pk) p) in
  ((∀ j, attr_table k db !! j = Some (mkAttr u n) → j = pk) →
   res = (set_attr_table k (<[pk := mkAttr u n]> (attr_table k db)) db,
          mkResponse HTTP_200_OK (body_attr k pk (mkAttr u n)))) ∧
  (∀ j, j ≠ pk → attr_table k db !! j = Some (mkAttr u n) →
        res = (db, bad_request)).
Proof.
  intros Ha Hu Hm Hn res.
  assert (∀ partial,
            BaseRecipeAttributeViewSet_update cfg k partial db u pk p
            = if name_taken (attr_table k db) pk (mkAttr u n)
              then (db, bad_request)
              else (set_attr_table k
                      (<[pk := mkAttr u n]> (attr_table k db)) db,
                    mkResponse HTTP_200_OK (body_attr k pk (mkAttr u n))))
    as Hd.
  { intros partial. rewrite BaseRecipeAttributeViewSet_update_eq, Ha.
    rewrite decide_True by done.
    rewrite (is_valid_attr cfg k partial p n Hn). simpl.
    unfold set_attr_fields. simpl.
    assert (declared cfg (serializer_class k) f_name = true) as ->
      by (by destruct k).
    simpl. rewrite Hn, Hu. simpl. done. }
  assert (res = if name_taken (attr_table k db) pk (mkAttr u n)
                then (db, bad_request)
                else (set_attr_table k
                        (<[pk := mkAttr u n]> (attr_table k db)) db,
                      mkResponse HTTP_200_OK (body_attr k pk (mkAttr u n))))
    as ->.
  { unfold res. rewrite dispatch_authenticated.
    destruct k, Hm as [-> | ->]; apply Hd. }
  split.
  - intros Hfree.
    assert (name_taken (attr_table k db) pk (mkAttr u n) = false) as ->.
    { apply name_taken_false. intros j Hne Hj. by apply Hne, Hfree. }
    done.
  - intros j Hne Hj.
    assert (name_taken (attr_table k db) pk (mkAttr u n) = true) as ->.
    { apply name_taken_true. by exists j. }
    done.
Qed.

(** ** Reading back *)

Lemma recipe_written_lookup u rid r vd db db' :
  recipe_written u rid r vd db db' → core_recipe db' !! rid = Some r.
Proof. intros [-> _]. apply lookup_insert_eq. Qed.

(** X8.  What a valid create or update of a recipe answers is what a read
    of the recipe answers next: the caller gets [200] and the very body
    the write returned. *)
Theorem read_your_write cfg db u m url rid p p' :
  writes_recipe db u m url rid →
  is_valid cfg RecipeDetailSerializer (bool_decide (m = PATCH)) p = true →
  let res := dispatch cfg db (mkRequest (Some u) m url p) in
  dispatch cfg res.1 (mkRequest (Some u) GET (url_detail RecipeViewSet rid) p')
  = (res.1, mkResponse HTTP_200_OK (data res.2)).
Proof.
  intros Hw Hv res.
  destruct (writes_recipe_outcome cfg db u m url rid p Hw Hv)
    as (db' & r & vd & Heq & Hwr & Hu & _).
  unfold res. rewrite Heq. simpl. rewrite dispatch_authenticated.
  unfold RecipeViewSet_retrieve, render_recipe.
  rewrite get_object_recipe_eq.
  rewrite (recipe_written_lookup _ _ _ _ _ _ Hwr).
  by rewrite decide_True.
Qed.

(** X9.  The list of a user and the reads of single recipes agree: a
    key is in the list exactly when reading the recipe under it answers
    [200]; the entry of the list is then the row as the list serializer
    shows it, and the answer to the read is the same row as the detail
    serializer shows it. *)
Theorem list_agrees_with_retrieve cfg db u p i :
  ∃ l,
    dispatch cfg db (mkRequest (Some u) GET (url_list RecipeViewSet) p)
    = (db, mkResponse HTTP_200_OK (body_recipes l)) ∧
    (i ∈ rd_id <$> l ↔
     status_code
       (dispatch cfg db
          (mkRequest (Some u) GET (url_detail RecipeViewSet i) p)).2
     = HTTP_200_OK) ∧
    ∀ d, d ∈ l → rd_id d = i →
         ∃ r, core_recipe db !! i = Some r ∧
              d = recipe_data cfg RecipeSerializer db i r ∧
              dispatch cfg db
                (mkRequest (Some u) GET (url_detail RecipeViewSet i) p)
              = (db, mkResponse HTTP_200_OK
                       (body_recipe
                          (recipe_data cfg RecipeDetailSerializer db i r))).
Proof.
  rewrite !dispatch_authenticated. unfold RecipeViewSet_list.
  unfold RecipeViewSet_retrieve. rewrite get_object_recipe_eq.
  eexists. split; [reflexivity|]. split.
  - rewrite <-list_fmap_compose. rewrite list_elem_of_fmap. split.
    + intros ([i' r] & -> & Hin).
      apply elem_of_recipe_queryset in Hin as [Hr Hu]. simpl.
      rewrite Hr. by rewrite decide_True.
    + destruct (core_recipe db !! i) as [r|] eqn:Hr; [|done].
      case_decide as Hu; [|done]. intros _. exists (i, r).
      split; [done|]. by apply elem_of_recipe_queryset.
  - intros d Hd Hi. apply list_elem_of_fmap in Hd as ([i' r] & -> & Hin).
    simpl in Hi. subst i'.
    apply elem_of_recipe_queryset in Hin as [Hr Hu]. exists r.
    rewrite Hr. rewrite decide_True by done. done.
Qed.

(** ** Lists after a write *)

Lemma next_id_gt {A} (t : gmap nat A) i : is_Some (t !! i) → i < next_id t.
Proof.
  intros H. apply elem_of_dom, elem_of_elements, max_list_elem_of_le in H.
  unfold next_id. lia.
Qed.

Global Instance desc_id_antisym {A} :
  AntiSymm (=) (λ a b : nat * A, b.1 < a.1).
Proof. intros a b H1 H2. lia. Qed.

Lemma StronglySorted_desc_id_NoDup {A} (l : list (nat * A)) :
  StronglySorted (λ a b, b.1 < a.1) l → NoDup l.
Proof.
  induction 1 as [|x l Hs IH Hall]; constructor; [|done].
  intros Hin. rewrite Forall_forall in Hall. specialize (Hall x Hin). lia.
Qed.

(** The list of the recipes of a user is the one list that holds the
    rows of the user and is strictly descending in the key. *)
Lemma recipe_queryset_unique db u (l : list (nat * Recipe)) :
  StronglySorted (λ a b, b.1 < a.1) l →
  (∀ i r, (i, r) ∈ l ↔ core_recipe db !! i = Some r ∧ recipe_user r = u) →
  l = RecipeViewSet_get_queryset db u.
Proof.
  intros Hs Hl.
  apply (StronglySorted_unique (λ a b : nat * Recipe, b.1 < a.1));
    [done|apply recipe_queryset_sorted|].
  apply NoDup_Permutation.
  - by apply StronglySorted_desc_id_NoDup.
  - apply StronglySorted_desc_id_NoDup, recipe_queryset_sorted.
  - intros [i r]. by rewrite Hl, elem_of_recipe_queryset.
Qed.

Lemma related_written_other u rid r vd db db' k rid' :
  recipe_written u rid r vd db db' → rid' ≠ rid →
  related k db' rid' = related k db rid'.
Proof.
  intros [_ Hk] Hne. destruct (Hk k) as [_ Hl]. unfold links_after in Hl.
  unfold related. destruct (p_items k vd).
  - destruct Hl as (s & -> & _). by rewrite lookup_insert_ne.
  - by rewrite Hl.
Qed.

(** X10.  A valid create answers [201] with the new recipe as the detail
    serializer shows it.  The creator's list is afterwards the list as
    it was with one entry put before it: the new recipe, under the key
    of the answer, as the list serializer shows it.  The new key is
    larger than every key in use, which is what puts the entry first. *)
Theorem created_recipe_heads_list cfg db u p p' :
  is_valid cfg RecipeDetailSerializer false p = true →
  let res := dispatch cfg db
               (mkRequest (Some u) POST (url_list RecipeViewSet) p) in
  ∃ d d' l r,
    res.2 = mkResponse HTTP_201_CREATED (body_recipe d) ∧
    (∀ i, is_Some (core_recipe db !! i) → i < rd_id d) ∧
    dispatch cfg db (mkRequest (Some u) GET (url_list RecipeViewSet) p')
    = (db, mkResponse HTTP_200_OK (body_recipes l)) ∧
    dispatch cfg res.1 (mkRequest (Some u) GET (url_list RecipeViewSet) p')
    = (res.1, mkResponse HTTP_200_OK (body_recipes (d' :: l))) ∧
    rd_id d' = rd_id d ∧
    core_recipe res.1 !! rd_id d = Some r ∧
    d = recipe_data cfg RecipeDetailSerializer res.1 (rd_id d) r ∧
    d' = recipe_data cfg RecipeSerializer res.1 (rd_id d) r.
Proof.
  intros Hv res.
  pose proof (RecipeViewSet_create_outcome cfg db u p) as H. simpl in H.
  rewrite Hv in H. destruct H as (db' & Heq & Hw).
  set (rid := next_id (core_recipe db)) in *.
  set (r := set_fields _ _) in Hw.
  unfold res. rewrite !dispatch_authenticated, Heq. simpl.
  pose proof (recipe_written_lookup _ _ _ _ _ _ Hw) as Hrid.
  pose proof (next_id_fresh (core_recipe db)) as Hfresh. fold rid in Hfresh.
  unfold render_recipe. rewrite Hrid.
  exists (recipe_data cfg RecipeDetailSerializer db' rid r),
         (recipe_data cfg RecipeSerializer db' rid r),
         ((λ ir, recipe_data cfg RecipeSerializer db ir.1 ir.2)
            <$> RecipeViewSet_get_queryset db u), r.
  split; [done|]. split; [intros i; apply next_id_gt|].
  split; [done|]. split; [|done].
  unfold RecipeViewSet_list. do 3 f_equal.
  assert (RecipeViewSet_get_queryset db' u
          = (rid, r) :: RecipeViewSet_get_queryset db u) as ->.
  { symmetry. apply recipe_queryset_unique.
    - constructor; [apply recipe_queryset_sorted|].
      apply Forall_forall. intros [i x] Hin. simpl.
      apply elem_of_recipe_queryset in Hin as [Hi _].
      apply next_id_gt. by eexists.
    - intros i x. destruct Hw as [-> _].
      rewrite elem_of_cons, elem_of_recipe_queryset.
      destruct (decide (i = rid)) as [->|Hne].
      + rewrite lookup_insert_eq, Hfresh. split.
        * intros [[= ->]|[? _]]; [|done]. done.
        * intros [[= ->] _]. by left.
      + rewrite lookup_insert_ne by done. split.
        * intros [[= -> _]|?]; [done|done].
        * intros ?. by right. }
  rewrite fmap_cons. simpl. f_equal.
  apply Forall_fmap_ext, Forall_forall. intros [i x] Hin. simpl.
  apply elem_of_recipe_queryset in Hin as [Hi _].
  assert (i ≠ rid) as Hne.
  { intros ->. by rewrite Hfresh in Hi. }
  unfold recipe_data.
  by rewrite !(related_written_other _ _ _ _ _ _ _ _ Hw Hne).
Qed.

(** ** What other users see *)

(** The owner of a tag or an ingredient does not change for as long as
    the row lives. *)
Lemma effect_attr_owner_stable u m p db db' k j a a' :
  effect u m p db db' →
  attr_table k db !! j = Some a → attr_table k db' !! j = Some a' →
  attr_user a' = attr_user a.
Proof.
  intros [->|rid r1 vd [_ Hk] _ _ _ _|rid r1 _ _ -> _
         |k0 aid a0 a1 Haid Hu Hu1 _ -> _|k0 aid a0 Haid Hu -> _] Hj Hj'.
  - congruence.
  - destruct (Hk k) as [(Hsub & _) _].
    eapply lookup_weaken in Hj; [|exact Hsub]. congruence.
  - rewrite attr_table_recipe_delete in Hj'. congruence.
  - rewrite attr_table_set_attr_table in Hj'.
    case_decide as Hkk; [|congruence]. subst k0.
    destruct (decide (aid = j)) as [->|Hne].
    + rewrite lookup_insert_eq in Hj'. congruence.
    + rewrite lookup_insert_ne in Hj' by done. congruence.
  - rewrite attr_table_attr_delete in Hj'.
    case_decide as Hkk; [|congruence].
    apply lookup_delete_Some in Hj' as [_ Hj']. congruence.
Qed.

(** The rows of a user are the same before and after a request of
    another user. *)
Lemma effect_rows_of_other u m p db db' u1 :
  effect u m p db db' → u1 ≠ u →
  (∀ i r, core_recipe db' !! i = Some r ∧ recipe_user r = u1 ↔
          core_recipe db !! i = Some r ∧ recipe_user r = u1) ∧
  (∀ k i a, attr_table k db' !! i = Some a ∧ attr_user a = u1 ↔
            attr_table k db !! i = Some a ∧ attr_user a = u1).
Proof.
  intros He Hne. split.
  - intros i r. split.
    + intros [Hi Hu]. split; [|done].
      destruct (core_recipe db !! i) as [r0|] eqn:Hi0.
      * destruct (decide (recipe_user r0 = u)) as [Hr0|Hr0].
        -- exfalso. apply Hne. rewrite <-Hu, <-Hr0.
           by eapply effect_owner_stable.
        -- rewrite (effect_foreign_recipe _ _ _ _ _ _ _ He Hi0 Hr0) in Hi.
           congruence.
      * exfalso. apply Hne. rewrite <-Hu. by eapply effect_new_recipe.
    + intros [Hi Hu]. split; [|done].
      eapply effect_foreign_recipe; [done..|congruence].
  - intros k i a. split.
    + intros [Hi Hu]. split; [|done].
      destruct (attr_table k db !! i) as [a0|] eqn:Hi0.
      * destruct (decide (attr_user a0 = u)) as [Ha0|Ha0].
        -- exfalso. apply Hne. rewrite <-Hu, <-Ha0.
           by eapply effect_attr_owner_stable.
        -- rewrite (effect_foreign_attr _ _ _ _ _ _ _ _ He Hi0 Ha0) in Hi.
           congruence.
      * exfalso. apply Hne. rewrite <-Hu.
        by destruct (effect_new_attr _ _ _ _ _ _ _ _ He Hi Hi0) as [? _].
    + intros [Hi Hu]. split; [|done].
      eapply effect_foreign_attr; [done..|congruence].
Qed.

(** The relations of the recipes of a user are the same before and after
    a request of another user. *)
Lemma effect_related_of_other u m p db db' k rid r :
  effect u m p db db' → links_owned db →
  core_recipe db !! rid = Some r → recipe_user r ≠ u →
  related k db' rid = related k db rid.
Proof.
  rewrite links_owned_alt.
  intros [->|rid0 r1 vd Hw _ Hown _ _|rid0 r1 Hrid0 Hu0 -> _
         |k0 aid a0 a1 _ _ _ _ -> _|k0 aid a0 Haid Hu0 -> _] Hwf Hr Hne.
  - done.
  - eapply related_written_other; [done|]. intros ->.
    by apply Hne, Hown.
  - rewrite related_recipe_delete. rewrite decide_False; [done|].
    intros ->. congruence.
  - unfold related. by rewrite attr_links_set_attr_table.
  - rewrite related_attr_delete. case_decide as Hk; [|done]. subst k0.
    apply set_eq. intros t. rewrite elem_of_difference, elem_of_singleton.
    split; [tauto|]. intros Ht. split; [done|]. intros ->.
    apply related_elem_of in Ht as (s & Hs & Ht).
    destruct (Hwf k rid s aid Hs Ht) as (r' & a' & Hr' & Ha' & Hra).
    congruence.
Qed.

Lemma NoDup_attr_queryset k db u :
  NoDup (BaseRecipeAttributeViewSet_get_queryset k db u).
Proof.
  apply (NoDup_fmap_1 fst).
  unfold BaseRecipeAttributeViewSet_get_queryset, order_by_neg_name.
  rewrite merge_sort_Permutation. apply NoDup_filter_user.
Qed.

(** X11.  What a user reads does not depend on what other users do.
    After any request of another user, the list of the user's recipes
    and every read of a single recipe answer exactly as before, nested
    relations included; the lists of the user's tags and ingredients
    hold the same rows as before. *)
Theorem other_users_see_no_change cfg db u1 u2 m url p :
  links_owned db → u1 ≠ u2 →
  let db' := (dispatch cfg db (mkRequest (Some u2) m url p)).1 in
  (∀ pg, (dispatch cfg db'
            (mkRequest (Some u1) GET (url_list RecipeViewSet) pg)).2
         = (dispatch cfg db
              (mkRequest (Some u1) GET (url_list RecipeViewSet) pg)).2) ∧
  (∀ pk pg, (dispatch cfg db'
               (mkRequest (Some u1) GET (url_detail RecipeViewSet pk) pg)).2
            = (dispatch cfg db
                 (mkRequest (Some u1) GET (url_detail RecipeViewSet pk) pg)).2) ∧
  (∀ k pg, ∃ l l',
      (dispatch cfg db
         (mkRequest (Some u1) GET (url_list (attr_viewset k)) pg)).2
      = mkResponse HTTP_200_OK (body_attrs k l) ∧
      (dispatch cfg db'
         (mkRequest (Some u1) GET (url_list (attr_viewset k)) pg)).2
      = mkResponse HTTP_200_OK (body_attrs k l') ∧
      l' ≡ₚ l).
Proof.
  intros Hwf Hne db'.
  pose proof (dispatch_effect cfg db u2 m url p) as He. fold db' in He.
  destruct (effect_rows_of_other _ _ _ _ _ u1 He Hne) as [Hrec Hattr].
  assert (∀ sc rid r, core_recipe db !! rid = Some r → recipe_user r = u1 →
                      recipe_data cfg sc db' rid r
                      = recipe_data cfg sc db rid r) as Hdata.
  { intros sc rid r Hr Hu. unfold recipe_data.
    rewrite !(effect_related_of_other _ _ _ _ _ _ _ _ He Hwf Hr);
      [done|congruence..]. }
  split; [|split].
  - intros pg. rewrite !dispatch_authenticated. unfold RecipeViewSet_list.
    simpl. do 2 f_equal.
    assert (RecipeViewSet_get_queryset db' u1
            = RecipeViewSet_get_queryset db u1) as ->.
    { apply recipe_queryset_unique; [apply recipe_queryset_sorted|].
      intros i r. by rewrite elem_of_recipe_queryset. }
    apply Forall_fmap_ext, Forall_forall. intros [i r] Hin. simpl.
    apply elem_of_recipe_queryset in Hin as [Hi Hu]. by apply Hdata.
  - intros pk pg. rewrite !dispatch_authenticated.
    unfold RecipeViewSet_retrieve. rewrite !get_object_recipe_eq.
    destruct (core_recipe db !! pk) as [r|] eqn:Hr.
    + destruct (decide (recipe_user r = u1)) as [Hu|Hu].
      * destruct (proj2 (Hrec pk r) (conj Hr Hu)) as [-> _].
        rewrite decide_True by done. simpl. by rewrite Hdata.
      * destruct (core_recipe db' !! pk) as [r'|] eqn:Hr'; [|done].
        case_decide as Hu'; [|done].
        destruct (proj1 (Hrec pk r') (conj Hr' Hu')) as [? _]. congruence.
    + destruct (core_recipe db' !! pk) as [r'|] eqn:Hr'; [|done].
      case_decide as Hu'; [|done].
      destruct (proj1 (Hrec pk r') (conj Hr' Hu')) as [? _]. congruence.
  - intros k pg.
    exists (BaseRecipeAttributeViewSet_get_queryset k db u1),
           (BaseRecipeAttributeViewSet_get_queryset k db' u1).
    rewrite !dispatch_authenticated.
    split; [by destruct k|]. split; [by destruct k|].
    apply NoDup_Permutation; [apply NoDup_attr_queryset..|].
    intros [i a]. by rewrite !elem_of_attr_queryset.
Qed.

(** ** An invariant of the reachable databases *)

(** X12.  In every database that requests lead to from the empty one, a
    recipe is related only to rows that exist and belong to the owner of
    the recipe, and only recipes that exist are related to anything. *)
Theorem reachable_relations_owned cfg db k rid t :
  reachable cfg db → t ∈ related k db rid →
  ∃ r a, core_recipe db !! rid = Some r ∧ attr_table k db !! t = Some a ∧
         attr_user a = recipe_user r.
Proof.
  intros Hreach Ht.
  assert (links_owned db) as Hwf.
  { clear Ht. induction Hreach as [|db req _ IH].
    - apply links_owned_empty.
    - by apply dispatch_links_owned. }
  rewrite links_owned_alt in Hwf.
  apply related_elem_of in Ht as (s & Hs & Ht). by eapply Hwf.
Qed.

(** ** Names are unique per owner *)

Lemma effect_names_unique u m p db db' :
  effect u m p db db' → names_unique db → names_unique db'.
Proof.
  intros [->|rid r1 vd [_ Hk] _ _ _ _|rid r1 _ _ -> _
         |k0 aid a0 a1 _ _ _ Hfree -> _|k0 aid a0 _ _ -> _] Huniq k i j a.
  - apply Huniq.
  - destruct (Hk k) as [(Hsub & _ & Hnew) _]. intros Hi Hj.
    destruct (attr_table k db !! i) as [x|] eqn:Hi0.
    { assert (x = a) as ->.
      { eapply lookup_weaken_inv; [exact Hi0|exact Hsub|exact Hi]. }
      destruct (attr_table k db !! j) as [y|] eqn:Hj0.
      - assert (y = a) as ->.
        { eapply lookup_weaken_inv; [exact Hj0|exact Hsub|exact Hj]. }
        by apply (Huniq k i j a).
      - destruct (Hnew j a Hj Hj0) as (Hu & _ & Hnone & _).
        rewrite find_attr_None in Hnone. destruct (Hnone i).
        rewrite Hi0. by destruct a; simpl in *; subst. }
    destruct (Hnew i a Hi Hi0) as (Hu & _ & Hnone & Hfi).
    destruct (attr_table k db !! j) as [y|] eqn:Hj0.
    + assert (y = a) as ->.
      { eapply lookup_weaken_inv; [exact Hj0|exact Hsub|exact Hj]. }
      rewrite find_attr_None in Hnone. destruct (Hnone j).
      rewrite Hj0. by destruct a; simpl in *; subst.
    + destruct (Hnew j a Hj Hj0) as (_ & _ & _ & Hfj). congruence.
  - rewrite attr_table_recipe_delete. apply Huniq.
  - rewrite attr_table_set_attr_table. case_decide as Hkk; [|apply Huniq].
    subst k0. intros Hi Hj.
    destruct (decide (i = aid)) as [->|Hi'], (decide (j = aid)) as [->|Hj'];
      [done| | |].
    + rewrite lookup_insert_eq in Hi. injection Hi as <-.
      rewrite lookup_insert_ne in Hj by done. by destruct (Hfree j).
    + rewrite lookup_insert_eq in Hj. injection Hj as <-.
      rewrite lookup_insert_ne in Hi by done. by destruct (Hfree i).
    + rewrite lookup_insert_ne in Hi, Hj by done. by apply (Huniq k i j a).
  - rewrite attr_table_attr_delete. case_decide as Hkk; [|apply Huniq].
    subst k0. intros [_ Hi]%lookup_delete_Some [_ Hj]%lookup_delete_Some.
    by apply (Huniq k i j a).
Qed.

(** X16.  In every database that requests lead to from the empty one, an
    owner has at most one tag, and at most one ingredient, of a name: two
    keys that hold the same owner and name are one key. *)
Theorem reachable_names_unique cfg db k i j a :
  reachable cfg db →
  attr_table k db !! i = Some a → attr_table k db !! j = Some a → i = j.
Proof.
  intros Hreach. revert k i j a. change (names_unique db).
  induction Hreach as [|db [[u|] m url p] _ IH]; [|..].
  - intros k i j a Hi. by destruct k.
  - eapply effect_names_unique; [apply dispatch_effect|done].
  - done.
Qed.

(** ** What a write stores *)

(** X13.  After a valid create or update of a recipe, every one of title,
    time, price, description and link that the body carries is stored as
    sent, and the owner is the caller; after an update, every one of them
    that the body does not carry is what it was. *)
Theorem write_stores_fields cfg db u m url rid p :
  writes_recipe db u m url rid →
  is_valid cfg RecipeDetailSerializer (bool_decide (m = PATCH)) p = true →
  let db' := (dispatch cfg db (mkRequest (Some u) m url p)).1 in
  ∃ r', core_recipe db' !! rid = Some r' ∧ recipe_user r' = u ∧
        (∀ v, p_title p = Some v → title r' = v) ∧
        (∀ v, p_time_minutes p = Some v → time_minutes r' = v) ∧
        (∀ v, p_price p = Some v → price r' = v) ∧
        (∀ v, p_description p = Some v → description r' = v) ∧
        (∀ v, p_link p = Some v → link r' = v) ∧
        (∀ r, core_recipe db !! rid = Some r →
              (p_title p = None → title r' = title r) ∧
              (p_time_minutes p = None → time_minutes r' = time_minutes r) ∧
              (p_price p = None → price r' = price r) ∧
              (p_description p = None → description r' = description r) ∧
              (p_link p = None → link r' = link r)).
Proof.
  intros Hw Hv db'. unfold db'. clear db'.
  destruct Hw as [(-> & -> & ->)|(Hm & -> & r & Hr & Hu)];
    rewrite dispatch_authenticated.
  - pose proof (RecipeViewSet_create_outcome cfg db u p) as H. simpl in H.
    simpl in Hv. rewrite Hv in H. destruct H as (db' & -> & Hw). simpl.
    eexists. split; [exact (recipe_written_lookup _ _ _ _ _ _ Hw)|].
    split; [done|]. simpl.
    do 5 (split; [by intros v ->|]).
    intros r Hr. by rewrite next_id_fresh in Hr.
  - assert (∃ partial : bool,
              bool_decide (m = PATCH) = partial ∧
              match m with
              | GET => RecipeViewSet_retrieve cfg db u rid
              | POST => (db, method_not_allowed)
              | PUT => RecipeViewSet_update cfg false db u rid p
              | PATCH => RecipeViewSet_update cfg true db u rid p
              | DELETE => RecipeViewSet_destroy db u rid
              end = RecipeViewSet_update cfg partial db u rid p)
      as (partial & Hp & ->).
    { destruct Hm as [-> | ->]; eauto. }
    rewrite Hp in Hv.
    pose proof (RecipeViewSet_update_outcome cfg partial db u rid p) as H.
    simpl in H. rewrite get_object_recipe_eq, Hr in H.
    rewrite decide_True in H by done. rewrite Hv in H.
    destruct H as (db' & -> & Hw). simpl.
    eexists. split; [exact (recipe_written_lookup _ _ _ _ _ _ Hw)|].
    split; [by rewrite set_fields_user|]. simpl.
    do 5 (split; [by intros v ->|]).
    intros r0 Hr0. assert (r0 = r) as -> by congruence.
    repeat split; by intros ->.
Qed.

(** ** Repeating an update *)

Lemma set_attr_links_id k db : set_attr_links k (attr_links k db) db = db.
Proof. by destruct db, k. Qed.

Lemma set_attr_table_id k db : set_attr_table k (attr_table k db) db = db.
Proof. by destruct db, k. Qed.

Lemma set_core_recipe_id db : set_core_recipe (core_recipe db) db = db.
Proof. by destruct db. Qed.

Lemma set_fields_idemp vd r : set_fields vd (set_fields vd r) = set_fields vd r.
Proof.
  unfold set_fields. simpl.
  by destruct (p_user vd), (p_title vd), (p_time_minutes vd), (p_price vd),
    (p_description vd), (p_link vd), (p_image vd).
Qed.

Lemma set_attr_fields_idemp vd a :
  set_attr_fields vd (set_attr_fields vd a) = set_attr_fields vd a.
Proof.
  unfold set_attr_fields. simpl. by destruct (p_user vd), (p_name vd).
Qed.

(** Names that all have their rows resolve to them and make none. *)
Lemma resolve_all_resolved k u names db :
  (∀ n, n ∈ names → is_Some (find_attr (attr_table k db) u n)) →
  ∃ s, resolve_all k u names db = (db, s) ∧
       ∀ t, t ∈ s ↔
            ∃ n, n ∈ names ∧ find_attr (attr_table k db) u n = Some t.
Proof.
  induction names as [|n names IH]; intros Hall; simpl.
  - exists ∅. split; [done|]. intros t. split; [by intros ?%elem_of_empty|].
    intros (n & Hn & _). by apply elem_of_nil in Hn.
  - destruct (Hall n) as [i Hi]; [apply list_elem_of_here|].
    rewrite (get_or_create_found _ _ _ _ _ Hi).
    destruct IH as (s & -> & Hs).
    { intros n' Hn'. apply Hall. by apply list_elem_of_further. }
    exists ({[i]} ∪ s). split; [done|]. intros t.
    rewrite elem_of_union, elem_of_singleton, Hs. split.
    + intros [->|(n' & Hn' & Hf)].
      * exists n. split; [apply list_elem_of_here|done].
      * exists n'. split; [by apply list_elem_of_further|done].
    + intros (n' & Hn' & Hf). apply elem_of_cons in Hn' as [->|Hn'].
      * left. congruence.
      * right. eauto.
Qed.

(** Reconciling once more with the same list changes nothing. *)
Lemma reconcile_again k u rid items db0 db :
  links_after k u rid items db0 db → reconcile k u rid items db = db.
Proof.
  destruct items as [names|]; [|done]. simpl.
  intros (s & Hl & Hs & Hall).
  destruct (resolve_all_resolved k u names db Hall) as (s' & -> & Hs').
  assert (s' = s) as ->.
  { apply set_eq. intros t. by rewrite Hs, Hs'. }
  rewrite insert_id; [apply set_attr_links_id|].
  by rewrite Hl, lookup_insert_eq.
Qed.

Lemma RecipeSerializer_update_again u rid r vd db0 db :
  recipe_written u rid r vd db0 db → set_fields vd r = r →
  RecipeSerializer_update u rid r vd db = db.
Proof.
  intros [Hr Hk] Hfix. unfold RecipeSerializer_update.
  destruct (Hk Tag) as [_ HlT]. destruct (Hk Ingredient) as [_ HlI].
  simpl in HlT, HlI.
  rewrite (reconcile_again Tag u rid (p_tags vd) db0 db HlT).
  rewrite (reconcile_again Ingredient u rid (p_ingredients vd) db0 db HlI).
  rewrite Hfix, insert_id; [apply set_core_recipe_id|].
  by rewrite Hr, lookup_insert_eq.
Qed.

Lemma RecipeViewSet_update_idemp cfg partial db u pk p :
  let res := RecipeViewSet_update cfg partial db u pk p in
  RecipeViewSet_update cfg partial res.1 u pk p = res.
Proof.
  pose proof (RecipeViewSet_update_outcome cfg partial db u pk p) as H.
  simpl in H. unfold RecipeViewSet_update at 2.
  rewrite serializer_class_of_update.
  destruct (get_object (RecipeViewSet_get_queryset db u) pk)
    as [inst|] eqn:Hinst.
  - destruct (is_valid cfg RecipeDetailSerializer partial p) eqn:Hv.
    + destruct H as (db' & Heq & Hw). rewrite Heq. simpl.
      apply get_object_recipe in Hinst as [_ Hu].
      rewrite get_object_recipe_eq.
      rewrite (recipe_written_lookup _ _ _ _ _ _ Hw).
      rewrite decide_True by (by rewrite set_fields_user).
      rewrite (RecipeSerializer_update_again _ _ _ _ _ _ Hw
                 (set_fields_idemp _ _)).
      done.
    + rewrite H. simpl. by rewrite Hinst.
  - rewrite H. simpl. by rewrite Hinst.
Qed.

Lemma name_taken_insert t aid a :
  name_taken (<[aid := a]> t) aid a = name_taken t aid a.
Proof.
  apply eq_true_iff_eq. rewrite !name_taken_true.
  split; intros (j & Hne & Hj); exists j; (split; [done|]).
  - by rewrite lookup_insert_ne in Hj.
  - by rewrite lookup_insert_ne.
Qed.

Lemma BaseRecipeAttributeViewSet_update_idemp cfg k partial db u pk p :
  let res := BaseRecipeAttributeViewSet_update cfg k partial db u pk p in
  BaseRecipeAttributeViewSet_update cfg k partial res.1 u pk p = res.
Proof.
  intros res. unfold res. clear res.
  rewrite (BaseRecipeAttributeViewSet_update_eq cfg k partial db).
  destruct (attr_table k db !! pk) as [a|] eqn:Ha.
  - case_decide as Hu.
    + destruct (is_valid cfg (serializer_class k) partial p) eqn:Hv.
      * simpl. destruct (name_taken _ _ _) eqn:Hfree.
        -- simpl. rewrite BaseRecipeAttributeViewSet_update_eq, Ha.
           rewrite decide_True by done. rewrite Hv. simpl.
           by rewrite Hfree.
        -- simpl. rewrite BaseRecipeAttributeViewSet_update_eq.
           rewrite attr_table_set_attr_table. rewrite decide_True by done.
           rewrite lookup_insert_eq. rewrite decide_True by done.
           rewrite Hv. simpl. rewrite set_attr_fields_idemp.
           rewrite name_taken_insert, Hfree, insert_insert_eq.
           set (t := <[pk := _]> (attr_table k db)).
           assert (set_attr_table k t (set_attr_table k t db)
                   = set_attr_table k t db) as -> by (by destruct k).
           done.
      * simpl. rewrite BaseRecipeAttributeViewSet_update_eq, Ha.
        rewrite decide_True by done. by rewrite Hv.
    + simpl. rewrite BaseRecipeAttributeViewSet_update_eq, Ha.
      by rewrite decide_False.
  - simpl. by rewrite BaseRecipeAttributeViewSet_update_eq, Ha.
Qed.

(** X14.  A [PUT] or a [PATCH] sent a second time gets the answer it got
    the first time and changes nothing further, whatever the address, the
    user and the body: no row is made twice, no relation grows. *)
Theorem update_is_idempotent cfg db ou m url p :
  m = PUT ∨ m = PATCH →
  let res := dispatch cfg db (mkRequest ou m url p) in
  dispatch cfg res.1 (mkRequest ou m url p) = res.
Proof.
  intros Hm res. unfold res. destruct ou as [u|]; [|done].
  rewrite !dispatch_authenticated.
  destruct url as [[]|[] pk|pk], Hm as [-> | ->]; try done;
    first [ apply RecipeViewSet_update_idemp
          | apply BaseRecipeAttributeViewSet_update_idemp ].
Qed.

(** ** Every row once *)

Lemma queryset_length {A} (owner : A → nat) u (t : gmap nat A)
    (l : list (nat * A)) :
  l ≡ₚ filter_user owner u (objects_all t) →
  NoDup l.*1 ∧ length l = size (filter (λ ia, owner ia.2 = u) t).
Proof.
  intros Hl. split.
  - rewrite Hl. apply NoDup_filter_user.
  - rewrite Hl. unfold filter_user, objects_all.
    rewrite <-length_map_to_list. apply Permutation_length.
    apply NoDup_Permutation.
    + apply NoDup_filter, NoDup_map_to_list.
    + apply NoDup_map_to_list.
    + intros [i a]. rewrite list_elem_of_filter, !elem_of_map_to_list.
      rewrite map_lookup_filter_Some. simpl. tauto.
Qed.

(** X15.  A list holds every row of the caller once: no key comes twice,
    and the list is as long as the caller has rows in the table, however
    many rows of other users the table holds. *)
Theorem list_has_each_row_once cfg db u p :
  (∃ l, dispatch cfg db (mkRequest (Some u) GET (url_list RecipeViewSet) p)
        = (db, mkResponse HTTP_200_OK (body_recipes l)) ∧
        NoDup (rd_id <$> l) ∧
        length l
        = size (filter (λ ir, recipe_user ir.2 = u) (core_recipe db))) ∧
  (∀ k, ∃ l,
        dispatch cfg db (mkRequest (Some u) GET (url_list (attr_viewset k)) p)
        = (db, mkResponse HTTP_200_OK (body_attrs k l)) ∧
        NoDup l.*1 ∧
        length l
        = size (filter (λ ia, attr_user ia.2 = u) (attr_table k db))).
Proof.
  split.
  - destruct (queryset_length recipe_user u (core_recipe db)
                (RecipeViewSet_get_queryset db u)) as [Hnd Hlen].
    { unfold RecipeViewSet_get_queryset, order_by_neg_id.
      apply merge_sort_Permutation. }
    eexists. split; [reflexivity|]. split.
    + rewrite <-list_fmap_compose.
      by rewrite (list_fmap_ext _ fst (RecipeViewSet_get_queryset db u))
        by (by intros ? []).
    + by rewrite length_fmap.
  - intros k.
    destruct (queryset_length attr_user u (attr_table k db)
                (BaseRecipeAttributeViewSet_get_queryset k db u))
      as [Hnd Hlen].
    { unfold BaseRecipeAttributeViewSet_get_queryset, order_by_neg_name.
      apply merge_sort_Permutation. }
    exists (BaseRecipeAttributeViewSet_get_queryset k db u).
    split; [by destruct k|]. done.
Qed.

(** ** The further properties on the sample data *)

Lemma sample_links_owned : links_owned sample_db.
Proof. apply (bool_decide_unpack _). by vm_compute. Defined.

Lemma sample_reachable : reachable sample_settings sample_db.
Proof.
  rewrite <-sample_db_reached.
  apply reachable_step, reachable_step, reachable_empty.
Defined.

(** An upload that does not decode. *)
Lemma error_writes_nothing_witness :
  400 ≤ status_code
          (dispatch sample_settings sample_db
             (mkRequest (Some 1) POST (url_upload_image 1)
                (image_payload "not an image"))).2 ∧
  (dispatch sample_settings sample_db
     (mkRequest (Some 1) POST (url_upload_image 1)
        (image_payload "not an image"))).1 = sample_db.
Proof.
  assert (400 ≤ status_code
                  (dispatch sample_settings sample_db
                     (mkRequest (Some 1) POST (url_upload_image 1)
                        (image_payload "not an image"))).2) as H.
  { vm_compute. lia. }
  split; [exact H|]. exact (error_writes_nothing _ _ _ H).
Defined.

(** User 2 sends a body without a title to the curry of user 1, then to
    the soup of their own. *)
Lemma checks_in_order_witness :
  dispatch sample_settings sample_db
    (mkRequest (Some 2) PUT (url_detail RecipeViewSet 1) (tags_payload []))
  = (sample_db, not_found) ∧
  dispatch sample_settings sample_db
    (mkRequest (Some 2) PUT (url_detail RecipeViewSet 2) (tags_payload []))
  = (sample_db, bad_request).
Proof.
  destruct (checks_in_order sample_settings sample_db (Some 2) PUT
              (url_detail RecipeViewSet 1) (tags_payload []))
    as (_ & _ & H404 & _).
  destruct (checks_in_order sample_settings sample_db (Some 2) PUT
              (url_detail RecipeViewSet 2) (tags_payload []))
    as (_ & _ & _ & H400).
  split.
  - apply (H404 2 eq_refl eq_refl eq_refl). simpl. discriminate.
  - refine (H400 2 eq_refl eq_refl _ _); [by right; left|done].
Defined.

(** User 1 deletes the curry, then the tag "Thai". *)
Lemma destroy_recipe_witness :
  core_recipe sample_db !! 1 = Some curry ∧ recipe_user curry = 1 ∧
  core_recipe
    (dispatch sample_settings sample_db
       (mkRequest (Some 1) DELETE (url_detail RecipeViewSet 1)
          empty_payload)).1
  = delete 1 (core_recipe sample_db).
Proof.
  do 2 (split; [reflexivity|]).
  destruct (destroy_recipe sample_settings sample_db 1 1 curry empty_payload
              eq_refl eq_refl) as (_ & H & _).
  exact H.
Defined.

Lemma destroy_attr_witness :
  attr_table Tag sample_db !! 1 = Some (mkAttr 1 "Thai") ∧
  attr_user (mkAttr 1 "Thai") = 1 ∧
  related Tag
    (dispatch sample_settings sample_db
       (mkRequest (Some 1) DELETE (url_detail TagViewSet 1)
          empty_payload)).1 1
  = related Tag sample_db 1 ∖ {[1]}.
Proof.
  do 2 (split; [reflexivity|]).
  destruct (destroy_attr sample_settings Tag sample_db 1 1 (mkAttr 1 "Thai")
              empty_payload eq_refl eq_refl) as (_ & _ & _ & H & _).
  exact (H 1).
Defined.

(** User 1 renames the tag "Thai" to "Siamese", naming user 2 as its
    owner, and the tag keeps its owner; then user 1 tries to rename it to
    "Dinner", a name of which user 1 has the row 2, and is refused. *)
Lemma update_attr_witness :
  attr_table Tag sample_db !! 1 = Some (mkAttr 1 "Thai") ∧
  attr_user (mkAttr 1 "Thai") = 1 ∧ (PATCH = PUT ∨ PATCH = PATCH) ∧
  p_name (set_p_user (Some 2) (name_payload "Siamese")) = Some "Siamese" ∧
  (∀ j, attr_table Tag sample_db !! j = Some (mkAttr 1 "Siamese") → j = 1) ∧
  dispatch sample_settings sample_db
    (mkRequest (Some 1) PATCH (url_detail (attr_viewset Tag) 1)
       (set_p_user (Some 2) (name_payload "Siamese")))
  = (set_attr_table Tag
       (<[1 := mkAttr 1 "Siamese"]> (attr_table Tag sample_db)) sample_db,
     mkResponse HTTP_200_OK (body_attr Tag 1 (mkAttr 1 "Siamese"))) ∧
  2 ≠ 1 ∧ attr_table Tag sample_db !! 2 = Some (mkAttr 1 "Dinner") ∧
  dispatch sample_settings sample_db
    (mkRequest (Some 1) PATCH (url_detail (attr_viewset Tag) 1)
       (name_payload "Dinner"))
  = (sample_db, bad_request).
Proof.
  assert (PATCH = PUT ∨ PATCH = PATCH) as Hm by (by right).
  assert (∀ j, attr_table Tag sample_db !! j = Some (mkAttr 1 "Siamese") →
               j = 1) as Hfree.
  { intros j Hj. exfalso. revert j Hj. apply find_attr_None. by vm_compute. }
  assert (2 ≠ 1) as Hne by lia.
  do 2 (split; [reflexivity|]). split; [exact Hm|]. split; [reflexivity|].
  split; [exact Hfree|]. split; [|split; [exact Hne|split; [reflexivity|]]].
  - exact (proj1 (update_attr sample_settings Tag sample_db 1 1
                    (mkAttr 1 "Thai") PATCH
                    (set_p_user (Some 2) (name_payload "Siamese")) "Siamese"
                    eq_refl eq_refl Hm eq_refl) Hfree).
  - exact (proj2 (update_attr sample_settings Tag sample_db 1 1
                    (mkAttr 1 "Thai") PATCH (name_payload "Dinner") "Dinner"
                    eq_refl eq_refl Hm eq_refl) 2 Hne eq_refl).
Defined.

(** User 1 retags the curry and reads it back. *)
Lemma read_your_write_witness :
  writes_recipe sample_db 1 PATCH (url_detail RecipeViewSet 1) 1 ∧
  is_valid sample_settings RecipeDetailSerializer (bool_decide (PATCH = PATCH))
    (tags_payload ["Lunch"]) = true ∧
  (dispatch sample_settings
     (dispatch sample_settings sample_db
        (mkRequest (Some 1) PATCH (url_detail RecipeViewSet 1)
           (tags_payload ["Lunch"]))).1
     (mkRequest (Some 1) GET (url_detail RecipeViewSet 1) empty_payload)).2
  = mkResponse HTTP_200_OK
      (data (dispatch sample_settings sample_db
               (mkRequest (Some 1) PATCH (url_detail RecipeViewSet 1)
                  (tags_payload ["Lunch"]))).2).
Proof.
  split; [exact sample_writes_curry|]. split; [reflexivity|].
  by rewrite (read_your_write sample_settings sample_db 1 PATCH
                (url_detail RecipeViewSet 1) 1 (tags_payload ["Lunch"])
                empty_payload sample_writes_curry eq_refl).
Defined.

(** User 1 creates a second recipe. *)
Lemma created_recipe_heads_list_witness :
  is_valid sample_settings RecipeDetailSerializer false curry_payload = true ∧
  ∃ d d' l,
    (dispatch sample_settings sample_db
       (mkRequest (Some 1) POST (url_list RecipeViewSet) curry_payload)).2
    = mkResponse HTTP_201_CREATED (body_recipe d) ∧
    (dispatch sample_settings
       (dispatch sample_settings sample_db
          (mkRequest (Some 1) POST (url_list RecipeViewSet)
             curry_payload)).1
       (mkRequest (Some 1) GET (url_list RecipeViewSet) empty_payload)).2
    = mkResponse HTTP_200_OK (body_recipes (d' :: l)) ∧
    rd_id d' = rd_id d.
Proof.
  split; [reflexivity|].
  destruct (created_recipe_heads_list sample_settings sample_db 1
              curry_payload empty_payload eq_refl)
    as (d & d' & l & r & Hd & _ & _ & Hlist & Hid & _).
  exists d, d', l. split; [exact Hd|]. split; [|exact Hid].
  by rewrite Hlist.
Defined.

(** User 2 deletes a tag of their own; user 1 lists the recipes. *)
Lemma other_users_see_no_change_witness :
  links_owned sample_db ∧ 1 ≠ 2 ∧
  (dispatch sample_settings
     (dispatch sample_settings sample_db
        (mkRequest (Some 2) DELETE (url_detail TagViewSet 3)
           empty_payload)).1
     (mkRequest (Some 1) GET (url_list RecipeViewSet) empty_payload)).2
  = (dispatch sample_settings sample_db
       (mkRequest (Some 1) GET (url_list RecipeViewSet) empty_payload)).2.
Proof.
  assert (1 ≠ 2) as Hne by lia.
  split; [exact sample_links_owned|]. split; [exact Hne|].
  destruct (other_users_see_no_change sample_settings sample_db 1 2 DELETE
              (url_detail TagViewSet 3) empty_payload
              sample_links_owned Hne) as (H & _).
  exact (H empty_payload).
Defined.

(** The curry is related to the tag "Dinner", a tag of its owner. *)
Lemma reachable_relations_owned_witness :
  reachable sample_settings sample_db ∧ 2 ∈ related Tag sample_db 1 ∧
  ∃ r a, core_recipe sample_db !! 1 = Some r ∧
         attr_table Tag sample_db !! 2 = Some a ∧
         attr_user a = recipe_user r.
Proof.
  assert (2 ∈ related Tag sample_db 1) as Hin.
  { apply (bool_decide_unpack _). by vm_compute. }
  split; [exact sample_reachable|]. split; [exact Hin|].
  exact (reachable_relations_owned sample_settings sample_db Tag 1 2
           sample_reachable Hin).
Defined.

(** User 1 changes the title of the curry. *)
Lemma write_stores_fields_witness :
  writes_recipe sample_db 1 PATCH (url_detail RecipeViewSet 1) 1 ∧
  is_valid sample_settings RecipeDetailSerializer (bool_decide (PATCH = PATCH))
    (image_payload "JPEG") = true ∧
  ∃ r', core_recipe
          (dispatch sample_settings sample_db
             (mkRequest (Some 1) PATCH (url_detail RecipeViewSet 1)
                (image_payload "JPEG"))).1 !! 1 = Some r' ∧
        title r' = "Another title" ∧ link r' = link curry.
Proof.
  split; [exact sample_writes_curry|]. split; [reflexivity|].
  destruct (write_stores_fields sample_settings sample_db 1 PATCH
              (url_detail RecipeViewSet 1) 1 (image_payload "JPEG")
              sample_writes_curry eq_refl)
    as (r' & Hr' & _ & Ht & _ & _ & _ & _ & Hold).
  exists r'. split; [exact Hr'|]. split; [by apply Ht|].
  destruct (Hold curry eq_refl) as (_ & _ & _ & _ & Hl). by apply Hl.
Defined.

(** User 1 tags the curry "Lunch" twice over. *)
Lemma update_is_idempotent_witness :
  (PATCH = PUT ∨ PATCH = PATCH) ∧
  dispatch sample_settings
    (dispatch sample_settings sample_db
       (mkRequest (Some 1) PATCH (url_detail RecipeViewSet 1)
          (tags_payload ["Lunch"]))).1
    (mkRequest (Some 1) PATCH (url_detail RecipeViewSet 1)
       (tags_payload ["Lunch"]))
  = dispatch sample_settings sample_db
      (mkRequest (Some 1) PATCH (url_detail RecipeViewSet 1)
         (tags_payload ["Lunch"])).
Proof.
  assert (PATCH = PUT ∨ PATCH = PATCH) as Hm by (by right).
  split; [exact Hm|].
  exact (update_is_idempotent sample_settings sample_db (Some 1) PATCH
           (url_detail RecipeViewSet 1) (tags_payload ["Lunch"]) Hm).
Defined.

(** The tag "Thai" of user 1 is under one key. *)
Lemma reachable_names_unique_witness :
  reachable sample_settings sample_db ∧
  attr_table Tag sample_db !! 1 = Some (mkAttr 1 "Thai") ∧
  ∀ j, attr_table Tag sample_db !! j = Some (mkAttr 1 "Thai") → 1 = j.
Proof.
  split; [exact sample_reachable|]. split; [reflexivity|]. intros j Hj.
  exact (reachable_names_unique sample_settings sample_db Tag 1 j
           (mkAttr 1 "Thai") sample_reachable eq_refl Hj).
Defined.
